(** * FragileCityScraper: extraction and normalisation pipeline

    A shallow embedding of the scraper class of the repository (number and
    unit parsers, record validators, retrying transport, batch scheduler,
    run orchestrator) together with the properties its specification states.

    Conventions of the embedding.
    - A JavaScript string is a [string]: the sequence of its code units,
      each below 256.  Every character class the source mentions is ASCII.
    - A JavaScript number is a [jsnum]: a double, kept as the rational it
      denotes, an infinity or [NaN].  What the source computes is rounded
      to the nearest double as IEEE 754 has it; [-0] is [0].
    - [null] is [None].
    - What the scraper's own code throws is an [Error], of which the code
      reads the message only.  An operation handed to the scheduler from
      outside settles in any way a promise can ([Settled]).
    - The settings of the scraper are counts, as its documentation gives
      them: whole numbers, zero or more. *)

From Equations Require Import Equations.
From stdpp Require Import base option list strings gmap.
From Stdlib Require Import Ascii QArith.
Close Scope Q_scope.
Local Open Scope string_scope.
Local Open Scope nat_scope.
Local Open Scope list_scope.

(** ** Characters and strings *)

Module Chars.

Definition code (c : ascii) : nat := nat_of_ascii c.

(** [\d] *)
Definition is_digit (c : ascii) : bool :=
  (48 <=? code c) && (code c <=? 57).

(** White space and line terminators of ECMAScript below 256:
    TAB, LF, VT, FF, CR, SP, NBSP.  This is [\s] and what [trim] strips. *)
Definition is_ws (c : ascii) : bool :=
  ((9 <=? code c) && (code c <=? 13)) || (code c =? 32) || (code c =? 160).

Definition one (a : ascii) (c : ascii) : bool := bool_decide (c = a).

(** [[\d,]] *)
Definition digit_comma (c : ascii) : bool := is_digit c || one ","%char c.

(** [[\d,.]] *)
Definition digit_comma_dot (c : ascii) : bool :=
  is_digit c || one ","%char c || one "."%char c.

(** [[\d.]] *)
Definition digit_dot (c : ascii) : bool := is_digit c || one "."%char c.

(** [[kMG]] *)
Definition kMG (c : ascii) : bool := one "k"%char c || one "M"%char c || one "G"%char c.

Definition digit_val (c : ascii) : Z := (Z.of_nat (code c) - 48)%Z.

(** [toLowerCase] on one code unit below 256. *)
Definition lower (c : ascii) : ascii :=
  let n := code c in
  if ((65 <=? n) && (n <=? 90)) ||
     ((192 <=? n) && (n <=? 222) && negb (n =? 215))
  then ascii_of_nat (n + 32) else c.

End Chars.

Module Str.

Fixpoint take (n : nat) (s : string) : string :=
  match n, s with
  | S n', String c s' => String c (take n' s')
  | _, _ => ""
  end.

Fixpoint filter (p : ascii -> bool) (s : string) : string :=
  match s with
  | "" => ""
  | String c s' => if p c then String c (filter p s') else filter p s'
  end.

Fixpoint forallb (p : ascii -> bool) (s : string) : bool :=
  match s with
  | "" => true
  | String c s' => p c && forallb p s'
  end.

Fixpoint existsb (p : ascii -> bool) (s : string) : bool :=
  match s with
  | "" => false
  | String c s' => p c || existsb p s'
  end.

(** The longest prefix made of characters of [p], and what follows it. *)
Fixpoint span (p : ascii -> bool) (s : string) : string * string :=
  match s with
  | String c s' =>
      if p c then let '(a, b) := span p s' in (String c a, b) else ("", s)
  | "" => ("", "")
  end.

Fixpoint drop_while (p : ascii -> bool) (s : string) : string :=
  match s with
  | String c s' => if p c then drop_while p s' else s
  | "" => ""
  end.

Fixpoint map (f : ascii -> ascii) (s : string) : string :=
  match s with
  | "" => ""
  | String c s' => String (f c) (map f s')
  end.

(** [s.trim()] *)
Definition trim (s : string) : string :=
  String.rev (drop_while Chars.is_ws (String.rev (drop_while Chars.is_ws s))).

(** [!s] for a string [s]: only the empty string is falsy. *)
Definition falsy (s : string) : bool :=
  match s with "" => true | _ => false end.

(** [s.toLowerCase()] *)
Definition toLowerCase (s : string) : string := map Chars.lower s.

(** [s.replace(/,/g, '')] *)
Definition remove_commas (s : string) : string :=
  filter (fun c => negb (Chars.one ","%char c)) s.

(** [s.replace(/\s+/g, '_')]: every maximal run of white space becomes
    one underscore.  [in_run] tells that the previous character was white
    space, so that the run has its underscore already. *)
Fixpoint ws_to_underscore (in_run : bool) (s : string) : string :=
  match s with
  | "" => ""
  | String c s' =>
      if Chars.is_ws c
      then if in_run then ws_to_underscore true s'
           else String "_"%char (ws_to_underscore true s')
      else String c (ws_to_underscore false s')
  end.

End Str.

(** ** Numbers *)

Inductive jsnum : Type :=
| Num (q : Q)
| NaN
| Infinity (negative : bool).

Definition num_of_Z (z : Z) : jsnum := Num (inject_Z z).

(** Rounding to the nearest double (binary64: 53 bits of precision, the
    last place of the smallest numbers at [2 ^ -1074], everything from
    [2 ^ 1024] on infinite), ties to the even mantissa. *)
Module Double.

(** [a / (b * 2 ^ e)] as a fraction of integers. *)
Definition shift (a b e : Z) : Z * Z :=
  if (0 <=? e)%Z then (a, b * 2 ^ e)%Z else (a * 2 ^ (- e), b)%Z.

(** The exponent of the last place of the double nearest to [a / b], for
    positive [a] and [b]: the [e] with [2 ^ 52 <= a / (b * 2 ^ e) < 2 ^ 53],
    and [-1074] when that would be less. *)
Definition exponent (a b : Z) : Z :=
  let e := (Z.log2 a - Z.log2 b - 53)%Z in
  let '(n, d) := shift a b e in
  Z.max (-1074) (if (2 ^ 53 * d <=? n)%Z then e + 1 else e)%Z.

(** The integer nearest to [n / d], the even one of two that are equally
    near. *)
Definition nearest (n d : Z) : Z :=
  let m := (n / d)%Z in
  let r := (n mod d)%Z in
  if (2 * r <? d)%Z then m
  else if (d <? 2 * r)%Z then (m + 1)%Z
  else if Z.even m then m else (m + 1)%Z.

(** The double nearest to [a / b] for positive [a] and [b]; [None] is
    the overflow. *)
Definition round_positive (a b : Z) : option Q :=
  let e := exponent a b in
  let '(n, d) := shift a b e in
  let m := nearest n d in
  if (0 <=? e)%Z && (2 ^ 1024 <=? m * 2 ^ e)%Z then None
  else Some (Qred (Qmake (m * 2 ^ Z.max e 0)
                         (Z.to_pos (2 ^ Z.max (- e) 0)))).

Definition round (q : Q) : jsnum :=
  match Qnum q with
  | Z0 => Num (inject_Z 0)
  | Zpos a =>
      match round_positive (Zpos a) (Zpos (Qden q)) with
      | Some v => Num v
      | None => Infinity false
      end
  | Zneg a =>
      match round_positive (Zpos a) (Zpos (Qden q)) with
      | Some v => Num (Qopp v)
      | None => Infinity true
      end
  end.

End Double.

Arguments Double.round : simpl never.

(** [x * k] for a positive integer constant [k]: the product of two
    doubles, rounded. *)
Definition jsmul (x : jsnum) (k : Z) : jsnum :=
  match x with
  | Num q => Double.round (q * inject_Z k)
  | NaN => NaN
  | Infinity negative => Infinity negative
  end.

(** [x < 0]; every comparison with [NaN] is false. *)
Definition js_lt0 (x : jsnum) : bool :=
  match x with
  | Num q => bool_decide (Qnum q < 0)%Z
  | NaN => false
  | Infinity negative => negative
  end.

(** [Number.isInteger] *)
Definition js_is_integer (x : jsnum) : bool :=
  match x with
  | Num q => bool_decide (Qden (Qred q) = 1%positive)
  | NaN => false
  | Infinity _ => false
  end.

Module Numeral.

(** Value of a string of decimal digits, most significant first. *)
Fixpoint digits_from (acc : Z) (s : string) : Z :=
  match s with
  | "" => acc
  | String c s' => digits_from (10 * acc + Chars.digit_val c)%Z s'
  end.

Definition digits (s : string) : Z := digits_from 0%Z s.

(** An optional sign in front of a numeral. *)
Definition sign (s : string) : bool * string :=
  match s with
  | String "-"%char s' => (true, s')
  | String "+"%char s' => (false, s')
  | _ => (false, s)
  end.

Definition signed (neg : bool) (z : Z) : Z := if neg then (- z)%Z else z.

End Numeral.

(** [parseInt(s)] on the strings the scraper hands to it (a sign, decimal
    digits, anything after them ignored).  Leading white space is skipped; no
    digit at all gives [NaN]; the integer the digits spell is rounded to the
    nearest double, an infinity when there are some hundreds of them.  The
    hexadecimal prefix is not modelled: the callers strip everything but [-]
    and digits. *)
Definition parseInt (s : string) : jsnum :=
  let '(neg, s1) := Numeral.sign (Str.drop_while Chars.is_ws s) in
  let '(ds, _) := Str.span Chars.is_digit s1 in
  if Str.falsy ds then NaN
  else Double.round (inject_Z (Numeral.signed neg (Numeral.digits ds))).

(** [parseFloat(s)]: sign, integer digits, then optionally a period and
    fraction digits; the longest such prefix is read and the rest ignored.
    Neither integer nor fraction digits gives [NaN]; the number written is
    rounded to the nearest double.  Exponents and the word [Infinity] are
    not modelled: the callers pass only [-], digits and periods. *)
Definition parseFloat (s : string) : jsnum :=
  let '(neg, s1) := Numeral.sign (Str.drop_while Chars.is_ws s) in
  let '(ip, s2) := Str.span Chars.is_digit s1 in
  let fp := match s2 with
            | String "."%char s3 => fst (Str.span Chars.is_digit s3)
            | _ => ""
            end in
  if Str.falsy ip && Str.falsy fp then NaN
  else
    let m := Numeral.signed neg (Numeral.digits (ip +:+ fp)) in
    Double.round
      (Qred (Qmake m (Z.to_pos (10 ^ Z.of_nat (String.length fp))%Z))).

(** ** Regular expressions

    The fragment of ECMAScript regular expressions the scraper uses:
    character classes, greedy [+] over a class, greedy [?], concatenation
    and capturing groups.  Matching is by backtracking: [run] lists every way
    the expression can match a prefix of the input, in the order in which the
    backtracking matcher tries them, so that the first one is the match. *)

Module Regex.

Inductive regex : Type :=
| Class (p : ascii -> bool)
| ClassPlus (p : ascii -> bool)
| Cat (r1 r2 : regex)
| Opt (r : regex)
| Group (n : nat) (r : regex).

(** Captures: group number to matched text; an absent group is
    [undefined]. *)
Definition captures : Type := gmap nat string.

(** What remains after [p+], the longest run first. *)
Fixpoint plus_rests (p : ascii -> bool) (s : string) : list string :=
  match s with
  | String c s' => if p c then plus_rests p s' ++ [s'] else []
  | "" => []
  end.

(** The part of [s] in front of its suffix [rest]. *)
Definition consumed (s rest : string) : string :=
  Str.take (String.length s - String.length rest) s.

Fixpoint run (r : regex) (s : string) (caps : captures)
  : list (string * captures) :=
  match r with
  | Class p =>
      match s with
      | String c s' => if p c then [(s', caps)] else []
      | "" => []
      end
  | ClassPlus p => (fun rest => (rest, caps)) <$> plus_rests p s
  | Cat r1 r2 =>
      flat_map (fun m => run r2 (fst m) (snd m)) (run r1 s caps)
  | Opt r1 => run r1 s caps ++ [(s, caps)]
  | Group n r1 =>
      (fun m => (fst m, <[n := consumed s (fst m)]> (snd m)))
        <$> run r1 s caps
  end.

(** The match that starts at the first character of [s], if any. *)
Definition exec_here (r : regex) (s : string) : option captures :=
  snd <$> head (run r s ∅).

(** [s.match(r)] without the [g] flag: the leftmost match. *)
Fixpoint search (r : regex) (s : string) : option captures :=
  match exec_here r s with
  | Some m => Some m
  | None =>
      match s with
      | String _ s' => search r s'
      | "" => None
      end
  end.

(** [match[n]], with [undefined] read as the empty string where the
    source only uses groups that took part in the match. *)
Definition group (n : nat) (m : captures) : string := default "" (m !! n).

End Regex.

Import Regex.

(** ** Number and unit parser *)

(** [/(-?[\d,]+)/] *)
Definition re_integer : regex :=
  Group 1 (Cat (Opt (Class (Chars.one "-"))) (ClassPlus Chars.digit_comma)).

(** [/([\d,.]+)\/([\d,.]+[kMG]?)/] *)
Definition re_stat_fraction : regex :=
  Cat (Group 1 (ClassPlus Chars.digit_comma_dot))
      (Cat (Class (Chars.one "/"))
           (Group 2 (Cat (ClassPlus Chars.digit_comma_dot)
                         (Opt (Class Chars.kMG))))).

(** [/(-?[\d,.]+[kMG]?)/] *)
Definition re_stat_single : regex :=
  Group 1 (Cat (Opt (Class (Chars.one "-")))
               (Cat (ClassPlus Chars.digit_comma_dot) (Opt (Class Chars.kMG)))).

(** [/(-?[\d,.]+)([kMG])?/] *)
Definition re_magnitude : regex :=
  Cat (Group 1 (Cat (Opt (Class (Chars.one "-")))
                    (ClassPlus Chars.digit_comma_dot)))
      (Opt (Group 2 (Class Chars.kMG))).

(** [/([\d.]+[kMG]?)\/([\d.]+[kMG]?)/], the fraction pattern of the
    resource rows of a city page. *)
Definition re_resource_fraction : regex :=
  Cat (Group 1 (Cat (ClassPlus Chars.digit_dot) (Opt (Class Chars.kMG))))
      (Cat (Class (Chars.one "/"))
           (Group 2 (Cat (ClassPlus Chars.digit_dot) (Opt (Class Chars.kMG))))).

(** [extractNumber(text)] *)
Definition extractNumber (text : string) : option jsnum :=
  if Str.falsy text then None
  else
    match search re_integer text with
    | Some m => Some (parseInt (Str.remove_commas (group 1 m)))
    | None => None
    end.

(** [parseStatNumber(text)] *)
Definition parseStatNumber (text : string) : option jsnum :=
  if Str.falsy text then None
  else
    let text := Str.trim text in
    match search re_magnitude text with
    | None => None
    | Some m =>
        let num := parseFloat (Str.remove_commas (group 1 m)) in
        let suffix := m !! 2 in
        if bool_decide (suffix = Some "k") then Some (jsmul num 1000)
        else if bool_decide (suffix = Some "M") then Some (jsmul num 1000000)
        else if bool_decide (suffix = Some "G") then Some (jsmul num 1000000000)
        else Some num
    end.

(** The two shapes [extractStatValue] returns besides [null]. *)
Inductive statValue : Type :=
| Scalar (v : jsnum)
| Range (current max : option jsnum).

(** [extractStatValue(text)] *)
Definition extractStatValue (text : string) : option statValue :=
  if Str.falsy text then None
  else
    match search re_stat_fraction text with
    | Some m =>
        Some (Range (parseStatNumber (group 1 m)) (parseStatNumber (group 2 m)))
    | None =>
        match search re_stat_single text with
        | Some m => Scalar <$> parseStatNumber (group 1 m)
        | None => None
        end
    end.

(** The value a resource row stores, lines 531 to 542 of the scraper:
    the same two shapes, found with [re_resource_fraction]. *)
Definition resourceValue (valueText : string) : option statValue :=
  match search re_resource_fraction valueText with
  | Some m =>
      Some (Range (parseStatNumber (group 1 m)) (parseStatNumber (group 2 m)))
  | None => Scalar <$> parseStatNumber valueText
  end.

(** ** Values, records and the scraper's state *)

(** A JavaScript value as the validators inspect it. *)
Inductive jsval : Type :=
| VUndefined
| VNull
| VNumber (n : jsnum)
| VString (s : string)
| VBoolean (b : bool)
| VObject.

(** [v === null || v === undefined] *)
Definition is_nullish (v : jsval) : bool :=
  match v with
  | VNull | VUndefined => true
  | _ => false
  end.

(** [typeof v !== 'number' || v < 0] *)
Definition not_number_or_negative (v : jsval) : bool :=
  match v with
  | VNumber n => js_lt0 n
  | _ => true
  end.

(** A number or [null] as a value. *)
Definition val_of_num (o : option jsnum) : jsval :=
  match o with
  | Some n => VNumber n
  | None => VNull
  end.

(** A thrown [Error], as the transport, the disk and the database throw
    them; the scraper reads nothing of it but its message. *)
Record Error : Type := { message : string }.

(** The closed set of warning types. *)
Inductive WarningType : Type :=
| InvalidCityData
| InvalidWarData
| InvalidCityDetails
| IncompleteCityDetails.

(** The message templates of the validators, with the values they
    interpolate. *)
Inductive WarningMessage : Type :=
| MissingRequiredFields (missing : list string)
| InvalidCitizensCount (v : jsval)
| InvalidMissilesCount (v : jsval)
| CityNameMissing
| NoStatsData
| NoJobLevelsData
| NoResourcesData
| NoBuildingsData
| InvalidCitizens (v : jsval).

Inductive WarningContext : Type :=
| NoContext
| CityContext (city : jsval)
| WarContext (attacker defender : string).

Module Warning.
Record t : Type := {
  type : WarningType;
  message : WarningMessage;
  context : WarningContext;
  timestamp : nat
}.
End Warning.

Module Name.
(** The argument of [scrapeCity]: a text, or a string that holds a lone
    surrogate, which [encodeURIComponent] refuses. *)
Inductive t : Type :=
| Text (text : string)
| Malformed.
End Name.

Coercion Name.Text : string >-> Name.t.

(** Entries of [this.errors]. *)
Inductive ErrorEntry : Type :=
| CityListError (message : string) (timestamp : nat)
| WarsError (message : string) (timestamp : nat)
| CityError (city : Name.t) (message : string) (timestamp : nat)
| DatabaseError (message : string).

Module CityObject.
(** A city as [validateCity] sees it: an object whose properties may hold
    any value. *)
Record t : Type := {
  name : jsval;
  url : jsval;
  pollution : jsval;
  citizens : jsval
}.

(** [city[field]] for the fields the validator asks for. *)
Definition get (city : t) (field : string) : jsval :=
  if bool_decide (field = "name") then name city
  else if bool_decide (field = "url") then url city
  else if bool_decide (field = "pollution") then pollution city
  else if bool_decide (field = "citizens") then citizens city
  else VUndefined.
End CityObject.

Module City.
(** A city as [scrapeCityList] builds it; its name is a text read from
    the list page. *)
Record t : Type := {
  name : string;
  url : string;
  pollution : option jsnum;
  citizens : option jsnum;
  emailVerified : bool;
  isPatron : bool;
  hasContributed : bool
}.

Definition object (city : t) : CityObject.t :=
  {| CityObject.name := VString (name city);
     CityObject.url := VString (url city);
     CityObject.pollution := val_of_num (pollution city);
     CityObject.citizens := val_of_num (citizens city) |}.
End City.

Module War.
Record t : Type := {
  attacker : string;
  attackerUrl : string;
  defender : string;
  defenderUrl : string;
  missiles : option jsnum
}.

(** [!war[field]] for the four string fields. *)
Definition falsy_field (war : t) (field : string) : bool :=
  if bool_decide (field = "attacker") then Str.falsy (attacker war)
  else if bool_decide (field = "defender") then Str.falsy (defender war)
  else if bool_decide (field = "attackerUrl") then Str.falsy (attackerUrl war)
  else if bool_decide (field = "defenderUrl") then Str.falsy (defenderUrl war)
  else true.
End War.

(** A war after the orchestrator has added the three flags. *)
Module EnrichedWar.
Record t : Type := {
  war : War.t;
  attackerActive : bool;
  defenderActive : bool;
  bothActive : bool
}.
End EnrichedWar.

Module JobLevel.
Record t : Type := {
  level : jsnum;
  taxRate : option jsnum;
  citizens : jsnum;
  totalJobs : jsnum;
  availableJobs : jsnum
}.
End JobLevel.

(** ** Fetched documents

    A document is modelled by the answers to the queries the extractors
    put to it.  The parts of a page no stated property depends on (global
    counters, stat cells, job levels, resources, sanctions) are carried as
    the values the extractor reads off them. *)

Module CityRow.
(** One [article div.flex.flex-row.items-center.space-x-1]. *)
Record t : Type := {
  (** text and [href] of the first [a[href^="/city/"]], if there is one *)
  link : option (string * string);
  mailIcon : bool;
  patronBadge : bool;
  contributorBadge : bool;
  (** for every pollution icon, the text of the [span] next to it *)
  pollutionSpans : list (option string);
  (** for every citizen icon, the text of the [span] next to it *)
  citizenSpans : list (option string)
}.
End CityRow.

Module WarRow.
(** One war [div] with at least two city links. *)
Record t : Type := {
  attackerLink : string * string;
  defenderLink : string * string;
  (** text of the [span] next to the might icon, if both exist *)
  missilesSpan : option string
}.
End WarRow.

Module BuildingSection.
(** One [h3.text-l] with the first green count cell found beside its
    container. *)
Record t : Type := {
  heading : string;
  greenCell : option string
}.
End BuildingSection.

Module GlobalStats.
Record t : Type := {
  year : option jsnum;
  day : option jsnum;
  totalCities : option jsnum;
  activeCities : option jsnum;
  totalCitizens : option jsnum;
  totalPollution : option jsnum;
  dailyPollution : option jsnum
}.
End GlobalStats.

Module Page.
Record t : Type := {
  globalStats : GlobalStats.t;
  cityRows : list CityRow.t;
  warRows : list WarRow.t;
  region : option string;
  year : option jsnum;
  day : option jsnum;
  season : option string;
  citizens : option jsnum;
  stats : gmap string statValue;
  jobLevels : list JobLevel.t;
  sanctions : list string;
  resources : gmap string statValue;
  buildingSections : list BuildingSection.t
}.
End Page.

(** An axios response. *)
Record Response : Type := { data : Page.t }.

Module CityData.
(** The record of a city whose page was fetched. *)
Record t : Type := {
  name : string;
  url : string;
  region : option string;
  year : option jsnum;
  day : option jsnum;
  season : option string;
  citizens : option jsnum;
  stats : gmap string statValue;
  jobLevels : list JobLevel.t;
  resources : gmap string statValue;
  buildings : gmap string jsnum;
  sanctionedBy : list string;
  scrapedAt : nat
}.
End CityData.

(** What [scrapeCity] resolves to: the full record, or the four fields
    [{name, url, error, scrapedAt}] of a failed fetch. *)
Inductive CityDetail : Type :=
| Scraped (cityData : CityData.t)
| Failed (name url error : string) (scrapedAt : nat).

Module CityList.
(** What [scrapeCityList] resolves to. *)
Record t : Type := {
  globalStats : GlobalStats.t;
  cities : list City.t;
  scrapedAt : nat;
  version : string
}.
End CityList.

Module RunMetadata.
(** The [metadata] object of [runFullScrape], lines 738 to 749.  The
    duration is kept in milliseconds of the logical clock; the two
    formatted strings made from it are not modelled. *)
Record t : Type := {
  scrapedAt : nat;
  version : string;
  totalCities : nat;
  successfulScrapes : nat;
  failedScrapes : nat;
  scrapeDuration : nat;
  concurrency : nat;
  errors : list ErrorEntry;
  warnings : list Warning.t
}.
End RunMetadata.

(** The three documents a run writes. *)
Inductive FileData : Type :=
| CitiesFile (cities : CityList.t)
| WarsFile (wars : list EnrichedWar.t) (activeWars : nat)
| CityDetailsFile (cities : list CityDetail) (metadata : RunMetadata.t).

(** What the outside world sees of a run. *)
Inductive Event : Type :=
| Get (url : string)
| Sleep (ms : nat)
| WriteFile (filename : string) (data : FileData)
| DatabaseSave (metadata : RunMetadata.t).

(** ** State and effects

    [Scraper.t] is what a run mutates: the two diagnostic lists of the
    scraper object and the trace of its input and output.  [clock] is the
    logical time that [new Date()] reads; only the delays advance it. *)

Module Scraper.
Record t : Type := {
  errors : list ErrorEntry;
  warnings : list Warning.t;
  events : list Event;
  clock : nat
}.

Definition initial : t :=
  {| errors := []; warnings := []; events := []; clock := 0 |}.

Definition push_error (e : ErrorEntry) (s : t) : t :=
  {| errors := errors s ++ [e]; warnings := warnings s;
     events := events s; clock := clock s |}.

Definition push_warning (w : Warning.t) (s : t) : t :=
  {| errors := errors s; warnings := warnings s ++ [w];
     events := events s; clock := clock s |}.

Definition push_event (ev : Event) (s : t) : t :=
  {| errors := errors s; warnings := warnings s;
     events := events s ++ [ev]; clock := clock s |}.

Definition advance (ms : nat) (s : t) : t :=
  {| errors := errors s; warnings := warnings s;
     events := events s; clock := clock s + ms |}.

(** [this.errors = []; this.warnings = []] *)
Definition reset (s : t) : t :=
  {| errors := []; warnings := []; events := events s; clock := clock s |}.
End Scraper.

(** The outcome of a call: a value or a thrown error. *)
Inductive Result (A : Type) : Type :=
| Ok (a : A)
| Throw (e : Error).
Arguments Ok {A} a.
Arguments Throw {A} e.

(** Computations over the scraper's state that may throw. *)
Definition M (A : Type) : Type := Scraper.t -> Result A * Scraper.t.

Definition ret {A} (a : A) : M A := fun s => (Ok a, s).

Definition throw {A} (e : Error) : M A := fun s => (Throw e, s).

Definition bind {A B} (m : M A) (k : A -> M B) : M B :=
  fun s =>
    match m s with
    | (Ok a, s') => k a s'
    | (Throw e, s') => (Throw e, s')
    end.

(** [try { m } catch (error) { h error }] *)
Definition try_catch {A} (m : M A) (h : Error -> M A) : M A :=
  fun s =>
    match m s with
    | (Ok a, s') => (Ok a, s')
    | (Throw e, s') => h e s'
    end.

Definition get_state : M Scraper.t := fun s => (Ok s, s).

Definition modify (f : Scraper.t -> Scraper.t) : M unit :=
  fun s => (Ok tt, f s).

#[global] Instance M_ret : MRet M := @ret.
#[global] Instance M_bind : MBind M := fun A B k m => bind m k.

(** [new Date().toISOString()] *)
Definition now : M nat := fun s => (Ok (Scraper.clock s), s).

(** [await new Promise(resolve => setTimeout(resolve, ms))] *)
Definition sleep (ms : nat) : M unit :=
  modify (fun s => Scraper.advance ms (Scraper.push_event (Sleep ms) s)).

(** ** Configuration and environment *)

Module Options.
(** The [options] object of the constructor; [None] is an absent key, and
    a setting that is given is a count. *)
Record t : Type := {
  maxRetries : option nat;
  retryDelay : option nat;
  concurrency : option nat;
  requestDelay : option nat;
  enableDatabase : option bool
}.

Definition empty : t :=
  {| maxRetries := None; retryDelay := None; concurrency := None;
     requestDelay := None; enableDatabase := None |}.
End Options.

(** [o || d] on a count: an absent key and [0] are both falsy. *)
Definition or_default (o : option nat) (d : nat) : nat :=
  match o with
  | Some (S n) => S n
  | _ => d
  end.

Module Config.
(** The fields of the scraper object that a run only reads. *)
Record t : Type := {
  baseUrl : string;
  version : string;
  maxRetries : nat;
  retryDelay : nat;
  concurrency : nat;
  requestDelay : nat;
  database : bool
}.
End Config.

Definition BASE_URL : string := "https://fragile.city".

(** [new FragileCityScraper(options)] *)
Definition constructor (options : Options.t) : Config.t :=
  {| Config.baseUrl := BASE_URL;
     Config.version := "1.0.0";
     Config.maxRetries := or_default (Options.maxRetries options) 3;
     Config.retryDelay := or_default (Options.retryDelay options) 1000;
     Config.concurrency := or_default (Options.concurrency options) 5;
     Config.requestDelay := or_default (Options.requestDelay options) 100;
     Config.database :=
       negb (bool_decide (Options.enableDatabase options = Some false)) |}.

Module Env.
(** The world outside the scraper.  [net n url] is the outcome of the
    request for [url] issued after [n] earlier requests; [writeFile n f]
    tells whether the write of [f] after [n] earlier writes fails;
    [database n] whether the save to the database of the run started after
    [n] earlier ones fails. *)
Record t : Type := {
  net : nat -> string -> Result Response;
  writeFile : nat -> string -> option Error;
  database : nat -> option Error
}.
End Env.

Definition is_get (ev : Event) : bool :=
  match ev with Get _ => true | _ => false end.

Definition is_sleep (ev : Event) : bool :=
  match ev with Sleep _ => true | _ => false end.

Definition is_write (ev : Event) : bool :=
  match ev with WriteFile _ _ => true | _ => false end.

Definition is_database_save (ev : Event) : bool :=
  match ev with DatabaseSave _ => true | _ => false end.

Definition count_events (p : Event -> bool) (s : Scraper.t) : nat :=
  length (List.filter p (Scraper.events s)).

(** ** Record validators *)

(** [addWarning(type, message, context)] *)
Definition addWarning (type : WarningType) (message : WarningMessage)
    (context : WarningContext) : M unit :=
  timestamp ← now;
  modify (Scraper.push_warning
            {| Warning.type := type; Warning.message := message;
               Warning.context := context; Warning.timestamp := timestamp |}).

(** [if (c) m] *)
Definition when (c : bool) (m : M unit) : M unit := if c then m else ret tt.

(** [validateCity(city)] *)
Definition validateCity (city : CityObject.t) : M bool :=
  let requiredFields := ["name"; "url"; "pollution"; "citizens"] in
  let missing :=
    List.filter (fun field => is_nullish (CityObject.get city field))
                requiredFields in
  if 0 <? length missing then
    addWarning InvalidCityData (MissingRequiredFields missing)
               (CityContext (CityObject.name city));;
    ret false
  else
    when (not_number_or_negative (CityObject.citizens city))
         (addWarning InvalidCityData
                     (InvalidCitizensCount (CityObject.citizens city))
                     (CityContext (CityObject.name city)));;
    ret true.

(** The warning [validateCity] queues for a record with missing fields. *)
Definition missingFieldsWarning (city : CityObject.t) (missing : list string)
    (s : Scraper.t) : Warning.t :=
  {| Warning.type := InvalidCityData;
     Warning.message := MissingRequiredFields missing;
     Warning.context := CityContext (CityObject.name city);
     Warning.timestamp := Scraper.clock s |}.

(** The warning [validateCity] queues for an invalid citizens count. *)
Definition invalidCitizensWarning (city : CityObject.t) (s : Scraper.t)
    : Warning.t :=
  {| Warning.type := InvalidCityData;
     Warning.message := InvalidCitizensCount (CityObject.citizens city);
     Warning.context := CityContext (CityObject.name city);
     Warning.timestamp := Scraper.clock s |}.

(** [validateWar(war)] *)
Definition validateWar (war : War.t) : M bool :=
  let requiredFields := ["attacker"; "defender"; "attackerUrl"; "defenderUrl"] in
  let missing :=
    List.filter (fun field => War.falsy_field war field) requiredFields in
  if 0 <? length missing then
    addWarning InvalidWarData (MissingRequiredFields missing)
               (WarContext (War.attacker war) (War.defender war));;
    ret false
  else
    when (not_number_or_negative (val_of_num (War.missiles war)))
         (addWarning InvalidWarData
                     (InvalidMissilesCount (val_of_num (War.missiles war)))
                     (WarContext (War.attacker war) (War.defender war)));;
    ret true.

(** [validateCityDetails(cityData)] *)
Definition validateCityDetails (cityData : CityData.t) : M bool :=
  let city := CityContext (VString (CityData.name cityData)) in
  if Str.falsy (CityData.name cityData) then
    addWarning InvalidCityDetails CityNameMissing NoContext;;
    ret false
  else
    when (bool_decide (size (CityData.stats cityData) = 0))
         (addWarning IncompleteCityDetails NoStatsData city);;
    when (bool_decide (length (CityData.jobLevels cityData) = 0))
         (addWarning IncompleteCityDetails NoJobLevelsData city);;
    when (bool_decide (size (CityData.resources cityData) = 0))
         (addWarning IncompleteCityDetails NoResourcesData city);;
    when (bool_decide (size (CityData.buildings cityData) = 0))
         (addWarning IncompleteCityDetails NoBuildingsData city);;
    when (match CityData.citizens cityData with
          | Some n => js_lt0 n
          | None => false
          end)
         (addWarning InvalidCityDetails
                     (InvalidCitizens (val_of_num (CityData.citizens cityData)))
                     city);;
    ret true.

(** ** Page extractors: the rows of the list pages *)

(** The [each] loop over the icons of one kind: every icon with a [span]
    next to it overwrites the value with the number read from that span. *)
Definition iconValue (spans : list (option string)) : option jsnum :=
  fold_left (fun value span =>
               match span with
               | Some text => extractNumber text
               | None => value
               end) spans None.

(** The record [scrapeCityList] builds from one row with a named link. *)
Definition cityOfRow (baseUrl : string) (row : CityRow.t)
    (cityName href : string) : City.t :=
  {| City.name := cityName;
     City.url := baseUrl +:+ href;
     City.pollution := iconValue (CityRow.pollutionSpans row);
     City.citizens := iconValue (CityRow.citizenSpans row);
     City.emailVerified := CityRow.mailIcon row;
     City.isPatron := CityRow.patronBadge row;
     City.hasContributed := CityRow.contributorBadge row |}.

(** The loop of [scrapeCityList] over the city rows, lines 240 to 297;
    [cities] is the array built so far. *)
Fixpoint extractCities (baseUrl : string) (rows : list CityRow.t)
    (cities : list City.t) : M (list City.t) :=
  match rows with
  | [] => ret cities
  | row :: rows' =>
      match CityRow.link row with
      | None => extractCities baseUrl rows' cities
      | Some (text, href) =>
          let cityName := Str.trim text in
          if Str.falsy cityName then extractCities baseUrl rows' cities
          else
            let cityData := cityOfRow baseUrl row cityName href in
            valid ← validateCity (City.object cityData);
            extractCities baseUrl rows'
              (if valid : bool then cities ++ [cityData] else cities)
      end
  end.

(** The record [scrapeWars] builds from one war row. *)
Definition warOfRow (baseUrl : string) (row : WarRow.t) : War.t :=
  {| War.attacker := Str.trim (fst (WarRow.attackerLink row));
     War.attackerUrl := baseUrl +:+ snd (WarRow.attackerLink row);
     War.defender := Str.trim (fst (WarRow.defenderLink row));
     War.defenderUrl := baseUrl +:+ snd (WarRow.defenderLink row);
     War.missiles := WarRow.missilesSpan row ≫= extractNumber |}.

(** The loop of [scrapeWars] over the war rows, lines 338 to 370. *)
Fixpoint extractWars (baseUrl : string) (rows : list WarRow.t)
    (wars : list War.t) : M (list War.t) :=
  match rows with
  | [] => ret wars
  | row :: rows' =>
      let warData := warOfRow baseUrl row in
      valid ← validateWar warData;
      extractWars baseUrl rows' (if valid : bool then wars ++ [warData] else wars)
  end.

(** ** War enrichment *)

(** [new Set(cityData.cities.map(c => c.name))] *)
Definition activeCitySet (cities : list City.t) : gset string :=
  list_to_set (City.name <$> cities).

(** The callback of [wars.map] at lines 707 to 712. *)
Definition enrichWar (activeCities : gset string) (war : War.t)
    : EnrichedWar.t :=
  {| EnrichedWar.war := war;
     EnrichedWar.attackerActive := bool_decide (War.attacker war ∈ activeCities);
     EnrichedWar.defenderActive := bool_decide (War.defender war ∈ activeCities);
     EnrichedWar.bothActive :=
       bool_decide (War.attacker war ∈ activeCities)
       && bool_decide (War.defender war ∈ activeCities) |}.

Definition enrichWars (cities : list City.t) (wars : list War.t)
    : list EnrichedWar.t :=
  let activeCities := activeCitySet cities in
  enrichWar activeCities <$> wars.

(** ** Page extractors: the buildings of a city page *)

(** [buildingName.toLowerCase().replace(/\s+/g, '_')] *)
Definition cleanName (buildingName : string) : string :=
  Str.ws_to_underscore false (Str.toLowerCase buildingName).

(** [object[key] = value] for a number [value] on an object made by
    [{}].  The key [__proto__] is the accessor that [Object.prototype]
    hands down, and its setter does nothing with a number; every other key
    becomes a property of the object itself. *)
Definition assign (key : string) (value : jsnum) (object : gmap string jsnum)
    : gmap string jsnum :=
  if bool_decide (key = "__proto__") then object else <[key := value]> object.

(** The callback of [$('h3.text-l').each], lines 551 to 574. *)
Definition buildingStep (buildings : gmap string jsnum)
    (section : BuildingSection.t) : gmap string jsnum :=
  let buildingName := Str.trim (BuildingSection.heading section) in
  if negb (Str.falsy buildingName) && (0 <? String.length buildingName) then
    match BuildingSection.greenCell section with
    | Some cellText =>
        let countText := Str.trim cellText in
        match extractNumber countText with
        | Some count => assign (cleanName buildingName) count buildings
        | None => buildings
        end
    | None => assign (cleanName buildingName) (num_of_Z 0) buildings
    end
  else buildings.

Definition extractBuildings (sections : list BuildingSection.t)
    : gmap string jsnum :=
  fold_left buildingStep sections ∅.

(** The key under which the callback stores the count of a section. *)
Definition sectionKey (section : BuildingSection.t) : string :=
  cleanName (Str.trim (BuildingSection.heading section)).

(** ** [encodeURIComponent] *)

Module Uri.

(** Letters, digits and [- _ . ! ~ * ' ( )] stay as they are. *)
Definition unreserved (c : ascii) : bool :=
  let n := Chars.code c in
  ((65 <=? n) && (n <=? 90)) || ((97 <=? n) && (n <=? 122))
  || Chars.is_digit c
  || existsb (fun a => Chars.one a c)
       ["-"; "_"; "."; "!"; "~"; "*"; "'"; "("; ")"]%char.

Definition hex_digit (n : nat) : ascii :=
  ascii_of_nat (if n <? 10 then 48 + n else 55 + n).

Definition percent (n : nat) : string :=
  String "%" (String (hex_digit (n / 16)) (String (hex_digit (n mod 16)) "")).

(** The UTF-8 bytes of a code unit below 256, percent-encoded. *)
Definition escape (c : ascii) : string :=
  let n := Chars.code c in
  if n <? 128 then percent n
  else percent (192 + n / 64) +:+ percent (128 + n mod 64).

Fixpoint encodeURIComponent (s : string) : string :=
  match s with
  | "" => ""
  | String c s' =>
      (if unreserved c then String c "" else escape c)
        +:+ encodeURIComponent s'
  end.

(** The [URIError] that [encodeURIComponent] throws on a lone surrogate. *)
Definition malformed : Error := {| message := "URI malformed" |}.

End Uri.

(** ** Promises

    What the scheduler sees of the operation it is given. *)

(** A value an operation rejects with.  The handler at line 50 reads the
    [message] of it: of [undefined] or [null] that read throws a
    [TypeError]; of any other value it gives what the property holds
    ([undefined] when there is none), or throws what its getter throws. *)
Inductive Thrown : Type :=
| ThrownUndefined
| ThrownNull
| ThrownValue (message : Result jsval).

(** [error.message] *)
Definition readMessage (error : Thrown) : Result jsval :=
  match error with
  | ThrownUndefined =>
      Throw {| message :=
        "Cannot read properties of undefined (reading 'message')" |}
  | ThrownNull =>
      Throw {| message :=
        "Cannot read properties of null (reading 'message')" |}
  | ThrownValue message => message
  end.

(** The fate of the promise of an operation; a result of [None] is
    [null]. *)
Inductive Settled (R : Type) : Type :=
| Fulfilled (result : option R)
| Rejected (error : Thrown)
| Pending.
Arguments Fulfilled {R} result.
Arguments Rejected {R} error.
Arguments Pending {R}.

(** Outcomes that tell the fate of a promise. *)
Class Settles (O R : Type) : Type := settle : O -> Settled R.
#[global] Hint Mode Settles ! - : typeclass_instances.

(** A call of the scraper's own code returns, or throws an [Error]. *)
#[global] Instance Result_settles {R} : Settles (Result (option R)) R :=
  fun o =>
    match o with
    | Ok result => Fulfilled result
    | Throw e => Rejected (ThrownValue (Ok (VString (message e))))
    end.

#[global] Instance Settled_settles {R} : Settles (Settled R) R := fun o => o.

(** The promise of an [async] function of the scraper: settled, or pending
    for ever ([None]). *)
Definition Promise (X : Type) : Type := option (Result X).

(** [Promise.all(promises)]: rejected as soon as one of the promises is,
    fulfilled once all of them are.  Of two rejections the one of the
    earlier promise counts as the first. *)
Fixpoint promiseAll {X} (promises : list (Promise X)) : Promise (list X) :=
  match promises with
  | [] => Some (Ok [])
  | promise :: promises' =>
      match promise, promiseAll promises' with
      | Some (Throw e), _ => Some (Throw e)
      | _, Some (Throw e) => Some (Throw e)
      | Some (Ok x), Some (Ok xs) => Some (Ok (x :: xs))
      | _, _ => None
      end
  end.

(** [await promise]; [None] tells that the wait never ends. *)
Definition await {X} (promise : Promise X) : M (option X) :=
  match promise with
  | Some (Ok x) => ret (Some x)
  | Some (Throw e) => throw e
  | None => ret None
  end.

(** [items.slice(i, j)] *)
Definition slice {A} (items : list A) (i j : nat) : list A :=
  take (j - i) (drop i items).

Module BatchError.
(** An entry [{item, error}] of the [errors] array of [processBatch]. *)
Record t (A : Type) : Type := { item : A; error : jsval }.
Arguments item {A} _.
Arguments error {A} _.
End BatchError.

Module BatchResult.
(** [{results, errors}] *)
Record t (A R : Type) : Type := {
  results : list R;
  errors : list (BatchError.t A)
}.
Arguments results {A R} _.
Arguments errors {A R} _.
End BatchResult.

Module RunResult.
(** What [runFullScrape] resolves to. *)
Record t : Type := {
  cities : CityList.t;
  wars : list EnrichedWar.t;
  cityDetails : list CityDetail;
  scrapedAt : nat;
  version : string;
  duration : nat;
  errors : list ErrorEntry
}.
End RunResult.

(** ** Transport, batch scheduler and orchestrator *)

Section Run.

(** The scraper object and the world it runs in. *)
Variable this : Config.t.
Variable env : Env.t.

(** [axios.get(url, ...)]: the request is recorded, and the world
    decides its outcome. *)
Definition axiosGet (url : string) : M Response :=
  fun s =>
    (Env.net env (count_events is_get s) url,
     Scraper.push_event (Get url) s).

(** [fetchWithRetry(url, options, retryCount)].  The [options] are handed
    to axios and change nothing of the control flow. *)
Equations? fetchWithRetry (url : string) (retryCount : nat) : M Response
  by wf (Config.maxRetries this - retryCount) lt :=
  fetchWithRetry url retryCount :=
    try_catch (axiosGet url)
      (fun error =>
         match decide (retryCount < Config.maxRetries this) with
         | left _ =>
             let delay := Config.retryDelay this * 2 ^ retryCount in
             sleep delay;;
             fetchWithRetry url (retryCount + 1)
         | right _ => throw error
         end).
Proof. lia. Qed.

(** [scrapeCityList()] *)
Definition scrapeCityList : M CityList.t :=
  try_catch
    (response ← fetchWithRetry (Config.baseUrl this) 0;
     let page := data response in
     cities ← extractCities (Config.baseUrl this) (Page.cityRows page) [];
     scrapedAt ← now;
     ret {| CityList.globalStats := Page.globalStats page;
            CityList.cities := cities;
            CityList.scrapedAt := scrapedAt;
            CityList.version := Config.version this |})
    (fun error =>
       timestamp ← now;
       modify (Scraper.push_error (CityListError (message error) timestamp));;
       throw error).

(** [scrapeWars()] *)
Definition scrapeWars : M (list War.t) :=
  try_catch
    (response ← fetchWithRetry (Config.baseUrl this) 0;
     extractWars (Config.baseUrl this) (Page.warRows (data response)) [])
    (fun error =>
       timestamp ← now;
       modify (Scraper.push_error (WarsError (message error) timestamp));;
       throw error).

(** [`${this.baseUrl}/city/${encodeURIComponent(cityName)}`] *)
Definition cityUrl (cityName : string) : string :=
  Config.baseUrl this +:+ "/city/" +:+ Uri.encodeURIComponent cityName.

(** [scrapeCity(cityName)].  The address is built twice, at line 389 and
    again at line 600 in the handler, after the failure is recorded: for a
    name that [encodeURIComponent] refuses both throw, and the second one
    leaves the function. *)
Definition scrapeCity (cityName : Name.t) : M CityDetail :=
  try_catch
    (match cityName with
     | Name.Malformed => throw Uri.malformed
     | Name.Text name =>
         let url := cityUrl name in
         response ← fetchWithRetry url 0;
         let page := data response in
         let buildings := extractBuildings (Page.buildingSections page) in
         scrapedAt ← now;
         let cityData :=
           {| CityData.name := name;
              CityData.url := url;
              CityData.region := Page.region page;
              CityData.year := Page.year page;
              CityData.day := Page.day page;
              CityData.season := Page.season page;
              CityData.citizens := Page.citizens page;
              CityData.stats := Page.stats page;
              CityData.jobLevels := Page.jobLevels page;
              CityData.resources := Page.resources page;
              CityData.buildings := buildings;
              CityData.sanctionedBy := Page.sanctions page;
              CityData.scrapedAt := scrapedAt |} in
         validateCityDetails cityData;;
         ret (Scraped cityData)
     end)
    (fun error =>
       timestamp ← now;
       modify (Scraper.push_error
                 (CityError cityName (message error) timestamp));;
       match cityName with
       | Name.Malformed => throw Uri.malformed
       | Name.Text name =>
           scrapedAt ← now;
           ret (Failed name (cityUrl name) (message error) scrapedAt)
       end).

(** The callback of [batch.map], lines 46 to 53, and the promise it
    gives: the operation on one item, its rejection caught and recorded
    with the [message] of what it rejected with.  When that message cannot
    be read the handler throws, and the promise of the callback is
    rejected; when the operation never settles, neither does the
    callback. *)
Definition batchItem {A O R} `{!Settles O R}
    (processFn : A -> Scraper.t -> O * Scraper.t) (item : A)
    (errors : list (BatchError.t A))
  : M (Promise (option R) * list (BatchError.t A)) :=
  fun s =>
    let '(o, s') := processFn item s in
    (Ok match settle o with
        | Fulfilled result => (Some (Ok result), errors)
        | Rejected error =>
            match readMessage error with
            | Ok message =>
                (Some (Ok None),
                 (errors ++ [{| BatchError.item := item;
                                BatchError.error := message |}])%list)
            | Throw e => (Some (Throw e), errors)
            end
        | Pending => (None, errors)
        end,
     s').

(** [batch.map(async (item) => ...)]: the promises of one window.  The
    callbacks of a window are run one after the other in the order of the
    items, each of them to its end. *)
Fixpoint batchWindow {A O R} `{!Settles O R}
    (processFn : A -> Scraper.t -> O * Scraper.t) (batch : list A)
    (errors : list (BatchError.t A))
  : M (list (Promise (option R)) * list (BatchError.t A)) :=
  match batch with
  | [] => ret ([], errors)
  | item :: batch' =>
      '(promise, errors) ← batchItem processFn item errors;
      '(promises, errors) ← batchWindow processFn batch' errors;
      ret (promise :: promises, errors)
  end.

(** [batchResults.filter(r => r !== null)] *)
Definition nonNull {R} (batchResults : list (option R)) : list R :=
  omap id batchResults.

(** The [for] loop of [processBatch] from index [i] on.  Every turn of
    the loop uses one unit of [fuel]; [None] tells that the call never
    returns: the fuel ran out before the loop ended, or the promises of a
    window never all settled.  A window with a rejected promise makes the
    call throw. *)
Fixpoint processBatchFrom {A O R} `{!Settles O R} (fuel : nat)
    (items : list A) (processFn : A -> Scraper.t -> O * Scraper.t)
    (concurrency : nat) (i : nat)
    (results : list R) (errors : list (BatchError.t A))
  : M (option (BatchResult.t A R)) :=
  match fuel with
  | 0 => ret None
  | S fuel' =>
      if i <? length items then
        let batch := slice items i (i + concurrency) in
        '(batchPromises, errors) ← batchWindow processFn batch errors;
        settled ← await (promiseAll batchPromises);
        match settled with
        | None => ret None
        | Some batchResults =>
            let results := (results ++ nonNull batchResults)%list in
            when (i + concurrency <? length items)
                 (sleep (Config.requestDelay this));;
            processBatchFrom fuel' items processFn concurrency
                             (i + concurrency) results errors
        end
      else
        ret (Some {| BatchResult.results := results;
                     BatchResult.errors := errors |})
  end.

(** [processBatch(items, processFn, concurrency)], with fuel for one turn
    of the loop for each item and one more for the test that ends it.  An
    operation of the scraper's own, of type [A -> M (option R)], is one
    whose outcomes are [Result]s. *)
Definition processBatch {A O R} `{!Settles O R} (items : list A)
    (processFn : A -> Scraper.t -> O * Scraper.t) (concurrency : nat)
  : M (option (BatchResult.t A R)) :=
  processBatchFrom (S (length items)) items processFn concurrency 0 [] [].

(** [saveToFile(data, filename)]: the write is recorded; a failed write
    is rethrown. *)
Definition saveToFile (data : FileData) (filename : string) : M unit :=
  fun s =>
    let s' := Scraper.push_event (WriteFile filename data) s in
    match Env.writeFile env (count_events is_write s) filename with
    | None => (Ok tt, s')
    | Some error => (Throw error, s')
    end.

(** The database block of [runFullScrape], lines 757 to 786.  The calls
    on the persistence collaborator are one step; its failure is caught
    and recorded. *)
Definition saveToDatabase (metadata : RunMetadata.t) : M unit :=
  when (Config.database this)
    (fun s =>
       let s' := Scraper.push_event (DatabaseSave metadata) s in
       match Env.database env (count_events is_database_save s) with
       | None => (Ok tt, s')
       | Some dbError =>
           (Ok tt, Scraper.push_error (DatabaseError (message dbError)) s')
       end).

(** The fourth phase of [runFullScrape], lines 727 to 734. *)
Definition scrapeAllCities (cities : list City.t)
  : M (option (BatchResult.t City.t CityDetail)) :=
  processBatch cities
    (fun city => detail ← scrapeCity (City.name city); ret (Some detail))
    (Config.concurrency this).

(** [runFullScrape()]; [None] tells that the batch loop never ended. *)
Definition runFullScrape : M (option RunResult.t) :=
  startTime ← now;
  modify Scraper.reset;;
  cityData ← scrapeCityList;
  saveToFile (CitiesFile cityData) "cities.json";;
  wars ← scrapeWars;
  let warsWithValidation := enrichWars (CityList.cities cityData) wars in
  saveToFile
    (WarsFile warsWithValidation
       (length (List.filter EnrichedWar.bothActive warsWithValidation)))
    "wars.json";;
  batch ← scrapeAllCities (CityList.cities cityData);
  match batch with
  | None => ret None
  | Some batch =>
      let cityDetails := BatchResult.results batch in
      let cityErrors := BatchResult.errors batch in
      endTime ← now;
      let scrapeDuration := endTime - startTime in
      s ← get_state;
      let metadata :=
        {| RunMetadata.scrapedAt := endTime;
           RunMetadata.version := Config.version this;
           RunMetadata.totalCities := length (CityList.cities cityData);
           RunMetadata.successfulScrapes := length cityDetails;
           RunMetadata.failedScrapes := length cityErrors;
           RunMetadata.scrapeDuration := scrapeDuration;
           RunMetadata.concurrency := Config.concurrency this;
           RunMetadata.errors := Scraper.errors s;
           RunMetadata.warnings := Scraper.warnings s |} in
      saveToFile (CityDetailsFile cityDetails metadata) "city_details.json";;
      saveToDatabase metadata;;
      s ← get_state;
      scrapedAt ← now;
      ret (Some {| RunResult.cities := cityData;
                   RunResult.wars := warsWithValidation;
                   RunResult.cityDetails := cityDetails;
                   RunResult.scrapedAt := scrapedAt;
                   RunResult.version := Config.version this;
                   RunResult.duration := scrapeDuration;
                   RunResult.errors := Scraper.errors s |})
  end.

End Run.

(** ** Traces and outcomes

    Notions the statements below are written with. *)

(** The events of [n] failed attempts and of the attempt that follows
    them, when the first of these attempts is made with retry count [r]. *)
Fixpoint retryTrace (url : string) (retryDelay r n : nat) : list Event :=
  match n with
  | 0 => [Get url]
  | S n' =>
      Get url :: Sleep (retryDelay * 2 ^ r)
        :: retryTrace url retryDelay (S r) n'
  end.

(** The time spent waiting between these attempts. *)
Fixpoint retryWait (retryDelay r n : nat) : nat :=
  match n with
  | 0 => 0
  | S n' => retryDelay * 2 ^ r + retryWait retryDelay (S r) n'
  end.

(** The state these attempts leave behind. *)
Definition afterAttempts (s : Scraper.t) (url : string)
    (retryDelay r n : nat) : Scraper.t :=
  {| Scraper.errors := Scraper.errors s;
     Scraper.warnings := Scraper.warnings s;
     Scraper.events := Scraper.events s ++ retryTrace url retryDelay r n;
     Scraper.clock := Scraper.clock s + retryWait retryDelay r n |}.

(** The value an outcome contributes to [batchResults]. *)
Definition resultOf {O R} `{!Settles O R} (o : O) : option R :=
  match settle o with
  | Fulfilled result => result
  | _ => None
  end.

(** The values among the outcomes of the operations of a batch. *)
Definition successes {O R} `{!Settles O R} (outcomes : list O) : list R :=
  omap resultOf outcomes.

(** The entry of [errors] that an item and its outcome give rise to. *)
Definition failure {A O R} `{!Settles O R} (item : A) (o : O)
    : option (BatchError.t A) :=
  match settle o with
  | Rejected error =>
      match readMessage error with
      | Ok message =>
          Some {| BatchError.item := item; BatchError.error := message |}
      | Throw _ => None
      end
  | _ => None
  end.

(** The entries of [errors] for items and their outcomes. *)
Fixpoint failures {A O R} `{!Settles O R} (items : list A)
    (outcomes : list O) : list (BatchError.t A) :=
  match items, outcomes with
  | item :: items', o :: outcomes' =>
      option_list (failure item o) ++ failures items' outcomes'
  | _, _ => []
  end.

(** An outcome that the callback of the scheduler turns into a result or
    an entry of [errors]: the operation settles, and when it rejects, the
    [message] of what it rejects with can be read. *)
Definition handled {R} (o : Settled R) : Prop :=
  match o with
  | Fulfilled _ => True
  | Rejected error => exists message, readMessage error = Ok message
  | Pending => False
  end.

(** The name a detail record carries. *)
Definition detailName (detail : CityDetail) : string :=
  match detail with
  | Scraped cityData => CityData.name cityData
  | Failed name _ _ _ => name
  end.


(** Every request for [url] fails. *)
Definition unreachable (env : Env.t) (url : string) : Prop :=
  ∀ n, ∃ e, Env.net env n url = Throw e.

(** The record [scrapeCity] builds from a fetched page. *)
Definition cityDataOf (this : Config.t) (cityName : string) (page : Page.t)
    (scrapedAt : nat) : CityData.t :=
  {| CityData.name := cityName;
     CityData.url := cityUrl this cityName;
     CityData.region := Page.region page;
     CityData.year := Page.year page;
     CityData.day := Page.day page;
     CityData.season := Page.season page;
     CityData.citizens := Page.citizens page;
     CityData.stats := Page.stats page;
     CityData.jobLevels := Page.jobLevels page;
     CityData.resources := Page.resources page;
     CityData.buildings := extractBuildings (Page.buildingSections page);
     CityData.sanctionedBy := Page.sanctions page;
     CityData.scrapedAt := scrapedAt |}.

(** The operation of the fourth phase on one listed city. *)
Definition scrapeListed (this : Config.t) (env : Env.t) (city : City.t)
    : M (option CityDetail) :=
  detail ← scrapeCity this env (City.name city); ret (Some detail).

(** What is known in a state [s] of the record of a city, in a batch
    started after [first] requests.  The batch asked for the page of the
    city, with the requests numbered [k] to [n] of the run, of which all
    but the last failed.  The record is what the answer to the last one
    makes it: the fields read from the page that came, or, the retries
    being used up, the failed variant with the message of the error that
    came, whose failure is in the list of errors. *)
Definition detailOf (this : Config.t) (env : Env.t) (first : nat)
    (cityName : string) (detail : CityDetail) (s : Scraper.t) : Prop :=
  let url := cityUrl this cityName in
  ∃ k n,
    first ≤ k ≤ n
    ∧ (∀ j, k ≤ j ≤ n →
         List.filter is_get (Scraper.events s) !! j = Some (Get url))
    ∧ (∀ j, k ≤ j < n → ∃ e, Env.net env j url = Throw e)
    ∧ match Env.net env n url with
      | Ok response =>
          ∃ scrapedAt,
            detail
            = Scraped (cityDataOf this cityName (data response) scrapedAt)
      | Throw e =>
          n = k + Config.maxRetries this
          ∧ ∃ scrapedAt timestamp,
              detail = Failed cityName url (message e) scrapedAt
              ∧ CityError cityName (message e) timestamp ∈ Scraper.errors s
      end.

(** ** Written numerals

    The decimal numerals and magnitude suffixes that the general statements
    on the parsers range over. *)

(** A plain decimal numeral. *)
Module Decimal.
Record t : Type := {
  negative : bool;
  integer : string;
  fraction : option string
}.

Definition digits_only (s : string) : bool := Str.forallb Chars.is_digit s.

(** At least one integer digit, and nothing but digits. *)
Definition wf (d : t) : bool :=
  negb (Str.falsy (integer d)) && digits_only (integer d)
  && match fraction d with
     | Some f => digits_only f
     | None => true
     end.

Definition body (d : t) : string :=
  integer d +:+ match fraction d with
                | Some f => String "." f
                | None => ""
                end.

(** The numeral as it is written. *)
Definition render (d : t) : string :=
  (if negative d then "-" else "") +:+ body d.

Definition fraction_digits (d : t) : string := default "" (fraction d).

(** The number it denotes, in lowest terms. *)
Definition value (d : t) : Q :=
  Qred (Qmake (Numeral.signed (negative d)
                 (Numeral.digits (integer d +:+ fraction_digits d)))
              (Z.to_pos (10 ^ Z.of_nat (String.length (fraction_digits d))))).
End Decimal.

(** The magnitude suffixes. *)
Inductive Suffix : Type := NoSuffix | Kilo | Mega | Giga.

Definition suffixText (sfx : Suffix) : string :=
  match sfx with
  | NoSuffix => ""
  | Kilo => "k"
  | Mega => "M"
  | Giga => "G"
  end.

Definition scale (sfx : Suffix) (x : jsnum) : jsnum :=
  match sfx with
  | NoSuffix => x
  | Kilo => jsmul x 1000
  | Mega => jsmul x 1000000
  | Giga => jsmul x 1000000000
  end.

(** Whether [s] begins with a character of [p]. *)
Definition starts (p : ascii -> bool) (s : string) : bool :=
  match s with
  | String c _ => p c
  | "" => false
  end.

(** The characters of a written numeral. *)
Definition numeralChar (c : ascii) : bool :=
  Chars.is_digit c || Chars.one "-" c || Chars.one "." c.


(** ** A small world

    A city list with two cities and a war between them; the page of the
    first city can be fetched, every request for the page of the second
    fails.  The statements below are tried on it. *)

Module Example.

Definition config : Config.t := constructor Options.empty.

Definition cityRow (name citizens : string) : CityRow.t :=
  {| CityRow.link := Some (name, "/city/" +:+ name);
     CityRow.mailIcon := true;
     CityRow.patronBadge := false;
     CityRow.contributorBadge := false;
     CityRow.pollutionSpans := [Some "-18,651"];
     CityRow.citizenSpans := [Some citizens] |}.

Definition noStats : GlobalStats.t :=
  {| GlobalStats.year := None; GlobalStats.day := None;
     GlobalStats.totalCities := None; GlobalStats.activeCities := None;
     GlobalStats.totalCitizens := None; GlobalStats.totalPollution := None;
     GlobalStats.dailyPollution := None |}.

Definition page : Page.t :=
  {| Page.globalStats := noStats;
     Page.cityRows := [cityRow "A" "1,204"; cityRow "B" "87"];
     Page.warRows :=
       [{| WarRow.attackerLink := ("A", "/city/A");
           WarRow.defenderLink := ("C", "/city/C");
           WarRow.missilesSpan := Some "5" |}];
     Page.region := Some "North";
     Page.year := Some (num_of_Z 12);
     Page.day := Some (num_of_Z 3);
     Page.season := Some "Winter";
     Page.citizens := Some (num_of_Z 1204);
     Page.stats := {["energy" := Range (Some (num_of_Z 0))
                                       (Some (num_of_Z 300370))]};
     Page.jobLevels := [];
     Page.sanctions := [];
     Page.resources := ∅;
     Page.buildingSections :=
       [{| BuildingSection.heading := "Farm";
           BuildingSection.greenCell := Some "12" |};
        {| BuildingSection.heading := "Power Plant";
           BuildingSection.greenCell := None |}] |}.

Definition refused : Error := {| message := "connect ECONNREFUSED" |}.

Definition env : Env.t :=
  {| Env.net := fun _ url =>
       if bool_decide (url = "https://fragile.city/city/B")
       then Throw refused else Ok {| data := page |};
     Env.writeFile := fun _ _ => None;
     Env.database := fun _ => None |}.


(** An operation given to the scheduler from outside: it rejects with
    an [Error] for the item ["b"] and with a bare string, which has no
    [message], for the item ["d"]. *)
Definition probe (item : string) (s : Scraper.t) : Settled nat * Scraper.t :=
  (if bool_decide (item = "b")
   then Rejected (ThrownValue (Ok (VString "boom")))
   else if bool_decide (item = "d")
   then Rejected (ThrownValue (Ok VUndefined))
   else Fulfilled (Some (String.length item)),
   s).

End Example.

(** ** Further notions

    Notions for the statements on the code around the parsers: the rows a
    list page offers, and operations that leave no trace. *)

(** The city a row of the list page offers, when the row has a city link
    with a name in it. *)
Definition candidateOfRow (baseUrl : string) (row : CityRow.t)
    : option City.t :=
  match CityRow.link row with
  | Some (text, href) =>
      if Str.falsy (Str.trim text) then None
      else Some (cityOfRow baseUrl row (Str.trim text) href)
  | None => None
  end.

(** A city with both of its numbers read. *)
Definition completeCity (city : City.t) : bool :=
  bool_decide (is_Some (City.pollution city))
  && bool_decide (is_Some (City.citizens city)).

(** A war with its four texts nonempty. *)
Definition completeWar (war : War.t) : bool :=
  negb (Str.falsy (War.attacker war)) && negb (Str.falsy (War.defender war))
  && negb (Str.falsy (War.attackerUrl war))
  && negb (Str.falsy (War.defenderUrl war)).



(** The index page is served at every request. *)
Definition served (env : Env.t) (url : string) : Prop :=
  forall n, exists response, Env.net env n url = Ok response.

(** No write of a file fails. *)
Definition writable (env : Env.t) : Prop :=
  forall n filename, Env.writeFile env n filename = None.

(** The warning [validateWar] queues for a war with empty fields. *)
Definition missingWarFieldsWarning (war : War.t) (missing : list string)
    (s : Scraper.t) : Warning.t :=
  {| Warning.type := InvalidWarData;
     Warning.message := MissingRequiredFields missing;
     Warning.context := WarContext (War.attacker war) (War.defender war);
     Warning.timestamp := Scraper.clock s |}.

(** The warning [validateWar] queues for an invalid missile count. *)
Definition invalidMissilesWarning (war : War.t) (s : Scraper.t) : Warning.t :=
  {| Warning.type := InvalidWarData;
     Warning.message := InvalidMissilesCount (val_of_num (War.missiles war));
     Warning.context := WarContext (War.attacker war) (War.defender war);
     Warning.timestamp := Scraper.clock s |}.

(** The required fields of a war that are empty, in the order in which
    the validator lists them. *)
Definition emptyWarFields (war : War.t) : list string :=
  List.filter (fun field => War.falsy_field war field)
              ["attacker"; "defender"; "attackerUrl"; "defenderUrl"].

(** Two more worlds: one in which no request is answered, and the world of
    [Example] with a database that refuses the save. *)
Module Outage.

Definition offline : Env.t :=
  {| Env.net := fun _ _ => Throw Example.refused;
     Env.writeFile := fun _ _ => None;
     Env.database := fun _ => None |}.

Definition locked : Error := {| message := "SQLITE_BUSY" |}.

Definition noDatabase : Env.t :=
  {| Env.net := Env.net Example.env;
     Env.writeFile := fun _ _ => None;
     Env.database := fun _ => Some locked |}.


(** The world of [Example] with a disk that refuses every write. *)
Definition diskFull : Error := {| message := "ENOSPC" |}.

Definition readOnly : Env.t :=
  {| Env.net := Env.net Example.env;
     Env.writeFile := fun _ _ => Some diskFull;
     Env.database := fun _ => None |}.

End Outage.

(** Reading a percent-encoding back, as far as its first character:
    what the statement that [encodeURIComponent] loses nothing is proved
    with. *)
Module Percent.

Definition hex_value (c : ascii) : nat :=
  let n := Chars.code c in
  if n <? 58 then n - 48 else n - 55.

Definition byte (high low : ascii) : nat := 16 * hex_value high + hex_value low.

(** The first character that was encoded, and the encoding of the rest. *)
Definition decode_first (s : string) : option (ascii * string) :=
  match s with
  | String "%" (String high (String low rest)) =>
      let b := byte high low in
      if b <? 128 then Some (ascii_of_nat b, rest)
      else
        match rest with
        | String "%" (String high' (String low' rest')) =>
            Some (ascii_of_nat (64 * (b - 192) + (byte high' low' - 128)),
                  rest')
        | _ => None
        end
  | String c rest => Some (c, rest)
  | "" => None
  end.

(** The characters an encoding is made of. *)
Definition safe (c : ascii) : bool := Uri.unreserved c || Chars.one "%" c.

End Percent.

(** A numeral without its sign. *)
Definition unsignedDecimal (d : Decimal.t) : Decimal.t :=
  {| Decimal.negative := false;
     Decimal.integer := Decimal.integer d;
     Decimal.fraction := Decimal.fraction d |}.

(** * The database of runs

    [database.js] hands one [INSERT] statement for every record to the
    client of the database.  A statement is modelled by its table and the
    values bound to its place holders, the client by the rows it holds and
    the number of statements it was handed. *)

Module Sql.

(** A value bound to a [?]; the two kinds of [JSON.stringify(...)] text
    are kept as the object that is serialised. *)
Inductive value : Type :=
| Null
| Number (x : jsnum)
| Text (s : string)
| StatsJson (stats : gmap string statValue)
| BuildingsJson (buildings : gmap string jsnum).

Inductive table : Type :=
| GlobalStatsTable
| CitiesTable
| CityDetailsTable
| WarsTable.

(** [INSERT INTO table (...) VALUES (?, ..., ?)] with its [args]. *)
Record insert : Type := { into : table; args : list value }.

End Sql.

Module Client.
Record t : Type := {
  rows : list Sql.insert;
  executed : nat
}.
End Client.

(** [x || 0] for a number or [null]: [null], [NaN] and [0] are falsy. *)
Definition or_zero (x : option jsnum) : jsnum :=
  match x with
  | Some (Num q) => if Qeq_bool q 0 then num_of_Z 0 else Num q
  | Some NaN => num_of_Z 0
  | Some (Infinity negative) => Infinity negative
  | None => num_of_Z 0
  end.

(** [s || null] for a string or [undefined]. *)
Definition or_null (s : option string) : Sql.value :=
  match s with
  | Some text => if Str.falsy text then Sql.Null else Sql.Text text
  | None => Sql.Null
  end.

(** [b ? 1 : 0] *)
Definition flag (b : bool) : Sql.value :=
  Sql.Number (num_of_Z (if b then 1 else 0)).

(** The properties of a detail record that [saveCityDetails] reads; the
    failed variant has none of them but the name. *)
Module Detail.

Definition region (city : CityDetail) : option string :=
  match city with Scraped c => CityData.region c | Failed _ _ _ _ => None end.

Definition year (city : CityDetail) : option jsnum :=
  match city with Scraped c => CityData.year c | Failed _ _ _ _ => None end.

Definition day (city : CityDetail) : option jsnum :=
  match city with Scraped c => CityData.day c | Failed _ _ _ _ => None end.

Definition season (city : CityDetail) : option string :=
  match city with Scraped c => CityData.season c | Failed _ _ _ _ => None end.

Definition citizens (city : CityDetail) : option jsnum :=
  match city with Scraped c => CityData.citizens c | Failed _ _ _ _ => None end.

(** [city.stats || {}], and the same for the other two objects. *)
Definition stats (city : CityDetail) : gmap string statValue :=
  match city with Scraped c => CityData.stats c | Failed _ _ _ _ => ∅ end.

Definition resources (city : CityDetail) : gmap string statValue :=
  match city with Scraped c => CityData.resources c | Failed _ _ _ _ => ∅ end.

Definition buildings (city : CityDetail) : gmap string jsnum :=
  match city with Scraped c => CityData.buildings c | Failed _ _ _ _ => ∅ end.

End Detail.

Section Database.

(** [fails n] tells whether the statement handed to the client after [n]
    earlier ones fails, and with which error. *)
Variable fails : nat -> option Error.

(** [await this.client.execute({sql, args})] *)
Definition execute (statement : Sql.insert)
    : Client.t -> Result unit * Client.t :=
  fun db =>
    match fails (Client.executed db) with
    | Some error =>
        (Throw error,
         {| Client.rows := Client.rows db;
            Client.executed := S (Client.executed db) |})
    | None =>
        (Ok tt,
         {| Client.rows := Client.rows db ++ [statement];
            Client.executed := S (Client.executed db) |})
    end.

(** [for (const item of items) { await this.client.execute(...) }] *)
Fixpoint executeEach {A} (statement : A -> Sql.insert) (items : list A)
    : Client.t -> Result unit * Client.t :=
  fun db =>
    match items with
    | [] => (Ok tt, db)
    | item :: items' =>
        match execute (statement item) db with
        | (Ok _, db') => executeEach statement items' db'
        | (Throw error, db') => (Throw error, db')
        end
    end.

(** The statement of [saveGlobalStats(runId, globalStats)]. *)
Definition globalStatsInsert (runId : Sql.value) (globalStats : GlobalStats.t)
    : Sql.insert :=
  {| Sql.into := Sql.GlobalStatsTable;
     Sql.args :=
       [runId;
        Sql.Number (or_zero (GlobalStats.year globalStats));
        Sql.Number (or_zero (GlobalStats.day globalStats));
        Sql.Number (or_zero (GlobalStats.totalCities globalStats));
        Sql.Number (or_zero (GlobalStats.activeCities globalStats));
        Sql.Number (or_zero (GlobalStats.totalCitizens globalStats));
        Sql.Number (or_zero (GlobalStats.totalPollution globalStats));
        Sql.Number (or_zero (GlobalStats.dailyPollution globalStats))] |}.

Definition saveGlobalStats (runId : Sql.value) (globalStats : GlobalStats.t)
    : Client.t -> Result unit * Client.t :=
  execute (globalStatsInsert runId globalStats).

(** The statement of [saveCities] for one city. *)
Definition cityInsert (runId : Sql.value) (city : City.t) : Sql.insert :=
  {| Sql.into := Sql.CitiesTable;
     Sql.args :=
       [runId;
        Sql.Text (City.name city);
        Sql.Text (City.url city);
        Sql.Number (or_zero (City.pollution city));
        Sql.Number (or_zero (City.citizens city));
        flag (City.emailVerified city);
        flag (City.isPatron city);
        flag (City.hasContributed city)] |}.

(** [saveCities(runId, cities)] *)
Definition saveCities (runId : Sql.value) (cities : list City.t)
    : Client.t -> Result unit * Client.t :=
  executeEach (cityInsert runId) cities.

(** The statement of [saveCityDetails] for one record. *)
Definition cityDetailsInsert (runId : Sql.value) (city : CityDetail)
    : Sql.insert :=
  {| Sql.into := Sql.CityDetailsTable;
     Sql.args :=
       [runId;
        Sql.Text (detailName city);
        or_null (Detail.region city);
        Sql.Number (or_zero (Detail.year city));
        Sql.Number (or_zero (Detail.day city));
        or_null (Detail.season city);
        Sql.Number (or_zero (Detail.citizens city));
        Sql.StatsJson (Detail.stats city);
        Sql.StatsJson (Detail.resources city);
        Sql.BuildingsJson (Detail.buildings city)] |}.

(** [saveCityDetails(runId, cityDetails)] *)
Definition saveCityDetails (runId : Sql.value) (cityDetails : list CityDetail)
    : Client.t -> Result unit * Client.t :=
  executeEach (cityDetailsInsert runId) cityDetails.

(** The statement of [saveWars] for one war. *)
Definition warInsert (runId : Sql.value) (war : EnrichedWar.t) : Sql.insert :=
  {| Sql.into := Sql.WarsTable;
     Sql.args :=
       [runId;
        Sql.Text (War.attacker (EnrichedWar.war war));
        Sql.Text (War.defender (EnrichedWar.war war));
        or_null (Some (War.attackerUrl (EnrichedWar.war war)));
        or_null (Some (War.defenderUrl (EnrichedWar.war war)));
        Sql.Number (or_zero (War.missiles (EnrichedWar.war war)));
        flag (EnrichedWar.attackerActive war);
        flag (EnrichedWar.defenderActive war);
        flag (EnrichedWar.bothActive war)] |}.

(** [saveWars(runId, wars)] *)
Definition saveWars (runId : Sql.value) (wars : list EnrichedWar.t)
    : Client.t -> Result unit * Client.t :=
  executeEach (warInsert runId) wars.

End Database.

(** A value that is not the number [NaN]. *)
Definition storable (v : Sql.value) : bool :=
  match v with
  | Sql.Number NaN => false
  | _ => true
  end.

(** A record of a city with nothing in it but its name. *)
Definition blankCity (name : string) : CityData.t :=
  {| CityData.name := name; CityData.url := "";
     CityData.region := None; CityData.year := None; CityData.day := None;
     CityData.season := None; CityData.citizens := None;
     CityData.stats := ∅; CityData.jobLevels := [];
     CityData.resources := ∅; CityData.buildings := ∅;
     CityData.sanctionedBy := []; CityData.scrapedAt := 0 |}.

(** A client that refuses its third statement. *)
Definition failsThird (n : nat) : option Error :=
  if n =? 2 then Some Outage.locked else None.

(** * Properties *)

(** ** Strings and the matcher *)

Lemma existsb_rev_app p s1 s2 :
  Str.existsb p (String.rev_app s1 s2) = Str.existsb p s1 || Str.existsb p s2.
Proof.
  revert s2. induction s1 as [|c s1 IH]; intros s2; simpl; [done|].
  rewrite IH. simpl. destruct (p c), (Str.existsb p s1); done.
Qed.

Lemma existsb_rev p s : Str.existsb p (String.rev s) = Str.existsb p s.
Proof.
  unfold String.rev. rewrite existsb_rev_app. simpl. apply orb_false_r.
Qed.

Lemma existsb_drop_while p q s :
  Str.existsb p s = false → Str.existsb p (Str.drop_while q s) = false.
Proof.
  induction s as [|c s IH]; simpl; [done|].
  intros [Hc Hs]%orb_false_elim.
  destruct (q c); [by apply IH|]. simpl. by rewrite Hc, Hs.
Qed.

(** Trimming brings in no character. *)
Lemma existsb_trim p s :
  Str.existsb p s = false → Str.existsb p (Str.trim s) = false.
Proof.
  intros H. unfold Str.trim. rewrite existsb_rev.
  apply existsb_drop_while. rewrite existsb_rev.
  by apply existsb_drop_while.
Qed.

Lemma plus_rests_none p s : Str.existsb p s = false → plus_rests p s = [].
Proof.
  destruct s as [|c s]; simpl; [done|].
  intros [-> _]%orb_false_elim. done.
Qed.

(** The two signed patterns find nothing in a text without a character
    of their class. *)
Lemma exec_here_integer_none s :
  Str.existsb Chars.digit_comma s = false → exec_here re_integer s = None.
Proof.
  intros Hs. unfold exec_here, re_integer. destruct s as [|c s]; [done|].
  simpl in Hs. apply orb_false_elim in Hs as [Hc Hs].
  simpl. destruct (Chars.one "-" c); simpl; rewrite Hc;
    try rewrite (plus_rests_none _ s Hs); done.
Qed.

Lemma search_integer_none s :
  Str.existsb Chars.digit_comma s = false → search re_integer s = None.
Proof.
  induction s as [|c s IH]; intros Hs; [done|].
  cbn [search]. rewrite (exec_here_integer_none _ Hs).
  simpl in Hs. apply orb_false_elim in Hs as [_ Hs]. by apply IH.
Qed.

Lemma exec_here_magnitude_none s :
  Str.existsb Chars.digit_comma_dot s = false → exec_here re_magnitude s = None.
Proof.
  intros Hs. unfold exec_here, re_magnitude. destruct s as [|c s]; [done|].
  simpl in Hs. apply orb_false_elim in Hs as [Hc Hs].
  simpl. destruct (Chars.one "-" c); simpl; rewrite Hc;
    try rewrite (plus_rests_none _ s Hs); done.
Qed.

Lemma search_magnitude_none s :
  Str.existsb Chars.digit_comma_dot s = false → search re_magnitude s = None.
Proof.
  induction s as [|c s IH]; intros Hs; [done|].
  cbn [search]. rewrite (exec_here_magnitude_none _ Hs).
  simpl in Hs. apply orb_false_elim in Hs as [_ Hs]. by apply IH.
Qed.

Lemma plus_rests_some p c s : p c = true → plus_rests p (String c s) ≠ [].
Proof. simpl. intros ->. destruct (plus_rests p s); done. Qed.

Lemma head_fmap_is_Some {A B} (f : A → B) (l : list A) :
  l ≠ [] → is_Some (head (f <$> l)).
Proof. destruct l; [done|]. simpl. eauto. Qed.

Lemma exec_here_integer_some c s :
  Chars.digit_comma c = true → is_Some (exec_here re_integer (String c s)).
Proof.
  intros Hc. unfold exec_here, re_integer.
  apply fmap_is_Some, head_fmap_is_Some.
  cbn [run]. rewrite flat_map_app. cbn [flat_map fst snd].
  pose proof (plus_rests_some _ c s Hc) as Hne.
  destruct (plus_rests Chars.digit_comma (String c s)); [done|].
  intros [_ H]%app_eq_nil. done.
Qed.

Lemma search_integer_some s :
  Str.existsb Chars.digit_comma s = true → is_Some (search re_integer s).
Proof.
  induction s as [|c s IH]; intros Hs; [done|].
  cbn [search]. destruct (exec_here re_integer (String c s)) eqn:He; [eauto|].
  simpl in Hs. destruct (Chars.digit_comma c) eqn:Hc.
  - pose proof (exec_here_integer_some c s Hc) as [? ?]. congruence.
  - by apply IH.
Qed.

Lemma exec_here_magnitude_some c s :
  Chars.digit_comma_dot c = true → is_Some (exec_here re_magnitude (String c s)).
Proof.
  intros Hc. unfold exec_here, re_magnitude.
  apply fmap_is_Some.
  cbn [run]. rewrite flat_map_app. cbn [flat_map fst snd].
  pose proof (plus_rests_some _ c s Hc) as Hne.
  rewrite fmap_app.
  destruct (plus_rests Chars.digit_comma_dot (String c s)) as [|r rs]; [done|].
  rewrite app_nil_r. cbn [fmap list_fmap].
  match goal with |- is_Some (head (flat_map ?f (?l ++ ?x :: ?l'))) =>
    generalize l; intros l0 end.
  rewrite flat_map_app. cbn [flat_map fst snd].
  match goal with |- is_Some (head (?a ++ (?b ++ [?y]) ++ ?d)) =>
    destruct a; [destruct b|]; simpl; eauto end.
Qed.

Lemma search_magnitude_some s :
  Str.existsb Chars.digit_comma_dot s = true → is_Some (search re_magnitude s).
Proof.
  induction s as [|c s IH]; intros Hs; [done|].
  cbn [search]. destruct (exec_here re_magnitude (String c s)) eqn:He; [eauto|].
  simpl in Hs. destruct (Chars.digit_comma_dot c) eqn:Hc.
  - pose proof (exec_here_magnitude_some c s Hc) as [? ?]. congruence.
  - by apply IH.
Qed.

Lemma existsb_drop_while_keep p q s :
  (∀ c, q c = true → p c = false) →
  Str.existsb p (Str.drop_while q s) = Str.existsb p s.
Proof.
  intros Hpq. induction s as [|c s IH]; simpl; [done|].
  destruct (q c) eqn:Hq; [|done]. by rewrite (Hpq c Hq).
Qed.

Lemma ws_not_numeric c : Chars.is_ws c = true → Chars.digit_comma_dot c = false.
Proof. destruct c as [[] [] [] [] [] [] [] []]; vm_compute; congruence. Qed.

(** Trimming keeps every digit, comma and period. *)
Lemma existsb_trim_numeric s :
  Str.existsb Chars.digit_comma_dot (Str.trim s)
  = Str.existsb Chars.digit_comma_dot s.
Proof.
  unfold Str.trim.
  rewrite existsb_rev, existsb_drop_while_keep by apply ws_not_numeric.
  rewrite existsb_rev. apply existsb_drop_while_keep, ws_not_numeric.
Qed.

(** ** Rounding *)

Lemma Qred_integer z : Qred (inject_Z z) = inject_Z z.
Proof. apply Qcanon.Qred_identity. simpl. apply Z.gcd_1_r. Qed.

Lemma Qred_scaled z k :
  (0 < k)%Z → Qred (Qmake (z * k) (Z.to_pos k)) = inject_Z z.
Proof.
  intros Hk. rewrite <- (Qred_integer z). apply Qred_complete.
  unfold Qeq, inject_Z. simpl. rewrite Z2Pos.id by done. lia.
Qed.

Lemma nearest_whole n : Double.nearest n 1 = n.
Proof.
  unfold Double.nearest. rewrite Z.mod_1_r, Z.div_1_r. done.
Qed.

(** An integer is rounded to an integer, or to an infinity. *)
Lemma round_positive_integer z v :
  (0 < z)%Z → Double.round_positive z 1 = Some v → ∃ z', v = inject_Z z'.
Proof.
  intros Hz. unfold Double.round_positive.
  generalize (Double.exponent z 1). intros e.
  unfold Double.shift. destruct (0 <=? e)%Z eqn:He.
  - apply Z.leb_le in He. rewrite andb_true_l.
    destruct (2 ^ 1024 <=? _)%Z; [done|]. intros [= <-].
    rewrite Z.max_l, Z.max_r by lia. simpl Z.pow.
    eexists. apply (Qred_integer _).
  - apply Z.leb_gt in He. rewrite andb_false_l. intros [= <-].
    rewrite nearest_whole, Z.max_r, Z.max_l by lia.
    rewrite Z.pow_0_r, Z.mul_1_r. exists z.
    apply Qred_scaled. apply Z.pow_pos_nonneg; lia.
Qed.

Lemma round_integer z :
  (∃ negative, Double.round (inject_Z z) = Infinity negative)
  ∨ ∃ z', Double.round (inject_Z z) = num_of_Z z'.
Proof.
  unfold Double.round, inject_Z. cbn [Qnum Qden]. destruct z as [|a|a].
  - right. by exists 0%Z.
  - destruct (Double.round_positive (Z.pos a) 1) as [v|] eqn:Hv;
      [|left; by eexists].
    apply round_positive_integer in Hv as [z' ->]; [|done].
    right. by exists z'.
  - destruct (Double.round_positive (Z.pos a) 1) as [v|] eqn:Hv;
      [|left; by eexists].
    apply round_positive_integer in Hv as [z' ->]; [|done].
    right. by exists (- z')%Z.
Qed.

(** Up to [2 ^ 53] every integer is a double. *)
Lemma round_positive_exact z :
  (0 < z <= 2 ^ 53)%Z → Double.round_positive z 1 = Some (inject_Z z).
Proof.
  intros [Hz Hb]. destruct (decide (z = 2 ^ 53)%Z) as [->|Hne];
    [by vm_compute|].
  assert (Z.log2 z < 53)%Z as Hlog by (apply Z.log2_lt_pow2; lia).
  pose proof (Z.log2_nonneg z) as Hlog0.
  assert (Double.exponent z 1 = Z.log2 z - 52)%Z as He.
  { unfold Double.exponent. change (Z.log2 1) with 0%Z.
    unfold Double.shift. replace (0 <=? Z.log2 z - 0 - 53)%Z with false
      by (symmetry; apply Z.leb_gt; lia).
    replace (2 ^ 53 * 1 <=? z * 2 ^ (- (Z.log2 z - 0 - 53)))%Z with true.
    - lia.
    - symmetry. apply Z.leb_le.
      replace (- (Z.log2 z - 0 - 53))%Z with (53 - Z.log2 z)%Z by lia.
      pose proof (Z.log2_spec z Hz) as [Hlo _].
      replace (2 ^ 53 * 1)%Z with (2 ^ Z.log2 z * 2 ^ (53 - Z.log2 z))%Z.
      + apply Z.mul_le_mono_nonneg_r; [|done].
        apply Z.pow_nonneg. lia.
      + rewrite <- Z.pow_add_r by lia. rewrite Z.mul_1_r. f_equal. lia. }
  unfold Double.round_positive. rewrite He. unfold Double.shift.
  destruct (0 <=? Z.log2 z - 52)%Z eqn:Hs.
  - apply Z.leb_le in Hs. replace (Z.log2 z - 52)%Z with 0%Z by lia.
    change (2 ^ 0)%Z with 1%Z. rewrite !Z.mul_1_r, nearest_whole.
    rewrite andb_true_l. destruct (2 ^ 1024 <=? z)%Z eqn:Hbig.
    + apply Z.leb_le in Hbig.
      assert (2 ^ 53 < 2 ^ 1024)%Z by (apply Z.pow_lt_mono_r; lia). lia.
    + f_equal. apply Qred_integer.
  - apply Z.leb_gt in Hs. rewrite andb_false_l, nearest_whole.
    rewrite Z.max_r, Z.max_l by lia. rewrite Z.pow_0_r, Z.mul_1_r.
    f_equal. apply Qred_scaled. apply Z.pow_pos_nonneg; lia.
Qed.

Lemma round_exact z :
  (Z.abs z <= 2 ^ 53)%Z → Double.round (inject_Z z) = num_of_Z z.
Proof.
  intros Hz. unfold Double.round, inject_Z, num_of_Z. cbn [Qnum Qden].
  destruct z as [|a|a]; [done| |].
  - rewrite round_positive_exact by lia. done.
  - rewrite round_positive_exact by lia. done.
Qed.

(** [parseInt] yields an integer, an infinity or [NaN], never a
    fraction. *)
Lemma parseInt_integer_or_NaN s :
  parseInt s = NaN
  ∨ (∃ negative, parseInt s = Infinity negative)
  ∨ ∃ z, parseInt s = num_of_Z z.
Proof.
  unfold parseInt.
  destruct (Numeral.sign _) as [neg s1], (Str.span _ s1) as [ds ?].
  destruct (Str.falsy ds); [by left|]. right. apply round_integer.
Qed.

(** [extractNumber] is [null] exactly on the texts without a digit or a
    comma. *)
Lemma extractNumber_null_iff text :
  extractNumber text = None ↔ Str.existsb Chars.digit_comma text = false.
Proof.
  unfold extractNumber. split.
  - destruct text as [|c s]; [done|]. cbn [Str.falsy].
    destruct (Str.existsb _ _) eqn:Hs; [|done].
    destruct (search_integer_some _ Hs) as [m ->]. done.
  - intros Hs. rewrite (search_integer_none _ Hs). by destruct (Str.falsy text).
Qed.

(** What [extractNumber] returns besides [null] is an integer, an
    infinity or [NaN]. *)
Lemma extractNumber_integer_or_NaN text v :
  extractNumber text = Some v →
  v = NaN ∨ (∃ negative, v = Infinity negative) ∨ ∃ z, v = num_of_Z z.
Proof.
  unfold extractNumber. destruct (Str.falsy text); [done|].
  destruct (search re_integer text); [|done].
  intros [= <-]. apply parseInt_integer_or_NaN.
Qed.

(** [parseStatNumber] is [null] exactly on the texts without a digit, a
    comma or a period. *)
Lemma parseStatNumber_null_iff text :
  parseStatNumber text = None
  ↔ Str.existsb Chars.digit_comma_dot text = false.
Proof.
  unfold parseStatNumber. split.
  - destruct text as [|c s]; [done|]. cbn [Str.falsy].
    destruct (Str.existsb _ _) eqn:Hs; [|done].
    rewrite <- existsb_trim_numeric in Hs.
    destruct (search_magnitude_some _ Hs) as [m ->].
    repeat case_bool_decide; done.
  - intros Hs. destruct (Str.falsy text); [done|].
    rewrite search_magnitude_none; [done|]. by rewrite existsb_trim_numeric.
Qed.

Lemma app_cons_str c s1 s2 : String c s1 +:+ s2 = String c (s1 +:+ s2).
Proof. reflexivity. Qed.

Lemma app_nil_l_str s : "" +:+ s = s.
Proof. reflexivity. Qed.

Lemma app_nil_r_str s : s +:+ "" = s.
Proof.
  induction s as [|c s IH]; [done|]. by rewrite app_cons_str, IH.
Qed.

Lemma app_assoc_str s1 s2 s3 : (s1 +:+ s2) +:+ s3 = s1 +:+ (s2 +:+ s3).
Proof.
  induction s1 as [|c s1 IH]; [done|]. by rewrite !app_cons_str, IH.
Qed.

Lemma length_app_str s1 s2 :
  String.length (s1 +:+ s2) = String.length s1 + String.length s2.
Proof.
  induction s1 as [|c s1 IH]; [done|]. rewrite app_cons_str. simpl.
  by rewrite IH.
Qed.

Lemma take_app_str s1 s2 : Str.take (String.length s1) (s1 +:+ s2) = s1.
Proof.
  induction s1 as [|c s1 IH]; [by destruct s2|].
  rewrite app_cons_str. simpl. by rewrite IH.
Qed.

Lemma consumed_app s1 s2 : consumed (s1 +:+ s2) s2 = s1.
Proof.
  unfold consumed. rewrite length_app_str.
  replace (String.length s1 + String.length s2 - String.length s2)
    with (String.length s1) by lia.
  apply take_app_str.
Qed.

(** The longest run comes first. *)
Lemma plus_rests_app p run rest :
  Str.forallb p run = true → Str.falsy run = false → starts p rest = false →
  ∃ others, plus_rests p (run +:+ rest) = rest :: others.
Proof.
  intros Hrun Hne Hrest. induction run as [|c run IH]; [done|].
  simpl in Hrun. apply andb_prop in Hrun as [Hc Hrun].
  rewrite app_cons_str. simpl. rewrite Hc. destruct run as [|c' run].
  - rewrite app_nil_l_str.
    assert (plus_rests p rest = []) as ->; [|by exists []].
    destruct rest; [done|]. simpl in Hrest |- *. by rewrite Hrest.
  - destruct (IH Hrun eq_refl) as [others ->]. by eexists.
Qed.

(** The magnitude pattern on a run of its class: the whole run is the
    first group, and a suffix letter right after it the second. *)
Lemma exec_here_magnitude_run (neg : bool) token (sfx : Suffix) :
  Str.forallb Chars.digit_comma_dot token = true → Str.falsy token = false →
  ∃ m,
    exec_here re_magnitude
      ((if neg then "-" else "") +:+ token +:+ suffixText sfx) = Some m
    ∧ m !! 1 = Some ((if neg then "-" else "") +:+ token)
    ∧ m !! 2 = match sfx with
               | NoSuffix => None
               | _ => Some (suffixText sfx)
               end.
Proof.
  intros Hrun Hne.
  assert (starts Chars.digit_comma_dot (suffixText sfx) = false) as Hsfx
    by by destruct sfx.
  destruct (plus_rests_app _ token (suffixText sfx) Hrun Hne Hsfx)
    as [others Hrests].
  unfold exec_here, re_magnitude. cbn [run].
  destruct neg.
  - rewrite app_cons_str, app_nil_l_str. cbn [run flat_map app fst snd].
    change (Chars.one "-" "-") with true. cbn iota. cbn [app flat_map fst snd].
    rewrite Hrests. cbn [fmap list_fmap app flat_map fst snd].
    pose proof (consumed_app (String "-" token) (suffixText sfx)) as Hcons.
    rewrite app_cons_str in Hcons. rewrite Hcons.
    destruct sfx; simpl; (eexists; split; [reflexivity|]);
      rewrite app_cons_str, app_nil_l_str;
      split; by simplify_map_eq.
  - rewrite app_nil_l_str.
    destruct token as [|c token]; [done|].
    assert (Chars.one "-" c = false) as Hminus.
    { simpl in Hrun. apply andb_prop in Hrun as [Hc _].
      destruct (Chars.one "-" c) eqn:Hm; [|done].
      apply bool_decide_eq_true in Hm as ->. done. }
    pose proof (consumed_app (String c token) (suffixText sfx)) as Hcons.
    rewrite app_cons_str in Hrests, Hcons |- *.
    cbn [run flat_map app fst snd]. rewrite Hminus.
    cbn [app flat_map fst snd]. rewrite Hrests.
    cbn [fmap list_fmap app flat_map fst snd]. rewrite Hcons.
    destruct sfx; simpl; (eexists; split; [reflexivity|]);
      split; by simplify_map_eq.
Qed.

Lemma search_here r s m : exec_here r s = Some m → search r s = Some m.
Proof. intros H. destruct s; simpl; by rewrite H. Qed.

Lemma rev_app_rev_app s1 s2 s3 :
  String.rev_app (String.rev_app s1 s2) s3 = String.rev_app s2 (s1 +:+ s3).
Proof.
  revert s2. induction s1 as [|c s1 IH]; intros s2; [done|].
  simpl. by rewrite IH.
Qed.

Lemma rev_involutive_str s : String.rev (String.rev s) = s.
Proof.
  unfold String.rev. rewrite rev_app_rev_app. simpl. apply app_nil_r_str.
Qed.

Lemma drop_while_none p s : Str.existsb p s = false → Str.drop_while p s = s.
Proof.
  destruct s as [|c s]; [done|]. simpl.
  by intros [-> _]%orb_false_elim.
Qed.

(** A text without white space is its own trimming. *)
Lemma trim_no_ws s : Str.existsb Chars.is_ws s = false → Str.trim s = s.
Proof.
  intros H. unfold Str.trim. rewrite (drop_while_none _ s H).
  rewrite drop_while_none by by rewrite existsb_rev.
  apply rev_involutive_str.
Qed.

Lemma existsb_app_str p s1 s2 :
  Str.existsb p (s1 +:+ s2) = Str.existsb p s1 || Str.existsb p s2.
Proof.
  induction s1 as [|c s1 IH]; [done|].
  rewrite app_cons_str. simpl. by rewrite IH, orb_assoc.
Qed.

Lemma forallb_app_str p s1 s2 :
  Str.forallb p (s1 +:+ s2) = Str.forallb p s1 && Str.forallb p s2.
Proof.
  induction s1 as [|c s1 IH]; [done|].
  rewrite app_cons_str. simpl. by rewrite IH, andb_assoc.
Qed.

Lemma forallb_impl_str (p q : ascii → bool) s :
  (∀ c, p c = true → q c = true) →
  Str.forallb p s = true → Str.forallb q s = true.
Proof.
  intros Hpq. induction s as [|c s IH]; [done|]. simpl.
  intros [Hc Hs]%andb_prop. by rewrite (Hpq c Hc), IH.
Qed.

Lemma forallb_not_existsb p q s :
  (∀ c, p c = true → q c = false) →
  Str.forallb p s = true → Str.existsb q s = false.
Proof.
  intros Hpq. induction s as [|c s IH]; [done|]. simpl.
  intros [Hc Hs]%andb_prop. by rewrite (Hpq c Hc), IH.
Qed.

Lemma filter_all p s : Str.forallb p s = true → Str.filter p s = s.
Proof.
  induction s as [|c s IH]; [done|]. simpl.
  intros [-> Hs]%andb_prop. by rewrite IH.
Qed.

Lemma span_app p s1 s2 :
  Str.forallb p s1 = true → starts p s2 = false →
  Str.span p (s1 +:+ s2) = (s1, s2).
Proof.
  intros H1 H2. induction s1 as [|c s1 IH].
  - rewrite app_nil_l_str. destruct s2 as [|c s2]; [done|].
    simpl in H2 |- *. by rewrite H2.
  - simpl in H1. apply andb_prop in H1 as [Hc H1].
    rewrite app_cons_str. simpl. by rewrite Hc, IH.
Qed.

Lemma digit_numeralChar c : Chars.is_digit c = true → numeralChar c = true.
Proof. unfold numeralChar. by intros ->. Qed.

Lemma numeralChar_not_ws c : numeralChar c = true → Chars.is_ws c = false.
Proof. destruct c as [[] [] [] [] [] [] [] []]; vm_compute; congruence. Qed.

Lemma numeralChar_not_comma c :
  numeralChar c = true → negb (Chars.one "," c) = true.
Proof. destruct c as [[] [] [] [] [] [] [] []]; vm_compute; congruence. Qed.

Lemma digit_class c :
  Chars.is_digit c = true → Chars.digit_comma_dot c = true.
Proof. unfold Chars.digit_comma_dot. by intros ->. Qed.

Lemma digit_not_sign c :
  Chars.is_digit c = true → Chars.one "-" c = false ∧ Chars.one "+" c = false.
Proof. destruct c as [[] [] [] [] [] [] [] []]; vm_compute; intuition congruence. Qed.

Lemma wf_parts d :
  Decimal.wf d = true →
  Str.falsy (Decimal.integer d) = false
  ∧ Str.forallb Chars.is_digit (Decimal.integer d) = true
  ∧ Str.forallb Chars.is_digit (Decimal.fraction_digits d) = true.
Proof.
  unfold Decimal.wf, Decimal.fraction_digits, Decimal.digits_only.
  intros [[H1 H2]%andb_prop H3]%andb_prop.
  apply negb_true_iff in H1. split; [done|]. split; [done|].
  by destruct (Decimal.fraction d).
Qed.

Lemma body_class d :
  Decimal.wf d = true →
  Str.forallb Chars.digit_comma_dot (Decimal.body d) = true
  ∧ Str.falsy (Decimal.body d) = false
  ∧ Str.forallb numeralChar (Decimal.body d) = true.
Proof.
  intros (Hne & Hi & Hf)%wf_parts. unfold Decimal.body, Decimal.fraction_digits in *.
  split; [|split].
  - rewrite forallb_app_str.
    rewrite (forallb_impl_str _ _ _ digit_class Hi). simpl.
    destruct (Decimal.fraction d) as [f|]; [|done]. simpl.
    by apply (forallb_impl_str _ _ _ digit_class).
  - by destruct (Decimal.integer d).
  - rewrite forallb_app_str.
    rewrite (forallb_impl_str _ _ _ digit_numeralChar Hi). simpl.
    destruct (Decimal.fraction d) as [f|]; [|done]. simpl.
    by apply (forallb_impl_str _ _ _ digit_numeralChar).
Qed.

(** [parseFloat] reads a written numeral as the double nearest to the
    number it denotes. *)
Lemma parseFloat_render d :
  Decimal.wf d = true →
  parseFloat (Decimal.render d) = Double.round (Decimal.value d).
Proof.
  intros Hwf. destruct (body_class d Hwf) as (_ & _ & Hchars).
  destruct (wf_parts d Hwf) as (Hne & Hi & Hf).
  unfold parseFloat, Decimal.render.
  rewrite drop_while_none.
  2:{ rewrite existsb_app_str.
      rewrite (forallb_not_existsb _ _ _ numeralChar_not_ws Hchars).
      by destruct (Decimal.negative d). }
  assert (Numeral.sign ((if Decimal.negative d then "-" else "")
                        +:+ Decimal.body d)
          = (Decimal.negative d, Decimal.body d)) as ->.
  { destruct (Decimal.negative d); [done|]. rewrite app_nil_l_str.
    unfold Decimal.body. destruct (Decimal.integer d) as [|c i]; [done|].
    simpl in Hi. apply andb_prop in Hi as [Hc _].
    destruct (digit_not_sign c Hc) as [Hm Hp].
    rewrite app_cons_str. unfold Numeral.sign.
    apply bool_decide_eq_false in Hm, Hp.
    destruct c as [[] [] [] [] [] [] [] []]; done. }
  unfold Decimal.body, Decimal.value, Decimal.fraction_digits in *.
  destruct (Decimal.fraction d) as [f|]; simpl in Hf |- *.
  - rewrite span_app by done.
    pose proof (span_app Chars.is_digit f "" Hf eq_refl) as Hspan.
    rewrite app_nil_r_str in Hspan. rewrite Hspan. simpl.
    by rewrite Hne.
  - rewrite span_app by done. simpl. rewrite Hne. simpl.
    by rewrite app_nil_r_str.
Qed.

(** The number part in general: a written decimal numeral with one
    of the suffixes [k], [M], [G] or none is read as the double nearest to
    the number it denotes, times the magnitude of the suffix in the
    arithmetic of doubles. *)
Theorem parseStatNumber_decimal d sfx :
  Decimal.wf d = true →
  parseStatNumber (Decimal.render d +:+ suffixText sfx)
  = Some (scale sfx (Double.round (Decimal.value d))).
Proof.
  intros Hwf. destruct (body_class d Hwf) as (Hclass & Hne & Hchars).
  unfold parseStatNumber.
  assert (Str.falsy (Decimal.render d +:+ suffixText sfx) = false) as ->.
  { unfold Decimal.render. destruct (Decimal.negative d); [done|].
    rewrite app_nil_l_str. by destruct (Decimal.body d). }
  rewrite trim_no_ws.
  2:{ unfold Decimal.render. rewrite !existsb_app_str.
      rewrite (forallb_not_existsb _ _ _ numeralChar_not_ws Hchars).
      by destruct (Decimal.negative d), sfx. }
  unfold Decimal.render at 1. rewrite app_assoc_str.
  destruct (exec_here_magnitude_run (Decimal.negative d) (Decimal.body d) sfx
              Hclass Hne) as (m & Hm & H1 & H2).
  rewrite (search_here _ _ _ Hm). unfold group. rewrite H1, H2. simpl.
  fold (Decimal.render d).
  unfold Str.remove_commas. rewrite filter_all.
  2:{ unfold Decimal.render. rewrite forallb_app_str.
      rewrite (forallb_impl_str _ _ _ numeralChar_not_comma Hchars).
      by destruct (Decimal.negative d). }
  rewrite (parseFloat_render d Hwf).
  by destruct sfx.
Qed.

(** The integer pattern on a run of its class: the whole run, with the
    sign in front of it, is the first group. *)
Lemma exec_here_integer_run (neg : bool) token rest :
  Str.forallb Chars.digit_comma token = true → Str.falsy token = false →
  starts Chars.digit_comma rest = false →
  ∃ m,
    exec_here re_integer ((if neg then "-" else "") +:+ token +:+ rest)
    = Some m
    ∧ m !! 1 = Some ((if neg then "-" else "") +:+ token).
Proof.
  intros Hrun Hne Hrest.
  destruct (plus_rests_app _ token rest Hrun Hne Hrest) as [others Hrests].
  unfold exec_here, re_integer. cbn [run].
  destruct neg.
  - rewrite app_cons_str, app_nil_l_str. cbn [run flat_map app fst snd].
    change (Chars.one "-" "-") with true. cbn iota. cbn [app flat_map fst snd].
    rewrite Hrests. cbn [fmap list_fmap app flat_map fst snd].
    pose proof (consumed_app (String "-" token) rest) as Hcons.
    rewrite app_cons_str in Hcons. rewrite Hcons.
    eexists. split; [reflexivity|].
    rewrite app_cons_str, app_nil_l_str. by simplify_map_eq.
  - rewrite app_nil_l_str.
    destruct token as [|c token]; [done|].
    assert (Chars.one "-" c = false) as Hminus.
    { simpl in Hrun. apply andb_prop in Hrun as [Hc _].
      destruct (Chars.one "-" c) eqn:Hm; [|done].
      apply bool_decide_eq_true in Hm as ->. done. }
    pose proof (consumed_app (String c token) rest) as Hcons.
    rewrite app_cons_str in Hrests, Hcons |- *.
    cbn [run flat_map app fst snd]. rewrite Hminus.
    cbn [app flat_map fst snd]. rewrite Hrests.
    cbn [fmap list_fmap app flat_map fst snd]. rewrite Hcons.
    eexists. split; [reflexivity|]. by simplify_map_eq.
Qed.

Lemma filter_app_str p s1 s2 :
  Str.filter p (s1 +:+ s2) = Str.filter p s1 +:+ Str.filter p s2.
Proof.
  induction s1 as [|c s1 IH]; [done|].
  rewrite app_cons_str. simpl. destruct (p c); [|done].
  by rewrite app_cons_str, IH.
Qed.

(** What is left of a run of digits and commas without its commas: its
    digits. *)
Lemma remove_commas_digits token :
  Str.forallb Chars.digit_comma token = true →
  Str.forallb Chars.is_digit (Str.remove_commas token) = true
  ∧ Str.falsy (Str.remove_commas token)
    = negb (Str.existsb Chars.is_digit token).
Proof.
  unfold Str.remove_commas. induction token as [|c token IH]; [done|].
  simpl. intros [Hc Htoken]%andb_prop. destruct (IH Htoken) as [IH1 IH2].
  unfold Chars.digit_comma in Hc.
  destruct (Chars.one "," c) eqn:Hcomma; simpl.
  - apply bool_decide_eq_true in Hcomma as ->. done.
  - rewrite orb_false_r in Hc. rewrite Hc. simpl. by rewrite IH1.
Qed.

(** The integer part in general, on a text that begins with its token. *)
Lemma extractNumber_run (neg : bool) token rest :
  Str.forallb Chars.digit_comma token = true → Str.falsy token = false →
  starts Chars.digit_comma rest = false →
  extractNumber ((if neg then "-" else "") +:+ token +:+ rest)
  = Some (if Str.existsb Chars.is_digit token
          then Double.round
                 (inject_Z (Numeral.signed neg
                              (Numeral.digits (Str.remove_commas token))))
          else NaN).
Proof.
  intros Htoken Hne Hrest. unfold extractNumber.
  assert (Str.falsy ((if neg then "-" else "") +:+ token +:+ rest) = false)
    as ->.
  { destruct neg; [done|]. rewrite app_nil_l_str. by destruct token. }
  destruct (exec_here_integer_run neg token rest Htoken Hne Hrest)
    as (m & Hm & H1).
  rewrite (search_here _ _ _ Hm). unfold group. rewrite H1. simpl. f_equal.
  destruct (remove_commas_digits token Htoken) as [Hdigits Hfalsy].
  assert (Str.remove_commas ((if neg then "-" else "") +:+ token)
          = (if neg then "-" else "") +:+ Str.remove_commas token) as ->.
  { unfold Str.remove_commas. rewrite filter_app_str. by destruct neg. }
  unfold parseInt.
  assert (Str.drop_while Chars.is_ws
            ((if neg then "-" else "") +:+ Str.remove_commas token)
          = (if neg then "-" else "") +:+ Str.remove_commas token) as ->.
  { destruct neg; [done|]. rewrite app_nil_l_str.
    destruct (Str.remove_commas token) as [|c t]; [done|].
    simpl in Hdigits |- *. apply andb_prop in Hdigits as [Hc _].
    by rewrite (numeralChar_not_ws c (digit_numeralChar c Hc)). }
  assert (Numeral.sign ((if neg then "-" else "") +:+ Str.remove_commas token)
          = (neg, Str.remove_commas token)) as ->.
  { destruct neg; [done|]. rewrite app_nil_l_str.
    destruct (Str.remove_commas token) as [|c t]; [done|].
    simpl in Hdigits. apply andb_prop in Hdigits as [Hc _].
    destruct (digit_not_sign c Hc) as [Hm' Hp].
    unfold Numeral.sign. apply bool_decide_eq_false in Hm', Hp.
    destruct c as [[] [] [] [] [] [] [] []]; done. }
  pose proof (span_app Chars.is_digit (Str.remove_commas token) ""
                Hdigits eq_refl) as Hspan.
  rewrite app_nil_r_str in Hspan. rewrite Hspan, Hfalsy.
  by destruct (Str.existsb Chars.is_digit token).
Qed.

(** X17.  The integer part in general, on a text that begins with its
    token: the token is read as the double nearest to the integer its digits
    spell, which is that integer when it is at most [2 ^ 53] in size, and as
    [NaN] when the token has no digit. *)
Theorem extractNumber_token (neg : bool) token rest :
  Str.forallb Chars.digit_comma token = true → Str.falsy token = false →
  starts Chars.digit_comma rest = false →
  let spelled :=
    Numeral.signed neg (Numeral.digits (Str.remove_commas token)) in
  extractNumber ((if neg then "-" else "") +:+ token +:+ rest)
  = Some (if Str.existsb Chars.is_digit token
          then Double.round (inject_Z spelled)
          else NaN)
  ∧ (Str.existsb Chars.is_digit token = true →
     (Z.abs spelled <= 2 ^ 53)%Z →
     extractNumber ((if neg then "-" else "") +:+ token +:+ rest)
     = Some (num_of_Z spelled)).
Proof.
  intros Htoken Hne Hrest spelled.
  rewrite (extractNumber_run neg token rest Htoken Hne Hrest).
  split; [done|]. intros -> Hsmall. by rewrite round_exact.
Qed.

(** C9.  [extractNumber] does not always return an integer or [null]: a
    text whose first run of digits and commas holds no digit, such as [","],
    is matched by the pattern, and [parseInt] of what is left after the
    commas are stripped is [NaN].  The text holds no integer-looking token,
    and the value returned is neither [null] nor an integer. *)
Theorem extractNumber_commas_only_is_NaN :
  Str.existsb Chars.is_digit "," = false
  ∧ extractNumber "," = Some NaN
  ∧ js_is_integer NaN = false.
Proof. vm_compute. done. Qed.

(** C4.  [parseStatNumber] on the examples of the specification, and on
    texts with no number in them: a signed decimal with a suffix is scaled,
    the empty text gives [null], but a text whose only candidate token is a
    period or a comma gives [NaN] instead of [null]. *)
Theorem parseStatNumber_separators_only_is_NaN :
  parseStatNumber "373.69k" = Some (num_of_Z 373690)
  ∧ parseStatNumber "-18,651" = Some (num_of_Z (-18651))
  ∧ parseStatNumber "" = None
  ∧ Str.existsb Chars.is_digit "." = false
  ∧ parseStatNumber "." = Some NaN
  ∧ parseStatNumber "," = Some NaN.
Proof. vm_compute. done. Qed.

(** C1.  [extractStatValue] returns the pair for ["0/300.37k"] and the
    single number for ["42"], but when the left operand carries a magnitude
    suffix, as in ["373.69k/374.05k"], the fraction pattern does not match
    and the result is the left operand alone, not a pair.  The pattern of
    the resource rows, [resourceValue], returns the pair on the same text. *)
Theorem extractStatValue_left_suffix_is_scalar :
  extractStatValue "0/300.37k"
  = Some (Range (Some (num_of_Z 0)) (Some (num_of_Z 300370)))
  ∧ extractStatValue "42" = Some (Scalar (num_of_Z 42))
  ∧ extractStatValue "373.69k/374.05k" = Some (Scalar (num_of_Z 373690))
  ∧ search re_stat_fraction "373.69k/374.05k" = None
  ∧ resourceValue "373.69k/374.05k"
    = Some (Range (Some (num_of_Z 373690)) (Some (num_of_Z 374050))).
Proof. vm_compute. done. Qed.

(** ** War enrichment *)

Lemma elem_of_activeCitySet name cities :
  name ∈ activeCitySet cities ↔ ∃ city, city ∈ cities ∧ City.name city = name.
Proof.
  unfold activeCitySet. rewrite elem_of_list_to_set, list_elem_of_fmap.
  split; intros (city & H1 & H2); exists city; done.
Qed.

(** The wars of a run keep their order and their fields. *)
Lemma enrichWars_war cities wars :
  EnrichedWar.war <$> enrichWars cities wars = wars.
Proof.
  unfold enrichWars. induction wars as [|w ws IH]; [done|].
  cbn. f_equal. exact IH.
Qed.

(** C7.  For every war and every set [S] of active city names, enrichment
    keeps the war, sets [attackerActive] to [attacker ∈ S], [defenderActive]
    to [defender ∈ S] and [bothActive] to their conjunction; the set a run
    uses holds exactly the names of the listed cities; and the war of [A]
    on [B] with 5 missiles is flagged true, false, false for [S = {A, C}]. *)
Theorem enrichWar_active_flags :
  (∀ (S : gset string) (war : War.t),
      EnrichedWar.war (enrichWar S war) = war
      ∧ (EnrichedWar.attackerActive (enrichWar S war) = true
         ↔ War.attacker war ∈ S)
      ∧ (EnrichedWar.defenderActive (enrichWar S war) = true
         ↔ War.defender war ∈ S)
      ∧ EnrichedWar.bothActive (enrichWar S war)
        = EnrichedWar.attackerActive (enrichWar S war)
          && EnrichedWar.defenderActive (enrichWar S war))
  ∧ (∀ cities wars,
        enrichWars cities wars = enrichWar (activeCitySet cities) <$> wars
        ∧ ∀ name, name ∈ activeCitySet cities
                  ↔ ∃ city, city ∈ cities ∧ City.name city = name)
  ∧ (let war := {| War.attacker := "A"; War.attackerUrl := "/city/A";
                   War.defender := "B"; War.defenderUrl := "/city/B";
                   War.missiles := Some (num_of_Z 5) |} in
     let S : gset string := {["A"; "C"]} in
     EnrichedWar.attackerActive (enrichWar S war) = true
     ∧ EnrichedWar.defenderActive (enrichWar S war) = false
     ∧ EnrichedWar.bothActive (enrichWar S war) = false).
Proof.
  split; [|split].
  - intros S war. simpl. rewrite !bool_decide_eq_true. done.
  - intros cities wars. split; [done|]. intros name.
    apply elem_of_activeCitySet.
  - simpl. rewrite !andb_false_r.
    split; [|split; [|done]].
    + apply bool_decide_eq_true, elem_of_union. left.
      by apply elem_of_singleton.
    + apply bool_decide_eq_false.
      intros [H|H]%elem_of_union; apply elem_of_singleton in H; discriminate.
Qed.

(** ** Record validators *)

Ltac munfold :=
  unfold mbind, mret, M_bind, M_ret, bind, ret, throw, try_catch, when,
    addWarning, now, modify, get_state in *.

(** A record that lacks one of the four required fields is rejected, and
    a warning that names the missing fields is queued. *)
Lemma validateCity_missing city s :
  is_nullish (CityObject.name city) || is_nullish (CityObject.url city)
  || is_nullish (CityObject.pollution city)
  || is_nullish (CityObject.citizens city) = true →
  ∃ missing,
    missing ≠ []
    ∧ validateCity city s
      = (Ok false, Scraper.push_warning (missingFieldsWarning city missing s) s).
Proof.
  unfold validateCity, missingFieldsWarning. cbn [List.filter].
  change (CityObject.get city "name") with (CityObject.name city).
  change (CityObject.get city "url") with (CityObject.url city).
  change (CityObject.get city "pollution") with (CityObject.pollution city).
  change (CityObject.get city "citizens") with (CityObject.citizens city).
  destruct (is_nullish (CityObject.name city)),
    (is_nullish (CityObject.url city)),
    (is_nullish (CityObject.pollution city)),
    (is_nullish (CityObject.citizens city)); intros H; try discriminate H;
    (eexists; split; [|reflexivity]; discriminate).
Qed.

Lemma validateCity_complete city s :
  is_nullish (CityObject.name city) = false →
  is_nullish (CityObject.url city) = false →
  is_nullish (CityObject.pollution city) = false →
  is_nullish (CityObject.citizens city) = false →
  validateCity city s
  = (Ok true,
     if not_number_or_negative (CityObject.citizens city)
     then Scraper.push_warning (invalidCitizensWarning city s) s
     else s).
Proof.
  intros H1 H2 H3 H4. unfold validateCity, invalidCitizensWarning.
  cbn [List.filter].
  change (CityObject.get city "name") with (CityObject.name city).
  change (CityObject.get city "url") with (CityObject.url city).
  change (CityObject.get city "pollution") with (CityObject.pollution city).
  change (CityObject.get city "citizens") with (CityObject.citizens city).
  rewrite H1, H2, H3, H4. munfold. simpl.
  by destruct (not_number_or_negative (CityObject.citizens city)).
Qed.

(** A complete record whose citizens count is not of type number, or is a
    negative number, is accepted with a warning. *)
Lemma validateCity_invalid_citizens_warns city s :
  is_nullish (CityObject.name city) = false →
  is_nullish (CityObject.url city) = false →
  is_nullish (CityObject.pollution city) = false →
  is_nullish (CityObject.citizens city) = false →
  not_number_or_negative (CityObject.citizens city) = true →
  validateCity city s
  = (Ok true, Scraper.push_warning (invalidCitizensWarning city s) s).
Proof.
  intros H1 H2 H3 H4 H5. rewrite validateCity_complete by done. by rewrite H5.
Qed.

(** [validateCity] never throws. *)
Lemma validateCity_total city s : ∃ valid s', validateCity city s = (Ok valid, s').
Proof.
  destruct (is_nullish (CityObject.name city) || is_nullish (CityObject.url city)
            || is_nullish (CityObject.pollution city)
            || is_nullish (CityObject.citizens city)) eqn:H.
  - destruct (validateCity_missing city s H) as (missing & _ & ->). eauto.
  - apply orb_false_elim in H as [H H4]. apply orb_false_elim in H as [H H3].
    apply orb_false_elim in H as [H1 H2].
    rewrite validateCity_complete by done. eauto.
Qed.

(** What [validateCity] returns is whether the four fields are there. *)
Lemma validateCity_result city s valid s' :
  validateCity city s = (Ok valid, s') →
  valid = negb (is_nullish (CityObject.name city)
                || is_nullish (CityObject.url city)
                || is_nullish (CityObject.pollution city)
                || is_nullish (CityObject.citizens city)).
Proof.
  destruct (is_nullish (CityObject.name city) || is_nullish (CityObject.url city)
            || is_nullish (CityObject.pollution city)
            || is_nullish (CityObject.citizens city)) eqn:H.
  - destruct (validateCity_missing city s H) as (missing & _ & ->).
    by intros [= <- _].
  - apply orb_false_elim in H as [H H4]. apply orb_false_elim in H as [H H3].
    apply orb_false_elim in H as [H1 H2].
    rewrite validateCity_complete by done. by intros [= <- _].
Qed.

(** The loop over the city rows never throws, and no row whose pollution
    or citizens value is missing reaches the result. *)
Lemma extractCities_complete baseUrl rows cities s :
  Forall (fun c => is_Some (City.pollution c) ∧ is_Some (City.citizens c))
         cities →
  ∃ cities' s',
    extractCities baseUrl rows cities s = (Ok cities', s')
    ∧ Forall (fun c => is_Some (City.pollution c) ∧ is_Some (City.citizens c))
             cities'.
Proof.
  revert cities s. induction rows as [|row rows IH]; intros cities s Hc.
  - simpl. eexists _, _. split; [reflexivity|done].
  - cbn [extractCities]. destruct (CityRow.link row) as [[text href]|]; [|by apply IH].
    destruct (Str.falsy (Str.trim text)); [by apply IH|].
    munfold.
    destruct (validateCity_total
                (City.object (cityOfRow baseUrl row (Str.trim text) href)) s)
      as (valid & s1 & Hv).
    rewrite Hv. apply validateCity_result in Hv. simpl in Hv.
    apply IH. destruct valid; [|done].
    apply Forall_app. split; [done|]. constructor; [|done].
    symmetry in Hv. apply negb_true_iff, orb_false_elim in Hv as [Hp Hz].
    simpl.
    destruct (iconValue (CityRow.pollutionSpans row)),
      (iconValue (CityRow.citizenSpans row)); try discriminate; eauto.
Qed.

(** C5.  A record with its four fields present and a citizens value that
    is not a number at all, [NaN], is accepted by [validateCity] without any
    warning: [typeof NaN] is ['number'] and [NaN < 0] is false.  The list
    page produces such a record from a citizens cell that reads [","]. *)
Theorem validateCity_NaN_citizens_no_warning :
  let city := {| CityObject.name := VString "X";
                 CityObject.url := VString "https://fragile.city/city/X";
                 CityObject.pollution := VNumber (num_of_Z 0);
                 CityObject.citizens := VNumber NaN |} in
  let row := {| CityRow.link := Some ("X", "/city/X");
                CityRow.mailIcon := false;
                CityRow.patronBadge := false;
                CityRow.contributorBadge := false;
                CityRow.pollutionSpans := [Some "0"];
                CityRow.citizenSpans := [Some ","] |} in
  (∀ s, validateCity city s = (Ok true, s))
  ∧ City.object (cityOfRow BASE_URL row "X" "/city/X") = city
  ∧ ∀ s, extractCities BASE_URL [row] [] s
         = (Ok [cityOfRow BASE_URL row "X" "/city/X"], s).
Proof.
  split; [|split].
  - intros s. by rewrite validateCity_complete.
  - vm_compute. done.
  - intros s. cbn [extractCities CityRow.link].
    change (Str.trim "X") with "X". cbn [Str.falsy]. munfold.
    rewrite validateCity_complete by done.
    reflexivity.
Qed.

(** ** Buildings *)

Lemma falsy_false_length s : Str.falsy s = false → (0 <? String.length s) = true.
Proof. by destruct s. Qed.

(** A section with a heading and no count cell stores a zero. *)
Lemma buildingStep_no_cell buildings section :
  Str.falsy (Str.trim (BuildingSection.heading section)) = false →
  BuildingSection.greenCell section = None →
  sectionKey section ≠ "__proto__" →
  buildingStep buildings section
  = <[sectionKey section := num_of_Z 0]> buildings.
Proof.
  intros Hh Hg Hk. unfold buildingStep. fold (sectionKey section).
  rewrite Hh, (falsy_false_length _ Hh), Hg. unfold assign.
  by rewrite bool_decide_eq_false_2.
Qed.

(** Nothing is ever stored under [__proto__]. *)
Lemma assign_proto key value object :
  object !! "__proto__" = None → assign key value object !! "__proto__" = None.
Proof.
  intros Ho. unfold assign. case_bool_decide as Hk; [done|].
  by rewrite lookup_insert_ne.
Qed.

Lemma buildingStep_proto buildings section :
  buildings !! "__proto__" = None →
  buildingStep buildings section !! "__proto__" = None.
Proof.
  intros Hb. unfold buildingStep. destruct (_ && _); [|done].
  destruct (BuildingSection.greenCell section) as [cellText|].
  - destruct (extractNumber _); [|done]. by apply assign_proto.
  - by apply assign_proto.
Qed.

Lemma fold_buildingStep_proto sections buildings :
  buildings !! "__proto__" = None →
  fold_left buildingStep sections buildings !! "__proto__" = None.
Proof.
  revert buildings. induction sections as [|section sections IH];
    intros buildings Hb; [done|].
  simpl. by apply IH, buildingStep_proto.
Qed.

(** A section whose count cell holds no number stores nothing. *)
Lemma buildingStep_cell_without_number buildings section cellText :
  BuildingSection.greenCell section = Some cellText →
  extractNumber (Str.trim cellText) = None →
  buildingStep buildings section = buildings.
Proof.
  intros Hg Hn. unfold buildingStep. rewrite Hg, Hn. by destruct (_ && _).
Qed.

(** No step removes a key. *)
Lemma buildingStep_keeps_key buildings section key :
  is_Some (buildings !! key) → is_Some (buildingStep buildings section !! key).
Proof.
  intros Hk. unfold buildingStep, assign.
  destruct (_ && _); [|done].
  destruct (BuildingSection.greenCell section) as [cellText|].
  - destruct (extractNumber _); [|done]. case_bool_decide; [done|].
    rewrite lookup_insert. case_decide; eauto.
  - case_bool_decide; [done|]. rewrite lookup_insert. case_decide; eauto.
Qed.

Lemma extractBuildings_keeps_key sections buildings key :
  is_Some (buildings !! key) →
  is_Some (fold_left buildingStep sections buildings !! key).
Proof.
  revert buildings. induction sections as [|section sections IH];
    intros buildings Hk; [done|].
  simpl. by apply IH, buildingStep_keeps_key.
Qed.

(** A zero stays a zero across a step that stores no number under the
    same key. *)
Lemma buildingStep_keeps_zero buildings section key :
  buildings !! key = Some (num_of_Z 0) →
  (∀ cellText, sectionKey section = key →
     BuildingSection.greenCell section = Some cellText →
     extractNumber (Str.trim cellText) = None) →
  buildingStep buildings section !! key = Some (num_of_Z 0).
Proof.
  intros Hk Hsec. unfold buildingStep, assign. fold (sectionKey section).
  destruct (_ && _); [|done].
  destruct (BuildingSection.greenCell section) as [cellText|].
  - destruct (extractNumber _) as [count|] eqn:Hcount; [|done].
    case_bool_decide; [done|].
    rewrite lookup_insert. case_decide as Hkey; [|done].
    by rewrite (Hsec cellText Hkey eq_refl) in Hcount.
  - case_bool_decide; [done|]. rewrite lookup_insert. by case_decide.
Qed.

Lemma extractBuildings_keeps_zero sections buildings key :
  buildings !! key = Some (num_of_Z 0) →
  (∀ later cellText, later ∈ sections → sectionKey later = key →
     BuildingSection.greenCell later = Some cellText →
     extractNumber (Str.trim cellText) = None) →
  fold_left buildingStep sections buildings !! key = Some (num_of_Z 0).
Proof.
  revert buildings. induction sections as [|section sections IH];
    intros buildings Hk Hlater; [done|].
  simpl. apply IH.
  - apply buildingStep_keeps_zero; [done|].
    intros cellText. apply Hlater. by left.
  - intros later cellText Hin. apply Hlater. by right.
Qed.

(** C8, as the specification states it, fails when a later section has
    the same name after normalisation and a count: the section [Park] has
    no count cell, yet the mapping ends with 3 under its key. *)
Lemma zero_entry_overwritten_by_later_section :
  let section := {| BuildingSection.heading := "Park";
                    BuildingSection.greenCell := None |} in
  let sections := [section;
                   {| BuildingSection.heading := "park";
                      BuildingSection.greenCell := Some "3" |}] in
  section ∈ sections
  ∧ Str.falsy (Str.trim (BuildingSection.heading section)) = false
  ∧ BuildingSection.greenCell section = None
  ∧ extractBuildings sections !! sectionKey section = Some (num_of_Z 3)
  ∧ extractBuildings sections !! sectionKey section ≠ Some (num_of_Z 0).
Proof.
  simpl. split; [by left|]. split; [done|]. split; [done|].
  assert (extractBuildings
            [{| BuildingSection.heading := "Park";
                BuildingSection.greenCell := None |};
             {| BuildingSection.heading := "park";
                BuildingSection.greenCell := Some "3" |}] !! "park"
          = Some (num_of_Z 3)) as H by (vm_compute; done).
  change (sectionKey _) with "park". rewrite H. split; [done|]. discriminate.
Qed.

(** C8, amended.  For a section with a nonempty heading and no green count
    cell, whose key (the heading in lower case with every run of white space
    turned into an underscore) is not [__proto__], the mapping holds a zero
    under that key once the section has been processed; the key is in the
    extracted mapping; and its value there is still zero unless a later
    section of the same key has a count cell with a number in it.  A section
    whose key is [__proto__] leaves no entry at all: the assignment to that
    key of a plain object stores nothing. *)
Theorem building_without_count_cell_is_zero
    (before after : list BuildingSection.t) (section : BuildingSection.t) :
  Str.falsy (Str.trim (BuildingSection.heading section)) = false →
  BuildingSection.greenCell section = None →
  (sectionKey section ≠ "__proto__" →
   extractBuildings (before ++ [section]) !! sectionKey section
   = Some (num_of_Z 0)
   ∧ is_Some (extractBuildings (before ++ section :: after)
              !! sectionKey section)
   ∧ ((∀ later cellText,
          later ∈ after → sectionKey later = sectionKey section →
          BuildingSection.greenCell later = Some cellText →
          extractNumber (Str.trim cellText) = None) →
      extractBuildings (before ++ section :: after) !! sectionKey section
      = Some (num_of_Z 0)))
  ∧ (sectionKey section = "__proto__" →
     extractBuildings (before ++ section :: after) !! sectionKey section
     = None).
Proof.
  intros Hh Hg. split.
  - intros Hk. unfold extractBuildings. rewrite !fold_left_app. simpl.
    rewrite (buildingStep_no_cell _ _ Hh Hg Hk).
    split; [apply lookup_insert_eq|]. split.
    + apply extractBuildings_keeps_key. rewrite lookup_insert_eq. eauto.
    + intros Hlater. apply extractBuildings_keeps_zero; [|done].
      apply lookup_insert_eq.
  - intros ->. by apply fold_buildingStep_proto.
Qed.

Lemma building_without_count_cell_is_zero_witness :
  let farm := {| BuildingSection.heading := "Farm";
                 BuildingSection.greenCell := Some "12" |} in
  let plant := {| BuildingSection.heading := " Power  Plant ";
                  BuildingSection.greenCell := None |} in
  let mine := {| BuildingSection.heading := "Mine";
                 BuildingSection.greenCell := Some "4" |} in
  Str.falsy (Str.trim (BuildingSection.heading plant)) = false
  ∧ BuildingSection.greenCell plant = None
  ∧ sectionKey plant = "power_plant"
  ∧ extractBuildings ([farm] ++ [plant]) !! sectionKey plant
    = Some (num_of_Z 0)
  ∧ is_Some (extractBuildings ([farm] ++ plant :: [mine]) !! sectionKey plant).
Proof.
  intros farm plant mine.
  split; [reflexivity|]. split; [reflexivity|]. split; [reflexivity|].
  assert (sectionKey plant ≠ "__proto__") as Hk by discriminate.
  pose proof (proj1 (building_without_count_cell_is_zero [farm] [mine] plant
                       eq_refl eq_refl) Hk) as (H1 & H2 & _).
  split; [exact H1|exact H2].
Defined.

(** ** Transport *)

Section RunProperties.

Variable this : Config.t.
Variable env : Env.t.

Lemma count_events_push p ev s :
  count_events p (Scraper.push_event ev s)
  = count_events p s + (if p ev then 1 else 0).
Proof.
  unfold count_events. simpl. rewrite List.filter_app, length_app. simpl.
  by destruct (p ev).
Qed.

Lemma afterAttempts_retry s url d r n :
  afterAttempts
    (Scraper.advance (d * 2 ^ r)
       (Scraper.push_event (Sleep (d * 2 ^ r))
          (Scraper.push_event (Get url) s)))
    url d (S r) n
  = afterAttempts s url d r (S n).
Proof.
  unfold afterAttempts. simpl. f_equal.
  - by rewrite <- !app_assoc.
  - lia.
Qed.

Lemma afterAttempts_0 s url d r :
  afterAttempts s url d r 0 = Scraper.push_event (Get url) s.
Proof.
  unfold afterAttempts, Scraper.push_event. simpl. f_equal. lia.
Qed.

(** What a call of [fetchWithRetry] with retry count [r] does: [n]
    attempts fail, the next one decides, and the outcome is the one the
    world gave to that last attempt. *)
Lemma fetchWithRetry_run url r s :
  r ≤ Config.maxRetries this →
  ∃ n,
    r + n ≤ Config.maxRetries this
    ∧ fetchWithRetry this env url r s
      = (Env.net env (count_events is_get s + n) url,
         afterAttempts s url (Config.retryDelay this) r n)
    ∧ (∀ j, j < n →
         ∃ e, Env.net env (count_events is_get s + j) url = Throw e)
    ∧ (∀ e, Env.net env (count_events is_get s + n) url = Throw e →
         r + n = Config.maxRetries this).
Proof.
  remember (Config.maxRetries this - r) as k eqn:Hk.
  revert r s Hk. induction k as [|k IH]; intros r s Hk Hr.
  - exists 0. rewrite fetchWithRetry_equation_1.
    unfold try_catch, axiosGet. rewrite !Nat.add_0_r, afterAttempts_0.
    split; [lia|]. split; [|split; [lia|lia]].
    destruct (Env.net env _ url) as [response|e]; [done|].
    destruct (decide (r < Config.maxRetries this)); [lia|done].
  - rewrite fetchWithRetry_equation_1. unfold try_catch, axiosGet.
    destruct (Env.net env (count_events is_get s) url) as [response|e] eqn:Hnet.
    + exists 0. rewrite !Nat.add_0_r, Hnet, afterAttempts_0.
      split; [lia|]. split; [done|]. split; [lia|]. done.
    + destruct (decide (r < Config.maxRetries this)) as [Hlt|]; [|lia].
      cbn zeta. munfold. unfold sleep, modify. cbn [fst snd].
      set (s1 := Scraper.advance _ _).
      destruct (IH (r + 1) s1) as (n & Hn & Hrun & Hfail & Hlast); [lia|lia|].
      assert (count_events is_get s1 = count_events is_get s + 1) as Hc.
      { unfold s1, count_events. simpl.
        rewrite !List.filter_app, !length_app. simpl. lia. }
      rewrite Hc in Hrun, Hfail, Hlast.
      exists (S n). split; [lia|]. split; [|split].
      * rewrite Hrun. f_equal; [f_equal; lia|].
        unfold s1. rewrite Nat.add_1_r. apply afterAttempts_retry.
      * intros j Hj. destruct j as [|j].
        -- rewrite Nat.add_0_r. eauto.
        -- replace (count_events is_get s + S j)
             with (count_events is_get s + 1 + j) by lia.
           apply Hfail. lia.
      * intros e' He'. 
        replace (count_events is_get s + S n)
          with (count_events is_get s + 1 + n) in He' by lia.
        specialize (Hlast e' He'). lia.
Qed.


Lemma retryTrace_requests url d r n :
  List.filter is_get (retryTrace url d r n) = replicate (n + 1) (Get url).
Proof.
  revert r. induction n as [|n IH]; intros r; [done|].
  cbn [retryTrace List.filter is_get]. by rewrite IH.
Qed.

Lemma retryTrace_gets url d r n :
  length (List.filter is_get (retryTrace url d r n)) = n + 1.
Proof.
  revert r. induction n as [|n IH]; intros r; [done|].
  simpl. by rewrite IH.
Qed.

(** In the trace, the pause in front of the [k]-th retry comes right
    before the request of that retry. *)
Lemma retryTrace_retry url d r n k :
  1 ≤ k ≤ n →
  retryTrace url d r n !! (2 * k - 1) = Some (Sleep (d * 2 ^ (r + k - 1)))
  ∧ retryTrace url d r n !! (2 * k) = Some (Get url).
Proof.
  revert r k. induction n as [|n IH]; intros r k Hk; [lia|].
  destruct (decide (k = 1)) as [->|Hne].
  - simpl. replace (r + 1 - 1) with r by lia. split; [done|].
    by destruct n.
  - destruct (IH (S r) (k - 1)) as [H1 H2]; [lia|].
    remember (2 * (k - 1) - 1) as a eqn:Ha.
    remember (2 * (k - 1)) as b eqn:Hb.
    replace (2 * k - 1) with (S (S a)) by lia.
    replace (2 * k) with (S (S b)) by lia.
    cbn [retryTrace]. rewrite !lookup_cons. 
    rewrite H1, H2. split; [|done].
    by replace (S r + (k - 1) - 1) with (r + k - 1) by lia.
Qed.

(** C3.  Without options the scraper retries 3 times.  A call of
    [fetchWithRetry] makes [n + 1] requests with [n] at most [maxRetries];
    the pause right before the [k]-th retry lasts [retryDelay * 2^(k-1)];
    every request but the last failed; the outcome of the call is the
    outcome of the last request as the network gave it, and when that is
    an error all [maxRetries + 1] requests were made; the lists of errors
    and warnings of the scraper are left as they were. *)
Theorem fetchWithRetry_attempts_and_backoff url s :
  Config.maxRetries (constructor Options.empty) = 3
  ∧ ∃ n,
      let first := count_events is_get s in
      let trace := retryTrace url (Config.retryDelay this) 0 n in
      let run := fetchWithRetry this env url 0 s in
      n ≤ Config.maxRetries this
      ∧ Scraper.events (snd run) = Scraper.events s ++ trace
      ∧ length (List.filter is_get trace) = n + 1
      ∧ length (List.filter is_get trace) ≤ Config.maxRetries this + 1
      ∧ (∀ k, 1 ≤ k ≤ n →
           trace !! (2 * k - 1)
           = Some (Sleep (Config.retryDelay this * 2 ^ (k - 1)))
           ∧ trace !! (2 * k) = Some (Get url))
      ∧ (∀ j, j < n → ∃ e, Env.net env (first + j) url = Throw e)
      ∧ fst run = Env.net env (first + n) url
      ∧ (∀ e, fst run = Throw e →
           n = Config.maxRetries this
           ∧ Env.net env (first + Config.maxRetries this) url = Throw e)
      ∧ Scraper.errors (snd run) = Scraper.errors s
      ∧ Scraper.warnings (snd run) = Scraper.warnings s.
Proof.
  split; [done|].
  destruct (fetchWithRetry_run url 0 s) as (n & Hn & Hrun & Hfail & Hlast);
    [lia|].
  exists n. cbn zeta. rewrite Hrun. cbn [fst snd afterAttempts Scraper.events
    Scraper.errors Scraper.warnings].
  rewrite retryTrace_gets.
  split; [lia|]. split; [done|]. split; [done|]. split; [lia|].
  split; [|split; [done|split; [done|split; [|done]]]].
  - intros k Hk. apply (retryTrace_retry url _ 0 n k Hk).
  - intros e He. specialize (Hlast e He).
    assert (n = Config.maxRetries this) as Heq by lia.
    split; [done|]. by rewrite <- Heq.
Qed.

(** ** Batch scheduler *)

Lemma nonNull_resultOf {O R} `{!Settles O R} (outcomes : list O) :
  nonNull (resultOf <$> outcomes) = successes outcomes.
Proof.
  induction outcomes as [|o outcomes IH]; [done|].
  change (nonNull (resultOf <$> o :: outcomes))
    with (match resultOf o with
          | Some r => r :: nonNull (resultOf <$> outcomes)
          | None => nonNull (resultOf <$> outcomes)
          end).
  change (successes (o :: outcomes))
    with (match resultOf o with
          | Some r => r :: successes outcomes
          | None => successes outcomes
          end).
  by rewrite IH.
Qed.

Lemma successes_app {O R} `{!Settles O R} (os1 os2 : list O) :
  successes (os1 ++ os2) = successes os1 ++ successes os2.
Proof. apply omap_app. Qed.

Lemma failures_app {A O R} `{!Settles O R} (xs1 xs2 : list A)
    (os1 os2 : list O) :
  length xs1 = length os1 →
  failures (xs1 ++ xs2) (os1 ++ os2) = failures xs1 os1 ++ failures xs2 os2.
Proof.
  revert os1. induction xs1 as [|x xs1 IH]; intros [|o os1] Hlen;
    try discriminate; [done|].
  simpl. rewrite IH by (simpl in Hlen; lia). by rewrite app_assoc.
Qed.

(** The promises of callbacks whose operations the handler copes with
    are all fulfilled. *)
Lemma promiseAll_fulfilled {X Y} (f : X → Y) (l : list X) :
  promiseAll ((fun x => Some (Ok (f x))) <$> l) = Some (Ok (f <$> l)).
Proof.
  induction l as [|x l IH]; [done|].
  change (promiseAll ((fun x => Some (Ok (f x))) <$> x :: l))
    with (match promiseAll ((fun x => Some (Ok (f x))) <$> l) with
          | Some (Throw e) => Some (Throw e)
          | Some (Ok xs) => Some (Ok (f x :: xs))
          | None => None
          end).
  by rewrite IH.
Qed.

(** Whatever a call of the scraper's own code does, the handler copes
    with it. *)
Lemma Result_handled {R} (o : Result (option R)) : handled (settle o).
Proof. destruct o as [r|e]; simpl; [done|by eexists]. Qed.

Lemma batchItem_settles {A O R} `{!Settles O R}
    (processFn : A → Scraper.t → O * Scraper.t) item errors s :
  handled (settle (fst (processFn item s))) →
  batchItem processFn item errors s
  = (Ok (Some (Ok (resultOf (fst (processFn item s)))),
         errors ++ option_list (failure item (fst (processFn item s)))),
     snd (processFn item s)).
Proof.
  unfold batchItem, resultOf, failure, handled.
  destruct (processFn item s) as [o s']. cbn [fst snd].
  destruct (settle o) as [result|error|]; [|intros [message ->]|done].
  - by rewrite app_nil_r.
  - done.
Qed.

Lemma batchItem_run {A R} (processFn : A → M (option R)) item errors s :
  batchItem processFn item errors s
  = (Ok (Some (Ok (resultOf (fst (processFn item s)))),
         errors ++ option_list (failure item (fst (processFn item s)))),
     snd (processFn item s)).
Proof. apply batchItem_settles, Result_handled. Qed.

Section Batch.

Context {A O R : Type} `{!Settles O R}.
Variable processFn : A → Scraper.t → O * Scraper.t.

(** Every operation settles, with a result or with a value whose message
    can be read. *)
Hypothesis processFn_handled :
  ∀ item s, handled (settle (fst (processFn item s))).

(** [Inv s]: what holds of every state of the batch. *)
Variable Inv : Scraper.t → Prop.
Hypothesis Inv_step : ∀ item s, Inv s → Inv (snd (processFn item s)).
Hypothesis Inv_sleep : ∀ ms s, Inv s → Inv (snd (sleep ms s)).

(** [P item o s]: what is known in state [s] of an item whose operation
    had the outcome [o]. *)
Variable P : A → O → Scraper.t → Prop.
Hypothesis P_step :
  ∀ item s, Inv s → P item (fst (processFn item s)) (snd (processFn item s)).
Hypothesis P_stable :
  ∀ item o item' s, Inv s → P item o s → P item o (snd (processFn item' s)).
Hypothesis P_sleep :
  ∀ item o ms s, P item o s → P item o (snd (sleep ms s)).

(** A window runs the operation of each of its items, whatever the
    outcomes of the others. *)
Lemma batchWindow_settles batch errors s :
  Inv s →
  ∃ outcomes s',
    batchWindow processFn batch errors s
    = (Ok ((fun o => Some (Ok (resultOf o))) <$> outcomes,
           errors ++ failures batch outcomes), s')
    ∧ Inv s'
    ∧ Forall2 (fun item o => P item o s') batch outcomes
    ∧ (∀ item o, P item o s → P item o s').
Proof.
  revert errors s. induction batch as [|item batch IH]; intros errors s Hs.
  - exists [], s. simpl. rewrite app_nil_r. done.
  - cbn [batchWindow]. munfold. rewrite batchItem_settles by done.
    destruct (IH (errors ++ option_list
                           (failure item (fst (processFn item s))))
                 (snd (processFn item s)) (Inv_step item s Hs))
      as (outcomes & s' & -> & Hs' & HP & Hkeep).
    exists (fst (processFn item s) :: outcomes), s'.
    split; [|split; [done|split]].
    + simpl. by rewrite <- app_assoc.
    + constructor; [|done]. by apply Hkeep, P_step.
    + intros item' o Ho. by apply Hkeep, P_stable.
Qed.

(** The loop, started at [i] with the outcomes of the first [i] items
    behind it, ends with the outcomes of all items. *)
Lemma processBatchFrom_settles items concurrency fuel :
  1 ≤ concurrency →
  ∀ i past s,
    length items - i < fuel →
    Inv s →
    Forall2 (fun item o => P item o s) (take i items) past →
    ∃ outcomes s',
      processBatchFrom this fuel items processFn concurrency i
                       (successes past) (failures (take i items) past) s
      = (Ok (Some {| BatchResult.results := successes outcomes;
                     BatchResult.errors := failures items outcomes |}),
         s')
      ∧ Inv s'
      ∧ Forall2 (fun item o => P item o s') items outcomes.
Proof.
  intros Hc. induction fuel as [|fuel IH]; intros i past s Hfuel Hs HP; [lia|].
  cbn [processBatchFrom].
  destruct (i <? length items) eqn:Hi.
  - apply Nat.ltb_lt in Hi. unfold mbind, M_bind, bind.
    destruct (batchWindow_settles (slice items i (i + concurrency))
                                  (failures (take i items) past) s Hs)
      as (outcomes & s1 & -> & Hs1 & HPw & Hkeep).
    rewrite promiseAll_fulfilled. cbn [await ret].
    rewrite nonNull_resultOf.
    assert (take (i + concurrency) items
            = take i items ++ slice items i (i + concurrency)) as Htake.
    { unfold slice. replace (i + concurrency - i) with concurrency by lia.
      by rewrite take_take_drop. }
    assert (length (take i items) = length past) as Hlen
      by (by eapply Forall2_length).
    rewrite <- successes_app, <- failures_app, <- Htake by done.
    set (s2 := snd (when (i + concurrency <? length items)
                         (sleep (Config.requestDelay this)) s1)).
    assert (∀ item o, P item o s1 → P item o s2) as Hsleep.
    { intros item o Ho. unfold s2, when.
      destruct (_ <? _); [by apply P_sleep|done]. }
    assert (when (i + concurrency <? length items)
                 (sleep (Config.requestDelay this)) s1 = (Ok tt, s2)) as ->.
    { unfold s2, when. by destruct (_ <? _). }
    assert (Inv s2) as Hs2.
    { unfold s2, when. destruct (_ <? _); [by apply Inv_sleep|done]. }
    apply IH; [lia|done|].
    rewrite Htake. apply Forall2_app.
    + eapply Forall2_impl; [exact HP|]. intros item o Ho.
      by apply Hsleep, Hkeep.
    + eapply Forall2_impl; [exact HPw|]. intros item o Ho.
      by apply Hsleep.
  - apply Nat.ltb_ge in Hi. rewrite take_ge in HP |- * by done.
    exists past, s. done.
Qed.

Lemma processBatch_settles items concurrency s :
  1 ≤ concurrency →
  Inv s →
  ∃ outcomes s',
    processBatch this items processFn concurrency s
    = (Ok (Some {| BatchResult.results := successes outcomes;
                   BatchResult.errors := failures items outcomes |}),
       s')
    ∧ Inv s'
    ∧ Forall2 (fun item o => P item o s') items outcomes.
Proof.
  intros Hc Hs. unfold processBatch.
  apply (processBatchFrom_settles items concurrency (S (length items)) Hc
           0 [] s); [lia|done|].
  rewrite take_0. constructor.
Qed.

End Batch.



(** What the outcomes of a batch say about its two collections. *)
Section Outcomes.

Context {A O R : Type} `{!Settles O R}.
Variable Q : A → O → Prop.

Lemma outcomes_count items outcomes :
  Forall2 Q items outcomes →
  (∀ item o, Q item o → handled (settle o) ∧ settle o ≠ Fulfilled None) →
  length (successes outcomes) + length (failures items outcomes)
  = length items.
Proof.
  intros HQ Hnull. induction HQ as [|item o items outcomes Ho _ IH];
    [done|].
  change (successes (o :: outcomes))
    with (match resultOf o with
          | Some r => r :: successes outcomes
          | None => successes outcomes
          end).
  cbn [failures]. rewrite length_app.
  destruct (Hnull item o Ho) as [Hh Hn]. unfold resultOf, failure.
  destruct (settle o) as [[r|]|error|]; simpl; [lia|done| |done].
  destruct Hh as [message ->]. simpl. lia.
Qed.

Lemma outcomes_count_le items outcomes :
  Forall2 Q items outcomes →
  length (successes outcomes) + length (failures items outcomes)
  ≤ length items.
Proof.
  intros HQ. induction HQ as [|item o items outcomes Ho _ IH]; [done|].
  change (successes (o :: outcomes))
    with (match resultOf o with
          | Some r => r :: successes outcomes
          | None => successes outcomes
          end).
  cbn [failures]. rewrite length_app. unfold resultOf, failure.
  destruct (settle o) as [[r|]|error|]; simpl; try lia.
  destruct (readMessage error); simpl; lia.
Qed.

Lemma failures_inv items outcomes entry :
  Forall2 Q items outcomes →
  entry ∈ failures items outcomes →
  ∃ item o error,
    item ∈ items ∧ Q item o ∧ settle o = Rejected error
    ∧ readMessage error = Ok (BatchError.error entry)
    ∧ BatchError.item entry = item.
Proof.
  intros HQ. induction HQ as [|item o items outcomes Ho _ IH];
    [by intros ?%elem_of_nil|].
  cbn [failures]. intros [Hin|Hin]%elem_of_app.
  - unfold failure in Hin.
    destruct (settle o) as [r|error|] eqn:Hs;
      try (by apply elem_of_nil in Hin).
    destruct (readMessage error) as [message|e] eqn:Hm;
      [|by apply elem_of_nil in Hin].
    apply list_elem_of_singleton in Hin as ->.
    exists item, o, error. split; [by left|done].
  - destruct (IH Hin) as (item' & o' & error & Hi & H).
    exists item', o', error. split; [by right|done].
Qed.

Lemma failures_intro items outcomes item error message :
  Forall2 Q items outcomes →
  item ∈ items →
  (∀ o, Q item o → settle o = Rejected error) →
  readMessage error = Ok message →
  {| BatchError.item := item; BatchError.error := message |}
  ∈ failures items outcomes.
Proof.
  intros HQ Hin Hthrow Hm.
  induction HQ as [|item' o items outcomes Ho _ IH];
    [by apply elem_of_nil in Hin|].
  cbn [failures]. apply elem_of_app.
  apply elem_of_cons in Hin as [->|Hin]; [|right; by apply IH].
  left. unfold failure. rewrite (Hthrow o Ho), Hm. simpl. by left.
Qed.

Lemma successes_intro items outcomes item r :
  Forall2 Q items outcomes →
  item ∈ items →
  (∀ o, Q item o → settle o = Fulfilled (Some r)) →
  r ∈ successes outcomes.
Proof.
  intros HQ Hin Hok.
  induction HQ as [|item' o items outcomes Ho _ IH];
    [by apply elem_of_nil in Hin|].
  change (successes (o :: outcomes))
    with (match resultOf o with
          | Some r => r :: successes outcomes
          | None => successes outcomes
          end).
  apply elem_of_cons in Hin as [->|Hin].
  - unfold resultOf. rewrite (Hok o Ho). by left.
  - destruct (resultOf o); [right|]; by apply IH.
Qed.

End Outcomes.

(** When no operation fails or yields [null], the results are the values
    of the items, one for each and in their order. *)
Lemma outcomes_all_succeed {A R} (Q : A → R → Prop) items
    (outcomes : list (Result (option R))) :
  Forall2 (fun item o => ∃ r, o = Ok (Some r) ∧ Q item r) items outcomes →
  failures items outcomes = [] ∧ Forall2 Q items (successes outcomes).
Proof.
  intros H. induction H as [|item o items outcomes (r & -> & Hr) _ [IH1 IH2]];
    [by split; [|constructor]|].
  split; [exact IH1|].
  change (successes (Ok (Some r) :: outcomes)) with (r :: successes outcomes).
  by constructor.
Qed.

(** With no concurrency at all the loop never ends: whatever the fuel,
    it runs out. *)
Lemma processBatchFrom_zero_concurrency {A O R} `{!Settles O R}
    (processFn : A → Scraper.t → O * Scraper.t) item items fuel :
  ∀ results errors s,
    ∃ s', processBatchFrom this fuel (item :: items) processFn 0 0
                           results errors s
          = (Ok None, s').
Proof.
  induction fuel as [|fuel IH]; intros results errors s; [by eexists|].
  cbn [processBatchFrom]. change (0 <? length (item :: items)) with true.
  cbn iota. change (slice (item :: items) 0 (0 + 0)) with (@nil A).
  cbn [batchWindow]. munfold. unfold sleep, modify. cbn.
  apply IH.
Qed.

Lemma processBatch_zero_concurrency {A O R} `{!Settles O R}
    (processFn : A → Scraper.t → O * Scraper.t) item items s :
  ∃ s', processBatch this (item :: items) processFn 0 s = (Ok None, s').
Proof. apply processBatchFrom_zero_concurrency. Qed.

(** An operation that rejects with [undefined] makes the handler of its
    callback throw: the call rejects with the [TypeError] once the
    operations of the window have run, no entry is recorded, and the
    windows that follow are never started. *)
Lemma processBatch_rejects_on_undefined :
  let processFn (item : string) (s : Scraper.t) : Settled nat * Scraper.t :=
    (if bool_decide (item = "b") then Rejected ThrownUndefined
     else Fulfilled (Some (String.length item)),
     Scraper.push_event (Get item) s) in
  processBatch (constructor Options.empty) ["a"; "b"; "c"; "d"] processFn 3
               Scraper.initial
  = (Throw {| message :=
       "Cannot read properties of undefined (reading 'message')" |},
     {| Scraper.errors := []; Scraper.warnings := [];
        Scraper.events := [Get "a"; Get "b"; Get "c"];
        Scraper.clock := 0 |}).
Proof. reflexivity. Qed.

(** An operation that never settles keeps the call from returning. *)
Lemma processBatch_waits_for_pending :
  let processFn (item : string) (s : Scraper.t) : Settled nat * Scraper.t :=
    (if bool_decide (item = "b") then Pending
     else Fulfilled (Some (String.length item)), s) in
  fst (processBatch (constructor Options.empty) ["a"; "b"; "c"; "d"]
                    processFn 3 Scraper.initial)
  = Ok None.
Proof. reflexivity. Qed.

(** C2, as the specification states it, fails for an operation that
    resolves to [null]: the value is filtered out of the results and no
    error is recorded, so one item gives no result and no error. *)
Lemma processBatch_drops_null_result :
  let processFn : string → M (option nat) := fun _ => ret None in
  let items := ["x"] in
  ∃ batch s',
    processBatch (constructor Options.empty) items processFn 1 Scraper.initial
    = (Ok (Some batch), s')
    ∧ BatchResult.results batch = []
    ∧ BatchResult.errors batch = []
    ∧ length (BatchResult.results batch) + length (BatchResult.errors batch)
      ≠ length items.
Proof.
  eexists _, _. split; [reflexivity|]. simpl.
  split; [done|]. split; [done|]. lia.
Qed.

(** C2, amended.  Take a concurrency of at least one and an operation
    that always settles, never resolves to [null] and never rejects with
    a value whose [message] cannot be read, as [undefined] and [null] are.
    Then [processBatch] returns [{results, errors}] with as many results
    and errors together as there are items.  Every entry of [errors] is
    [{item, error}] for an item of the input whose operation rejected with
    a value of that message; an item whose operation rejects is recorded
    whatever the other items do, and an item whose operation succeeds has
    its value among the results whatever the other items do. *)
Theorem processBatch_accounts_for_every_item {A O R} `{!Settles O R}
    (items : list A) (processFn : A → Scraper.t → O * Scraper.t)
    (concurrency : nat) (s : Scraper.t) :
  1 ≤ concurrency →
  (∀ item st,
      match settle (fst (processFn item st)) with
      | Fulfilled result => result ≠ None
      | Rejected error => ∃ message, readMessage error = Ok message
      | Pending => False
      end) →
  ∃ batch s',
    processBatch this items processFn concurrency s = (Ok (Some batch), s')
    ∧ length (BatchResult.results batch) + length (BatchResult.errors batch)
      = length items
    ∧ (∀ entry, entry ∈ BatchResult.errors batch →
         BatchError.item entry ∈ items
         ∧ ∃ error st,
             settle (fst (processFn (BatchError.item entry) st))
             = Rejected error
             ∧ readMessage error = Ok (BatchError.error entry))
    ∧ (∀ item error message, item ∈ items →
         (∀ st, settle (fst (processFn item st)) = Rejected error) →
         readMessage error = Ok message →
         {| BatchError.item := item; BatchError.error := message |}
         ∈ BatchResult.errors batch)
    ∧ (∀ item r, item ∈ items →
         (∀ st, settle (fst (processFn item st)) = Fulfilled (Some r)) →
         r ∈ BatchResult.results batch).
Proof.
  intros Hc Hsettles.
  assert (∀ item st, handled (settle (fst (processFn item st)))) as Hh.
  { intros item st. specialize (Hsettles item st). unfold handled.
    by destruct (settle _). }
  destruct (processBatch_settles processFn Hh
              (fun _ => True) (fun _ _ _ => Logic.I) (fun _ _ _ => Logic.I)
              (fun item o _ => ∃ st, fst (processFn item st) = o)
              (fun item st _ => ex_intro _ st eq_refl)
              (fun _ _ _ _ _ H => H) (fun _ _ _ _ H => H)
              items concurrency s Hc Logic.I)
    as (outcomes & s' & Hrun & _ & HQ).
  assert (Forall2 (fun item o => ∃ st, fst (processFn item st) = o)
                  items outcomes) as HQ'.
  { eapply Forall2_impl; [exact HQ|]. done. }
  eexists _, s'. split; [exact Hrun|]. cbn [BatchResult.results BatchResult.errors].
  split; [|split; [|split]].
  - eapply outcomes_count; [exact HQ'|].
    intros item o [st <-]. split; [apply Hh|].
    specialize (Hsettles item st). intros Hn. rewrite Hn in Hsettles. done.
  - intros entry Hin.
    destruct (failures_inv _ _ _ _ HQ' Hin)
      as (item & o & error & Hi & [st <-] & Hs & Hm & <-).
    split; [done|]. by exists error, st.
  - intros item error message Hin Hthrow Hm.
    eapply failures_intro; [exact HQ'|done| |done].
    intros o [st <-]. apply Hthrow.
  - intros item r Hin Hok. eapply successes_intro; [exact HQ'|done|].
    intros o [st <-]. apply Hok.
Qed.

(** ** Per-city extraction *)

(** The validator of city details only queues warnings. *)
Lemma validateCityDetails_run cityData s :
  ∃ valid s',
    validateCityDetails cityData s = (Ok valid, s')
    ∧ Scraper.errors s' = Scraper.errors s
    ∧ Scraper.events s' = Scraper.events s
    ∧ Scraper.clock s' = Scraper.clock s.
Proof.
  unfold validateCityDetails. munfold.
  destruct (Str.falsy _); [by eexists _, _|].
  destruct (bool_decide (size (CityData.stats cityData) = 0)),
    (bool_decide (length (CityData.jobLevels cityData) = 0)),
    (bool_decide (size (CityData.resources cityData) = 0)),
    (bool_decide (size (CityData.buildings cityData) = 0)),
    (match CityData.citizens cityData with
     | Some n => js_lt0 n
     | None => false
     end); by eexists _, _.
Qed.

(** A fetch that ends in an error makes [scrapeCity] record the error
    and return the failed variant. *)
Lemma scrapeCity_failed cityName s e s1 :
  fetchWithRetry this env (cityUrl this cityName) 0 s = (Throw e, s1) →
  scrapeCity this env cityName s
  = (Ok (Failed cityName (cityUrl this cityName) (message e)
                (Scraper.clock s1)),
     Scraper.push_error
       (CityError cityName (message e) (Scraper.clock s1)) s1).
Proof.
  intros Hfetch. unfold scrapeCity. munfold. by rewrite Hfetch.
Qed.

(** A fetch that succeeds makes [scrapeCity] return the full record; the
    list of errors and the trace are left as the fetch left them. *)
Lemma scrapeCity_fetched cityName s response s1 :
  fetchWithRetry this env (cityUrl this cityName) 0 s = (Ok response, s1) →
  ∃ s',
    scrapeCity this env cityName s
    = (Ok (Scraped (cityDataOf this cityName (data response) (Scraper.clock s1))),
       s')
    ∧ Scraper.errors s' = Scraper.errors s1
    ∧ Scraper.events s' = Scraper.events s1.
Proof.
  intros Hfetch. unfold scrapeCity. munfold. rewrite Hfetch.
  fold (cityDataOf this cityName (data response) (Scraper.clock s1)).
  destruct (validateCityDetails_run
              (cityDataOf this cityName (data response) (Scraper.clock s1)) s1)
    as (valid & s' & -> & He & Hev & _).
  by exists s'.
Qed.

Lemma fetchWithRetry_errors url s :
  Scraper.errors (snd (fetchWithRetry this env url 0 s)) = Scraper.errors s.
Proof.
  destruct (fetchWithRetry_run url 0 s) as (n & _ & -> & _); [lia|]. done.
Qed.

(** Every request failing, the fetch ends in an error. *)
Lemma fetchWithRetry_unreachable url s :
  unreachable env url →
  ∃ e, fst (fetchWithRetry this env url 0 s) = Throw e.
Proof.
  intros Hun. destruct (fetchWithRetry_run url 0 s) as (n & _ & -> & _); [lia|].
  apply Hun.
Qed.

(** The requests of a fetch, among the requests of the run. *)
Lemma afterAttempts_requests s url d n j :
  count_events is_get s ≤ j ≤ count_events is_get s + n →
  List.filter is_get (Scraper.events (afterAttempts s url d 0 n)) !! j
  = Some (Get url).
Proof.
  intros Hj. unfold afterAttempts, count_events in *. cbn [Scraper.events].
  rewrite List.filter_app, retryTrace_requests.
  rewrite lookup_app_r by lia.
  apply lookup_replicate. split; [done|lia].
Qed.

(** [scrapeCity] catches every error of a text name: it resolves to a
    record, made from the answer to a request for the page of the city;
    the list of errors and the trace only grow. *)
Lemma scrapeCity_run (cityName : string) s :
  ∃ detail s',
    scrapeCity this env cityName s = (Ok detail, s')
    ∧ detailOf this env (count_events is_get s) cityName detail s'
    ∧ (∃ new, Scraper.errors s' = Scraper.errors s ++ new)
    ∧ (∃ trace, Scraper.events s' = Scraper.events s ++ trace).
Proof.
  destruct (fetchWithRetry_run (cityUrl this cityName) 0 s)
    as (n & _ & Hfetch & Hfail & Hlast); [lia|].
  pose proof (afterAttempts_requests s (cityUrl this cityName)
                (Config.retryDelay this) n) as Hreq.
  set (s1 := afterAttempts s (cityUrl this cityName)
               (Config.retryDelay this) 0 n) in *.
  assert (∀ j, count_events is_get s ≤ j < count_events is_get s + n →
               ∃ e, Env.net env j (cityUrl this cityName) = Throw e) as Hfail'.
  { intros j Hj.
    replace j with (count_events is_get s + (j - count_events is_get s))
      by lia.
    apply Hfail. lia. }
  destruct (Env.net env (count_events is_get s + n) (cityUrl this cityName))
    as [response|e] eqn:Hnet.
  - destruct (scrapeCity_fetched _ _ _ _ Hfetch) as (s' & -> & He & Hev).
    eexists _, s'. split; [done|]. split; [|split].
    + exists (count_events is_get s), (count_events is_get s + n).
      split; [lia|]. rewrite Hev. split; [exact Hreq|]. split; [exact Hfail'|].
      rewrite Hnet. by eexists.
    + exists []. by rewrite app_nil_r, He.
    + eexists. rewrite Hev. reflexivity.
  - rewrite (scrapeCity_failed _ _ _ _ Hfetch).
    eexists _, _. split; [done|]. split; [|split].
    + exists (count_events is_get s), (count_events is_get s + n).
      split; [lia|]. split; [exact Hreq|]. split; [exact Hfail'|].
      rewrite Hnet. specialize (Hlast e eq_refl). split; [lia|].
      eexists _, _. split; [done|].
      simpl. apply elem_of_app. right. by left.
    + eexists. reflexivity.
    + eexists. reflexivity.
Qed.

Lemma detailOf_grow first cityName detail s s' new trace :
  Scraper.errors s' = Scraper.errors s ++ new →
  Scraper.events s' = Scraper.events s ++ trace →
  detailOf this env first cityName detail s →
  detailOf this env first cityName detail s'.
Proof.
  intros He Hev (k & n & Hn & Hget & Hfail & Hd). exists k, n.
  split; [done|]. split; [|split; [done|]].
  - intros j Hj. rewrite Hev, List.filter_app.
    by apply lookup_app_l_Some, Hget.
  - destruct (Env.net env n _) as [response|e]; [done|].
    destruct Hd as (Hk & scrapedAt & timestamp & -> & Hin).
    split; [done|]. eexists _, timestamp. split; [done|].
    rewrite He. apply elem_of_app. by left.
Qed.

Lemma detailOf_later first first' cityName detail s :
  first ≤ first' →
  detailOf this env first' cityName detail s →
  detailOf this env first cityName detail s.
Proof.
  intros Hle (k & n & Hn & H). exists k, n. split; [lia|done].
Qed.

Lemma scrapeListed_run city s :
  ∃ detail s',
    scrapeListed this env city s = (Ok (Some detail), s')
    ∧ detailOf this env (count_events is_get s) (City.name city) detail s'
    ∧ (∃ new, Scraper.errors s' = Scraper.errors s ++ new)
    ∧ (∃ trace, Scraper.events s' = Scraper.events s ++ trace).
Proof.
  unfold scrapeListed. munfold.
  destruct (scrapeCity_run (City.name city) s) as (detail & s' & -> & H).
  by exists detail, s'.
Qed.

Lemma count_events_grow p s s' trace :
  Scraper.events s' = Scraper.events s ++ trace →
  count_events p s ≤ count_events p s'.
Proof.
  intros Hev. unfold count_events.
  rewrite Hev, List.filter_app, length_app. lia.
Qed.

(** The fourth phase ends for a concurrency of at least one, with no
    entry in [errors] and with one record for every listed city, in the
    order of the list, each made from the answer to a request of the
    phase for the page of the city. *)
Lemma scrapeAllCities_run cities s :
  1 ≤ Config.concurrency this →
  ∃ details s',
    scrapeAllCities this env cities s
    = (Ok (Some {| BatchResult.results := details;
                   BatchResult.errors := [] |}), s')
    ∧ Forall2 (fun city detail =>
                 detailOf this env (count_events is_get s) (City.name city)
                          detail s')
              cities details.
Proof.
  intros Hc. unfold scrapeAllCities. fold (scrapeListed this env).
  destruct (processBatch_settles (scrapeListed this env)
              (fun city st =>
                 Result_handled (fst (scrapeListed this env city st)))
              (fun st => count_events is_get s ≤ count_events is_get st))
    with (P := fun city (o : Result (option CityDetail)) st =>
                 ∃ detail, o = Ok (Some detail)
                           ∧ detailOf this env (count_events is_get s)
                                      (City.name city) detail st)
         (items := cities) (concurrency := Config.concurrency this) (s := s)
    as (outcomes & s' & Hrun & _ & HP); [| | | | |done|done|].
  - intros city st Hst.
    destruct (scrapeListed_run city st) as (? & st' & -> & _ & _ & trace & Hev).
    cbn [snd]. pose proof (count_events_grow is_get _ _ _ Hev). lia.
  - intros ms st Hst. unfold sleep, modify. cbn [snd].
    pose proof (count_events_grow is_get st
                  (Scraper.advance ms (Scraper.push_event (Sleep ms) st))
                  [Sleep ms] eq_refl).
    lia.
  - intros city st Hst.
    destruct (scrapeListed_run city st) as (detail & st' & -> & Hd & _).
    exists detail. split; [done|]. by eapply detailOf_later.
  - intros city o city' st Hst (detail & -> & Hd).
    destruct (scrapeListed_run city' st)
      as (? & st' & -> & _ & (new & Hnew) & trace & Hev).
    exists detail. split; [done|]. by eapply detailOf_grow.
  - intros city o ms st (detail & -> & Hd). exists detail. split; [done|].
    eapply (detailOf_grow _ _ _ st _ [] [Sleep ms]); [|done|done].
    by rewrite app_nil_r.
  - destruct (outcomes_all_succeed _ _ _ HP) as [Hfail Hok].
    rewrite Hfail in Hrun. by eexists _, s'.
Qed.



(** The constructor never leaves the scraper without concurrency. *)
Lemma constructor_concurrency options :
  1 ≤ Config.concurrency (constructor options).
Proof.
  unfold constructor, or_default. simpl.
  destruct (Options.concurrency options) as [[|n]|]; lia.
Qed.


(** ** Orchestrator *)







End RunProperties.

(** ** The statements on the small world *)

Lemma processBatch_accounts_for_every_item_witness :
  1 ≤ 2
  ∧ (∀ item st,
        match settle (fst (Example.probe item st)) with
        | Fulfilled result => result ≠ None
        | Rejected error => ∃ message, readMessage error = Ok message
        | Pending => False
        end)
  ∧ ∃ batch s',
      processBatch Example.config ["a"; "b"; "cc"; "d"] Example.probe 2
                   Scraper.initial
      = (Ok (Some batch), s')
      ∧ length (BatchResult.results batch) + length (BatchResult.errors batch)
        = 4
      ∧ BatchResult.results batch = [1; 2]
      ∧ BatchResult.errors batch
        = [{| BatchError.item := "b"; BatchError.error := VString "boom" |};
           {| BatchError.item := "d"; BatchError.error := VUndefined |}].
Proof.
  assert (∀ item st,
             match settle (fst (Example.probe item st)) with
             | Fulfilled result => result ≠ None
             | Rejected error => ∃ message, readMessage error = Ok message
             | Pending => False
             end) as Hsettles.
  { intros item st. unfold Example.probe. cbn [fst].
    destruct (bool_decide (item = "b")); [by eexists|].
    destruct (bool_decide (item = "d")); [by eexists|done]. }
  split; [lia|]. split; [exact Hsettles|].
  destruct (processBatch_accounts_for_every_item Example.config
              ["a"; "b"; "cc"; "d"] Example.probe 2 Scraper.initial
              ltac:(lia) Hsettles)
    as (batch & s' & Hrun & Hlen & _).
  exists batch, s'. split; [exact Hrun|]. split; [exact Hlen|].
  vm_compute in Hrun. injection Hrun as <- _. split; reflexivity.
Defined.



Section FurtherBatch.

Variable this : Config.t.




End FurtherBatch.

(** ** Further properties: batch scheduler *)

Section FurtherBatchStatements.

Variable this : Config.t.




End FurtherBatchStatements.



(** ** Further properties: transport *)

Lemma retryWait_closed d r n : retryWait d r n = d * 2 ^ r * (2 ^ n - 1).
Proof.
  revert r. induction n as [|n IH]; intros r; [simpl; lia|].
  cbn [retryWait]. rewrite IH.
  assert (1 ≤ 2 ^ n) by (apply Nat.neq_0_lt_0, Nat.pow_nonzero; lia).
  rewrite !Nat.pow_succ_r'. nia.
Qed.

Section FurtherRun.

Variable this : Config.t.
Variable env : Env.t.

(** X4.  What a dead host costs: when every request for [url] fails, a call
    of [fetchWithRetry] makes [maxRetries + 1] requests, waits [retryDelay *
    (2 ^ maxRetries - 1)] in all, and throws the error of the last request. *)
Theorem fetchWithRetry_dead_host url s :
  unreachable env url →
  ∃ e,
    fetchWithRetry this env url 0 s
    = (Throw e,
       afterAttempts s url (Config.retryDelay this) 0 (Config.maxRetries this))
    ∧ Env.net env (count_events is_get s + Config.maxRetries this) url
      = Throw e
    ∧ count_events is_get (snd (fetchWithRetry this env url 0 s))
      = count_events is_get s + Config.maxRetries this + 1
    ∧ Scraper.clock (snd (fetchWithRetry this env url 0 s))
      = Scraper.clock s
        + Config.retryDelay this * (2 ^ Config.maxRetries this - 1).
Proof.
  intros Hun.
  destruct (fetchWithRetry_run this env url 0 s) as (n & Hn & Hrun & _ & Hlast);
    [lia|].
  destruct (Hun (count_events is_get s + n)) as [e He].
  specialize (Hlast e He). simpl in Hlast. subst n.
  exists e. rewrite Hrun, He. split; [done|]. split; [done|].
  cbn [snd]. split.
  - unfold count_events, afterAttempts. cbn [Scraper.events].
    rewrite List.filter_app, length_app, retryTrace_gets. lia.
  - unfold afterAttempts. cbn [Scraper.clock]. rewrite retryWait_closed.
    simpl. lia.
Qed.

(** A page that is served is fetched, after the failures that come
    first. *)
Lemma fetchWithRetry_served url s :
  served env url →
  ∃ response s',
    fetchWithRetry this env url 0 s = (Ok response, s')
    ∧ Scraper.errors s' = Scraper.errors s
    ∧ Scraper.warnings s' = Scraper.warnings s.
Proof.
  intros Hs.
  destruct (fetchWithRetry_run this env url 0 s) as (n & _ & Hrun & _); [lia|].
  destruct (Hs (count_events is_get s + n)) as [response Hr].
  rewrite Hrun, Hr. by eexists _, _.
Qed.

End FurtherRun.

(** ** Further properties: validators and list pages *)

Lemma validateWar_cases (war : War.t) (s : Scraper.t) :
  (completeWar war = false →
   emptyWarFields war ≠ []
   ∧ validateWar war s
     = (Ok false,
        Scraper.push_warning
          (missingWarFieldsWarning war (emptyWarFields war) s) s))
  ∧ (completeWar war = true →
     validateWar war s
     = (Ok true,
        if not_number_or_negative (val_of_num (War.missiles war))
        then Scraper.push_warning (invalidMissilesWarning war s) s
        else s)).
Proof.
  unfold completeWar, emptyWarFields, validateWar, missingWarFieldsWarning,
    invalidMissilesWarning.
  cbn [List.filter].
  change (War.falsy_field war "attacker") with (Str.falsy (War.attacker war)).
  change (War.falsy_field war "defender") with (Str.falsy (War.defender war)).
  change (War.falsy_field war "attackerUrl")
    with (Str.falsy (War.attackerUrl war)).
  change (War.falsy_field war "defenderUrl")
    with (Str.falsy (War.defenderUrl war)).
  destruct (Str.falsy (War.attacker war)), (Str.falsy (War.defender war)),
    (Str.falsy (War.attackerUrl war)), (Str.falsy (War.defenderUrl war));
    (split; intros H; try discriminate H); try (split; [discriminate|done]).
  munfold. simpl.
  by destruct (not_number_or_negative (val_of_num (War.missiles war))).
Qed.

Lemma validateWar_run war s :
  ∃ s',
    validateWar war s = (Ok (completeWar war), s')
    ∧ Scraper.errors s' = Scraper.errors s
    ∧ Scraper.events s' = Scraper.events s.
Proof.
  destruct (validateWar_cases war s) as [Hf Ht].
  destruct (completeWar war).
  - rewrite (Ht eq_refl). eexists. split; [done|].
    by destruct (not_number_or_negative _).
  - destruct (Hf eq_refl) as [_ ->]. by eexists.
Qed.

(** X6.  A war with an empty name or address is rejected with a warning that
    lists the empty fields; a war with its four texts is accepted, with a
    warning when the missile count is [null] or negative and without one
    otherwise. *)
Theorem validateWar_outcome (war : War.t) (s : Scraper.t) :
  (completeWar war = false →
   emptyWarFields war ≠ []
   ∧ validateWar war s
     = (Ok false,
        Scraper.push_warning
          (missingWarFieldsWarning war (emptyWarFields war) s) s))
  ∧ (completeWar war = true →
     validateWar war s
     = (Ok true,
        if not_number_or_negative (val_of_num (War.missiles war))
        then Scraper.push_warning (invalidMissilesWarning war s) s
        else s)).
Proof. apply validateWar_cases. Qed.

Lemma extractWars_filter (baseUrl : string) (rows : list WarRow.t)
    (wars : list War.t) (s : Scraper.t) :
  ∃ s',
    extractWars baseUrl rows wars s
    = (Ok (wars ++ List.filter completeWar (warOfRow baseUrl <$> rows)), s')
    ∧ Scraper.errors s' = Scraper.errors s
    ∧ Scraper.events s' = Scraper.events s.
Proof.
  revert wars s. induction rows as [|row rows IH]; intros wars s.
  - exists s. simpl. by rewrite app_nil_r.
  - cbn [extractWars]. unfold mbind, M_bind, bind.
    destruct (validateWar_run (warOfRow baseUrl row) s) as (s1 & -> & He & Hv).
    cbn [fmap list_fmap List.filter].
    destruct (completeWar (warOfRow baseUrl row)).
    + destruct (IH (wars ++ [warOfRow baseUrl row]) s1) as (s' & -> & He' & Hv').
      exists s'. rewrite <- app_assoc. split; [done|]. split; congruence.
    + destruct (IH wars s1) as (s' & -> & He' & Hv').
      exists s'. split; [done|]. split; congruence.
Qed.

(** X7.  The loop over the war rows keeps the rows whose war has its four
    texts, in their order, and drops the others; it never throws. *)
Theorem extractWars_keeps_complete (baseUrl : string) (rows : list WarRow.t)
    (wars : list War.t) (s : Scraper.t) :
  ∃ s',
    extractWars baseUrl rows wars s
    = (Ok (wars ++ List.filter completeWar (warOfRow baseUrl <$> rows)), s')
    ∧ Scraper.errors s' = Scraper.errors s
    ∧ Scraper.events s' = Scraper.events s.
Proof. apply extractWars_filter. Qed.

Lemma validateCity_object city s :
  ∃ s',
    validateCity (City.object city) s = (Ok (completeCity city), s')
    ∧ Scraper.errors s' = Scraper.errors s
    ∧ Scraper.events s' = Scraper.events s.
Proof.
  destruct (validateCity_total (City.object city) s) as (valid & s' & Hv).
  pose proof (validateCity_result _ _ _ _ Hv) as Hr. simpl in Hr.
  assert (valid = completeCity city) as ->.
  { rewrite Hr. unfold completeCity.
    destruct (City.pollution city), (City.citizens city); simpl;
      repeat case_bool_decide; try done;
      match goal with H : ¬ is_Some _ |- _ => destruct H; eauto
                 | H : is_Some None |- _ => by destruct H end. }
  exists s'. split; [done|].
  destruct (is_nullish (CityObject.pollution (City.object city))
            || is_nullish (CityObject.citizens (City.object city))) eqn:Hn.
  - destruct (validateCity_missing (City.object city) s) as (m & _ & Hm).
    { simpl. simpl in Hn. by rewrite Hn. }
    rewrite Hm in Hv. by injection Hv as _ <-.
  - apply orb_false_elim in Hn as [H3 H4].
    rewrite validateCity_complete in Hv by done.
    injection Hv as _ <-. by destruct (not_number_or_negative _).
Qed.

Lemma extractCities_filter (baseUrl : string)
    (rows : list CityRow.t) (cities : list City.t) (s : Scraper.t) :
  ∃ s',
    extractCities baseUrl rows cities s
    = (Ok (cities
           ++ List.filter completeCity (omap (candidateOfRow baseUrl) rows)),
       s')
    ∧ Scraper.errors s' = Scraper.errors s
    ∧ Scraper.events s' = Scraper.events s.
Proof.
  revert cities s. induction rows as [|row rows IH]; intros cities s.
  - exists s. simpl. by rewrite app_nil_r.
  - cbn [extractCities omap list_omap]. unfold candidateOfRow at 1.
    destruct (CityRow.link row) as [[text href]|]; [|by apply IH].
    destruct (Str.falsy (Str.trim text)); [by apply IH|].
    unfold mbind, M_bind, bind.
    destruct (validateCity_object
                (cityOfRow baseUrl row (Str.trim text) href) s)
      as (s1 & -> & He & Hv).
    cbn [List.filter].
    destruct (completeCity (cityOfRow baseUrl row (Str.trim text) href)).
    + destruct (IH (cities ++ [cityOfRow baseUrl row (Str.trim text) href]) s1)
        as (s' & -> & He' & Hv').
      exists s'. rewrite <- app_assoc. split; [done|]. split; congruence.
    + destruct (IH cities s1) as (s' & -> & He' & Hv').
      exists s'. split; [done|]. split; congruence.
Qed.

(** X8.  The loop over the city rows keeps the rows that offer a city with
    both numbers read, in their order, and drops the others; it never
    throws. *)
Theorem extractCities_keeps_complete (baseUrl : string)
    (rows : list CityRow.t) (cities : list City.t) (s : Scraper.t) :
  ∃ s',
    extractCities baseUrl rows cities s
    = (Ok (cities
           ++ List.filter completeCity (omap (candidateOfRow baseUrl) rows)),
       s')
    ∧ Scraper.errors s' = Scraper.errors s
    ∧ Scraper.events s' = Scraper.events s.
Proof. apply extractCities_filter. Qed.

(** ** Further properties: orchestrator *)

(** What holds of the state before a batch and is kept by the operation
    and by the pauses holds after the batch. *)
Section BatchInvariant.

Context {A R : Type}.
Variable this : Config.t.
Variable processFn : A → M (option R).
Variable J : Scraper.t → Prop.
Hypothesis J_step : ∀ item s, J s → J (snd (processFn item s)).
Hypothesis J_sleep : ∀ ms s, J s → J (snd (sleep ms s)).

Lemma batchWindow_invariant batch errors s :
  J s → J (snd (batchWindow processFn batch errors s)).
Proof.
  revert errors s. induction batch as [|item batch IH]; intros errors s HJ;
    [done|].
  cbn [batchWindow]. unfold mbind, M_bind, bind. rewrite batchItem_run.
  specialize (IH (errors ++ option_list (failure item (fst (processFn item s))))
                 (snd (processFn item s)) (J_step _ _ HJ)).
  by destruct (batchWindow processFn batch _ _) as [[[rs es]|e] s'].
Qed.

Lemma processBatchFrom_invariant fuel items concurrency :
  ∀ i results errors s,
    J s →
    J (snd (processBatchFrom this fuel items processFn concurrency i
                             results errors s)).
Proof.
  induction fuel as [|fuel IH]; intros i results errors s HJ; [done|].
  cbn [processBatchFrom]. destruct (i <? length items); [|done].
  unfold mbind, M_bind, bind.
  pose proof (batchWindow_invariant (slice items i (i + concurrency))
                errors s HJ) as Hw.
  destruct (batchWindow processFn _ errors s) as [[[rs es]|e] s1]; [|done].
  simpl in Hw. unfold await.
  destruct (promiseAll rs) as [[batchResults|e]|]; [|done|done].
  cbn [ret]. unfold when.
  destruct (i + concurrency <? length items).
  - pose proof (J_sleep (Config.requestDelay this) s1 Hw) as Hs.
    unfold sleep, modify in Hs |- *. simpl in Hs |- *. by apply IH.
  - unfold ret. by apply IH.
Qed.

Lemma processBatch_invariant items concurrency s :
  J s → J (snd (processBatch this items processFn concurrency s)).
Proof. apply processBatchFrom_invariant. Qed.

End BatchInvariant.

Section FurtherOrchestrator.

Variable this : Config.t.
Variable env : Env.t.

(** Event classes that the traffic with the site does not touch. *)
Variable p : Event → bool.
Hypothesis p_get : ∀ url, p (Get url) = false.
Hypothesis p_sleep : ∀ ms, p (Sleep ms) = false.

Lemma retryTrace_filter url d r n : List.filter p (retryTrace url d r n) = [].
Proof.
  revert r. induction n as [|n IH]; intros r; simpl.
  - by rewrite p_get.
  - by rewrite p_get, p_sleep, IH.
Qed.

Lemma fetchWithRetry_filter url s :
  List.filter p (Scraper.events (snd (fetchWithRetry this env url 0 s)))
  = List.filter p (Scraper.events s).
Proof.
  destruct (fetchWithRetry_run this env url 0 s) as (n & _ & -> & _); [lia|].
  simpl. by rewrite List.filter_app, retryTrace_filter, app_nil_r.
Qed.

Lemma scrapeCity_filter (cityName : string) s :
  List.filter p (Scraper.events (snd (scrapeCity this env cityName s)))
  = List.filter p (Scraper.events s).
Proof.
  pose proof (fetchWithRetry_filter (cityUrl this cityName) s) as Hf.
  destruct (fetchWithRetry this env (cityUrl this cityName) 0 s)
    as [[response|e] s1] eqn:Hfetch.
  - unfold scrapeCity. munfold. rewrite Hfetch.
    match goal with |- context [validateCityDetails ?c s1] =>
      destruct (validateCityDetails_run c s1) as (valid & s' & -> & _ & Hev & _)
    end.
    simpl in Hf |- *. by rewrite Hev.
  - by rewrite (scrapeCity_failed this env _ _ _ _ Hfetch).
Qed.

Lemma scrapeAllCities_filter cities s :
  List.filter p (Scraper.events (snd (scrapeAllCities this env cities s)))
  = List.filter p (Scraper.events s).
Proof.
  unfold scrapeAllCities.
  apply (processBatch_invariant this
           (fun city => detail ← scrapeCity this env (City.name city);
                        ret (Some detail))
           (fun st => List.filter p (Scraper.events st)
                      = List.filter p (Scraper.events s))); [| |done].
  - intros city st <-. munfold.
    pose proof (scrapeCity_filter (City.name city) st) as Hc.
    by destruct (scrapeCity this env (City.name city) st) as [[detail|e] st'].
  - intros ms st <-. unfold sleep, modify. simpl.
    by rewrite List.filter_app; simpl; rewrite p_sleep, app_nil_r.
Qed.

End FurtherOrchestrator.

Section FurtherRuns.

Variable this : Config.t.
Variable env : Env.t.

Lemma scrapeCityList_served s :
  served env (Config.baseUrl this) →
  ∃ cityData s',
    scrapeCityList this env s = (Ok cityData, s')
    ∧ Scraper.errors s' = Scraper.errors s
    ∧ (∀ p, (∀ url, p (Get url) = false) → (∀ ms, p (Sleep ms) = false) →
            List.filter p (Scraper.events s')
            = List.filter p (Scraper.events s)).
Proof.
  intros Hs. unfold scrapeCityList. munfold.
  destruct (fetchWithRetry_served this env _ s Hs)
    as (response & s1 & Hfetch & He & _).
  rewrite Hfetch.
  destruct (extractCities_filter (Config.baseUrl this)
              (Page.cityRows (data response)) [] s1)
    as (s2 & -> & He2 & Hv2).
  eexists _, s2. split; [done|]. split; [congruence|].
  intros p Hg Hsl. rewrite Hv2.
  pose proof (fetchWithRetry_filter this env p Hg Hsl (Config.baseUrl this) s)
    as Hf.
  by rewrite Hfetch in Hf.
Qed.

Lemma scrapeWars_served s :
  served env (Config.baseUrl this) →
  ∃ wars s',
    scrapeWars this env s = (Ok wars, s')
    ∧ Scraper.errors s' = Scraper.errors s
    ∧ (∀ p, (∀ url, p (Get url) = false) → (∀ ms, p (Sleep ms) = false) →
            List.filter p (Scraper.events s')
            = List.filter p (Scraper.events s)).
Proof.
  intros Hs. unfold scrapeWars. munfold.
  destruct (fetchWithRetry_served this env _ s Hs)
    as (response & s1 & Hfetch & He & _).
  rewrite Hfetch.
  destruct (extractWars_filter (Config.baseUrl this)
              (Page.warRows (data response)) [] s1)
    as (s2 & -> & He2 & Hv2).
  eexists _, s2. split; [done|]. split; [congruence|].
  intros p Hg Hsl. rewrite Hv2.
  pose proof (fetchWithRetry_filter this env p Hg Hsl (Config.baseUrl this) s)
    as Hf.
  by rewrite Hfetch in Hf.
Qed.

(** X11.  When the index page cannot be fetched the run fails: it throws the
    error of the last request, the one made after [maxRetries] others,
    leaves that one failure in the list of errors, and has made the
    requests for the index page and nothing else: no file is written and
    the database is not touched. *)
Theorem runFullScrape_dead_index (s : Scraper.t) :
  unreachable env (Config.baseUrl this) →
  ∃ e s',
    runFullScrape this env s = (Throw e, s')
    ∧ Env.net env (count_events is_get s + Config.maxRetries this)
              (Config.baseUrl this)
      = Throw e
    ∧ Scraper.errors s' = [CityListError (message e) (Scraper.clock s')]
    ∧ Scraper.warnings s' = []
    ∧ Scraper.events s'
      = Scraper.events s
        ++ retryTrace (Config.baseUrl this) (Config.retryDelay this) 0
                      (Config.maxRetries this).
Proof.
  intros Hun. unfold runFullScrape, scrapeCityList. munfold. cbn [fst snd].
  destruct (fetchWithRetry_run this env (Config.baseUrl this) 0
              (Scraper.reset s)) as (n & _ & Hrun & _ & Hlast); [lia|].
  destruct (Hun (count_events is_get (Scraper.reset s) + n)) as [e He].
  specialize (Hlast e He). simpl in Hlast. subst n.
  rewrite Hrun, He. by eexists _, _.
Qed.


Lemma filter_write_push filename fileData s :
  List.filter is_write
    (Scraper.events (Scraper.push_event (WriteFile filename fileData) s))
  = List.filter is_write (Scraper.events s) ++ [WriteFile filename fileData].
Proof. simpl. by rewrite List.filter_app. Qed.

Lemma saveToFile_writable fileData filename s :
  writable env →
  saveToFile env fileData filename s
  = (Ok tt, Scraper.push_event (WriteFile filename fileData) s).
Proof. intros Hw. unfold saveToFile. by rewrite Hw. Qed.

(** What the database block leaves behind: nothing when the scraper has
    no database, the save when it succeeds, and the save and its failure,
    last in the list of errors, when it fails. *)
Lemma saveToDatabase_cases metadata s :
  ∃ s',
    saveToDatabase this env metadata s = (Ok tt, s')
    ∧ List.filter is_write (Scraper.events s')
      = List.filter is_write (Scraper.events s)
    ∧ (if Config.database this
       then match Env.database env (count_events is_database_save s) with
            | Some dbError =>
                Scraper.errors s'
                = Scraper.errors s ++ [DatabaseError (message dbError)]
            | None => Scraper.errors s' = Scraper.errors s
            end
       else Scraper.errors s' = Scraper.errors s).
Proof.
  unfold saveToDatabase, when. munfold.
  destruct (Config.database this); [|by exists s].
  destruct (Env.database env _); eexists; (split; [done|]); simpl;
    by rewrite List.filter_app, app_nil_r.
Qed.

(** X12.  With the index page served, the disk writable and a concurrency of
    at least one, the run returns, whatever happens to the city pages and to
    the database. It has written three files, [cities.json], [wars.json] and
    [city_details.json] in this order, holding what it returns; and the
    errors it returns are the errors the scraper holds. *)
Theorem runFullScrape_returns (s : Scraper.t) :
  1 ≤ Config.concurrency this →
  served env (Config.baseUrl this) →
  writable env →
  ∃ result metadata s',
    runFullScrape this env s = (Ok (Some result), s')
    ∧ List.filter is_write (Scraper.events s')
      = List.filter is_write (Scraper.events s)
        ++ [WriteFile "cities.json" (CitiesFile (RunResult.cities result));
            WriteFile "wars.json"
              (WarsFile (RunResult.wars result)
                 (length (List.filter EnrichedWar.bothActive
                                      (RunResult.wars result))));
            WriteFile "city_details.json"
              (CityDetailsFile (RunResult.cityDetails result) metadata)]
    ∧ RunResult.errors result = Scraper.errors s'
    ∧ length (RunResult.cityDetails result)
      = length (CityList.cities (RunResult.cities result)).
Proof.
  intros Hc Hs Hw. unfold runFullScrape. munfold. cbn [fst snd].
  destruct (scrapeCityList_served (Scraper.reset s) Hs)
    as (cityData & s1 & -> & _ & Hv1).
  rewrite saveToFile_writable by done.
  set (s1' := Scraper.push_event _ s1).
  destruct (scrapeWars_served s1' Hs) as (wars & s2 & -> & _ & Hv2).
  rewrite saveToFile_writable by done.
  set (s2' := Scraper.push_event _ s2).
  pose proof (scrapeAllCities_filter this env is_write
                ltac:(done) ltac:(done) (CityList.cities cityData) s2') as Hv3.
  destruct (scrapeAllCities_run this env (CityList.cities cityData) s2' Hc)
    as (details & s3 & Hrun & Hd).
  rewrite Hrun in Hv3 |- *. cbn [snd] in Hv3.
  cbn [BatchResult.results BatchResult.errors].
  rewrite saveToFile_writable by done.
  set (s3' := Scraper.push_event _ s3).
  match goal with |- context [saveToDatabase this env ?m s3'] =>
    destruct (saveToDatabase_cases m s3') as (s4 & -> & Hv4 & _) end.
  eexists _, _, s4. split; [done|].
  cbn [RunResult.cities RunResult.wars RunResult.cityDetails RunResult.errors].
  split; [|split; [done|]].
  - rewrite Hv4. unfold s3'. rewrite filter_write_push, Hv3.
    unfold s2'. rewrite filter_write_push, Hv2 by done.
    unfold s1'. rewrite filter_write_push, Hv1 by done.
    by rewrite <- !app_assoc.
  - symmetry. by eapply Forall2_length.
Qed.

(** X13.  A failure of the database does not fail the run. When the scraper
    has a database and its save fails, a run that gets there still returns;
    the failure is the last of the errors it returns, and the metadata it
    wrote to [city_details.json] before has all the others and not this one. *)
Theorem runFullScrape_database_failure (s : Scraper.t) (dbError : Error) :
  1 ≤ Config.concurrency this →
  served env (Config.baseUrl this) →
  writable env →
  Config.database this = true →
  Env.database env (count_events is_database_save s) = Some dbError →
  ∃ result metadata s',
    runFullScrape this env s = (Ok (Some result), s')
    ∧ WriteFile "city_details.json"
        (CityDetailsFile (RunResult.cityDetails result) metadata)
      ∈ Scraper.events s'
    ∧ RunResult.errors result
      = RunMetadata.errors metadata ++ [DatabaseError (message dbError)].
Proof.
  intros Hc Hs Hw Hdb Hfail. unfold runFullScrape. munfold. cbn [fst snd].
  assert (∀ st, List.filter is_database_save (Scraper.events st)
                = List.filter is_database_save (Scraper.events s) →
                count_events is_database_save st
                = count_events is_database_save s) as Hcount.
  { intros st Hst. unfold count_events. by rewrite Hst. }
  destruct (scrapeCityList_served (Scraper.reset s) Hs)
    as (cityData & s1 & -> & _ & Hv1).
  rewrite saveToFile_writable by done.
  set (s1' := Scraper.push_event _ s1).
  destruct (scrapeWars_served s1' Hs) as (wars & s2 & -> & _ & Hv2).
  rewrite saveToFile_writable by done.
  set (s2' := Scraper.push_event _ s2).
  pose proof (scrapeAllCities_filter this env is_database_save
                ltac:(done) ltac:(done) (CityList.cities cityData) s2') as Hv3.
  destruct (scrapeAllCities_run this env (CityList.cities cityData) s2' Hc)
    as (details & s3 & Hrun & Hd).
  rewrite Hrun in Hv3 |- *. cbn [snd] in Hv3.
  cbn [BatchResult.results BatchResult.errors].
  rewrite saveToFile_writable by done.
  set (s3' := Scraper.push_event _ s3).
  assert (count_events is_database_save s3'
          = count_events is_database_save s) as Hn.
  { apply Hcount. unfold s3'. simpl.
    rewrite List.filter_app, app_nil_r, Hv3. unfold s2'. simpl.
    rewrite List.filter_app, app_nil_r, Hv2 by done. unfold s1'. simpl.
    rewrite List.filter_app, app_nil_r, Hv1 by done. done. }
  unfold saveToDatabase, when. rewrite Hdb, Hn, Hfail.
  eexists _, _, _. split; [done|].
  cbn [RunResult.cityDetails RunResult.errors]. split.
  - simpl. apply elem_of_app. left. apply elem_of_app. right. by left.
  - done.
Qed.

End FurtherRuns.

Lemma fetchWithRetry_dead_host_witness :
  unreachable Example.env (cityUrl Example.config "B")
  ∧ ∃ e,
      fetchWithRetry Example.config Example.env (cityUrl Example.config "B") 0
                     Scraper.initial
      = (Throw e,
         afterAttempts Scraper.initial (cityUrl Example.config "B") 1000 0 3)
      ∧ count_events is_get
          (snd (fetchWithRetry Example.config Example.env
                               (cityUrl Example.config "B") 0 Scraper.initial))
        = 4
      ∧ Scraper.clock
          (snd (fetchWithRetry Example.config Example.env
                               (cityUrl Example.config "B") 0 Scraper.initial))
        = 7 * 1000.
Proof.
  assert (unreachable Example.env (cityUrl Example.config "B")) as Hun.
  { intros n. exists Example.refused. reflexivity. }
  split; [exact Hun|].
  destruct (fetchWithRetry_dead_host Example.config Example.env
              (cityUrl Example.config "B") Scraper.initial Hun)
    as (e & Hrun & _ & Hgets & Hclock).
  exists e. split; [exact Hrun|]. split; [exact Hgets|exact Hclock].
Defined.

Lemma runFullScrape_dead_index_witness :
  unreachable Outage.offline (Config.baseUrl Example.config)
  ∧ ∃ e s',
      runFullScrape Example.config Outage.offline Scraper.initial
      = (Throw e, s')
      ∧ e = Example.refused
      ∧ Scraper.errors s' = [CityListError (message e) (Scraper.clock s')]
      ∧ List.filter is_write (Scraper.events s') = [].
Proof.
  assert (unreachable Outage.offline (Config.baseUrl Example.config)) as Hun.
  { intros n. exists Example.refused. reflexivity. }
  split; [exact Hun|].
  destruct (runFullScrape_dead_index Example.config Outage.offline
              Scraper.initial Hun) as (e & s' & Hrun & Hlast & Herr & _ & Hev).
  exists e, s'. split; [exact Hrun|].
  split; [by injection Hlast as <-|]. split; [exact Herr|].
  rewrite Hev. reflexivity.
Defined.

Lemma runFullScrape_returns_witness :
  1 ≤ Config.concurrency Example.config
  ∧ served Example.env (Config.baseUrl Example.config)
  ∧ writable Example.env
  ∧ ∃ result s',
      runFullScrape Example.config Example.env Scraper.initial
      = (Ok (Some result), s')
      ∧ length (List.filter is_write (Scraper.events s')) = 3.
Proof.
  assert (1 ≤ Config.concurrency Example.config) as Hc by (vm_compute; lia).
  assert (served Example.env (Config.baseUrl Example.config)) as Hs.
  { intros n. eexists. reflexivity. }
  assert (writable Example.env) as Hw by (intros n filename; reflexivity).
  split; [exact Hc|]. split; [exact Hs|]. split; [exact Hw|].
  destruct (runFullScrape_returns Example.config Example.env Scraper.initial
              Hc Hs Hw) as (result & metadata & s' & Hrun & Hev & _).
  exists result, s'. split; [exact Hrun|]. rewrite Hev. reflexivity.
Defined.

Lemma runFullScrape_database_failure_witness :
  1 ≤ Config.concurrency Example.config
  ∧ served Outage.noDatabase (Config.baseUrl Example.config)
  ∧ writable Outage.noDatabase
  ∧ Config.database Example.config = true
  ∧ ∃ result s',
      runFullScrape Example.config Outage.noDatabase Scraper.initial
      = (Ok (Some result), s')
      ∧ last (RunResult.errors result) = Some (DatabaseError "SQLITE_BUSY").
Proof.
  assert (1 ≤ Config.concurrency Example.config) as Hc by (vm_compute; lia).
  assert (served Outage.noDatabase (Config.baseUrl Example.config)) as Hs.
  { intros n. eexists. reflexivity. }
  assert (writable Outage.noDatabase) as Hw by (intros n filename; reflexivity).
  split; [exact Hc|]. split; [exact Hs|]. split; [exact Hw|].
  split; [reflexivity|].
  destruct (runFullScrape_database_failure Example.config Outage.noDatabase
              Scraper.initial Outage.locked Hc Hs Hw eq_refl eq_refl)
    as (result & metadata & s' & Hrun & _ & Herr).
  exists result, s'. split; [exact Hrun|]. rewrite Herr. apply last_snoc.
Defined.

(** ** Further properties: the validator of city details *)

Lemma validateCityDetails_warnings (cityData : CityData.t) (s : Scraper.t) :
  ∃ new,
    validateCityDetails cityData s
    = (Ok (negb (Str.falsy (CityData.name cityData))),
       {| Scraper.errors := Scraper.errors s;
          Scraper.warnings := Scraper.warnings s ++ new;
          Scraper.events := Scraper.events s;
          Scraper.clock := Scraper.clock s |})
    ∧ length new ≤ 5
    ∧ Forall (fun w => Warning.timestamp w = Scraper.clock s) new
    ∧ (new = []
       ↔ Str.falsy (CityData.name cityData) = false
         ∧ size (CityData.stats cityData) ≠ 0
         ∧ length (CityData.jobLevels cityData) ≠ 0
         ∧ size (CityData.resources cityData) ≠ 0
         ∧ size (CityData.buildings cityData) ≠ 0
         ∧ ∀ n, CityData.citizens cityData = Some n → js_lt0 n = false).
Proof.
  destruct s as [errors warnings events clock].
  set (city := CityContext (VString (CityData.name cityData))).
  set (warn := fun type message context =>
                 {| Warning.type := type; Warning.message := message;
                    Warning.context := context;
                    Warning.timestamp := clock |}).
  exists (if Str.falsy (CityData.name cityData)
          then [warn InvalidCityDetails CityNameMissing NoContext]
          else
            (if bool_decide (size (CityData.stats cityData) = 0)
             then [warn IncompleteCityDetails NoStatsData city] else [])
            ++ (if bool_decide (length (CityData.jobLevels cityData) = 0)
                then [warn IncompleteCityDetails NoJobLevelsData city] else [])
            ++ (if bool_decide (size (CityData.resources cityData) = 0)
                then [warn IncompleteCityDetails NoResourcesData city] else [])
            ++ (if bool_decide (size (CityData.buildings cityData) = 0)
                then [warn IncompleteCityDetails NoBuildingsData city] else [])
            ++ (if match CityData.citizens cityData with
                   | Some n => js_lt0 n
                   | None => false
                   end
                then [warn InvalidCityDetails
                        (InvalidCitizens
                           (val_of_num (CityData.citizens cityData))) city]
                else [])).
  unfold validateCityDetails. fold city. munfold. munfold.
  unfold Scraper.push_warning.
  cbn [Scraper.errors Scraper.warnings Scraper.events Scraper.clock fst snd].
  destruct (Str.falsy (CityData.name cityData)).
  { split; [done|]. split; [simpl; lia|].
    split; [by repeat constructor|]. split; [done|]. by intros [? _]. }
  assert (∀ n, (∀ m, CityData.citizens cityData = Some m → js_lt0 m = false)
               → CityData.citizens cityData = Some n → js_lt0 n = true
               → False) as Hneg.
  { intros n H Hn Hlt. specialize (H n Hn). congruence. }
  destruct (CityData.citizens cityData) as [n|];
    [destruct (js_lt0 n) eqn:Hlt|];
    repeat case_bool_decide;
    cbn [Scraper.errors Scraper.warnings Scraper.events Scraper.clock fst snd];
    (split; [repeat rewrite <- app_assoc; simpl; try rewrite app_nil_r;
             reflexivity|]);
    (split; [simpl; lia|]); (split; [by repeat constructor|]);
    (split;
     [try discriminate;
      intros _; repeat split; try done; try (intros ? [= <-]; done)
     |intros (_ & ? & ? & ? & ? & Hc); try done;
      try (exfalso; by eapply (Hneg n Hc))]).
Qed.

(** X9.  The validator of city details says [false] only for a record
    without a name. It queues at most five warnings, stamped with the time
    of the call, and leaves the rest of the state alone; it queues none
    exactly for a named record with stats, job levels, resources and
    buildings and with no negative number of citizens. *)
Theorem validateCityDetails_verdict (cityData : CityData.t) (s : Scraper.t) :
  ∃ new,
    validateCityDetails cityData s
    = (Ok (negb (Str.falsy (CityData.name cityData))),
       {| Scraper.errors := Scraper.errors s;
          Scraper.warnings := Scraper.warnings s ++ new;
          Scraper.events := Scraper.events s;
          Scraper.clock := Scraper.clock s |})
    ∧ length new ≤ 5
    ∧ Forall (fun w => Warning.timestamp w = Scraper.clock s) new
    ∧ (new = []
       ↔ Str.falsy (CityData.name cityData) = false
         ∧ size (CityData.stats cityData) ≠ 0
         ∧ length (CityData.jobLevels cityData) ≠ 0
         ∧ size (CityData.resources cityData) ≠ 0
         ∧ size (CityData.buildings cityData) ≠ 0
         ∧ ∀ n, CityData.citizens cityData = Some n → js_lt0 n = false).
Proof. apply validateCityDetails_warnings. Qed.

Section FurtherCity.

Variable this : Config.t.
Variable env : Env.t.

(** X10.  [scrapeCity] does not act on the verdict of the validator: once
    the page is fetched it returns the record it built, also when the
    validator rejects the record, as it does for a city without a name. The
    validator only adds warnings, at most five. *)
Theorem scrapeCity_ignores_verdict (cityName : string) (s s1 : Scraper.t)
    (response : Response) :
  fetchWithRetry this env (cityUrl this cityName) 0 s = (Ok response, s1) →
  let cityData :=
    cityDataOf this cityName (data response) (Scraper.clock s1) in
  ∃ s',
    scrapeCity this env cityName s = (Ok (Scraped cityData), s')
    ∧ fst (validateCityDetails cityData s1) = Ok (negb (Str.falsy cityName))
    ∧ Scraper.errors s' = Scraper.errors s
    ∧ length (Scraper.warnings s') ≤ length (Scraper.warnings s) + 5.
Proof.
  intros Hfetch cityData. unfold scrapeCity. munfold. rewrite Hfetch.
  fold (cityDataOf this cityName (data response) (Scraper.clock s1)).
  fold cityData.
  destruct (validateCityDetails_warnings cityData s1)
    as (new & Hrun & Hlen & _).
  rewrite Hrun. eexists. split; [done|]. split; [done|].
  destruct (fetchWithRetry_run this env (cityUrl this cityName) 0 s)
    as (n & _ & Hf & _); [lia|].
  rewrite Hfetch in Hf. injection Hf as _ ->.
  cbn [Scraper.errors Scraper.warnings afterAttempts]. split; [done|].
  rewrite length_app. lia.
Qed.

(** The index page is fetched after [n] failed requests, and the list is
    built from it without a trace of its own. *)
Lemma scrapeCityList_trace s :
  served env (Config.baseUrl this) →
  ∃ n cityData s',
    scrapeCityList this env s = (Ok cityData, s')
    ∧ Scraper.errors s' = Scraper.errors s
    ∧ Scraper.events s'
      = Scraper.events s
        ++ retryTrace (Config.baseUrl this) (Config.retryDelay this) 0 n.
Proof.
  intros Hs. unfold scrapeCityList. munfold.
  destruct (fetchWithRetry_run this env (Config.baseUrl this) 0 s)
    as (n & _ & Hrun & _); [lia|].
  destruct (Hs (count_events is_get s + n)) as [response Hr].
  rewrite Hrun, Hr.
  destruct (extractCities_filter (Config.baseUrl this)
              (Page.cityRows (data response)) []
              (afterAttempts s (Config.baseUrl this)
                             (Config.retryDelay this) 0 n))
    as (s2 & -> & He2 & Hv2).
  eexists n, _, s2. split; [done|]. split; [done|]. done.
Qed.

(** X14.  A failed write fails the run, and nothing records it. When the
    index page is served and [cities.json] cannot be written, the run throws
    the error of the write; the list of errors of the scraper stays empty,
    and the run has requested the index page and no other. *)
Theorem runFullScrape_write_failure (s : Scraper.t) (error : Error) :
  served env (Config.baseUrl this) →
  Env.writeFile env (count_events is_write s) "cities.json" = Some error →
  ∃ n fileData s',
    runFullScrape this env s = (Throw error, s')
    ∧ Scraper.errors s' = []
    ∧ Scraper.events s'
      = Scraper.events s
        ++ retryTrace (Config.baseUrl this) (Config.retryDelay this) 0 n
        ++ [WriteFile "cities.json" fileData].
Proof.
  intros Hs Hw. unfold runFullScrape. munfold. cbn [fst snd].
  destruct (scrapeCityList_trace (Scraper.reset s) Hs)
    as (n & cityData & s1 & -> & He & Hv).
  unfold saveToFile.
  assert (count_events is_write s1 = count_events is_write s) as ->.
  { unfold count_events. rewrite Hv. simpl.
    by rewrite List.filter_app, (retryTrace_filter is_write), app_nil_r. }
  rewrite Hw. eexists n, _, _. split; [done|]. simpl.
  split; [done|]. by rewrite Hv, <- app_assoc.
Qed.

End FurtherCity.

Lemma scrapeCity_ignores_verdict_witness :
  ∃ response s1 s',
    fetchWithRetry Example.config Example.env (cityUrl Example.config "") 0
                   Scraper.initial
    = (Ok response, s1)
    ∧ scrapeCity Example.config Example.env "" Scraper.initial
      = (Ok (Scraped (cityDataOf Example.config "" (data response)
                                 (Scraper.clock s1))), s')
    ∧ fst (validateCityDetails
             (cityDataOf Example.config "" (data response) (Scraper.clock s1))
             s1)
      = Ok false.
Proof.
  assert (∃ response s1,
             fetchWithRetry Example.config Example.env
                            (cityUrl Example.config "") 0 Scraper.initial
             = (Ok response, s1)) as (response & s1 & Hfetch).
  { eexists _, _. rewrite fetchWithRetry_equation_1. reflexivity. }
  destruct (scrapeCity_ignores_verdict Example.config Example.env ""
              Scraper.initial s1 response Hfetch)
    as (s' & Hrun & Hverdict & _).
  exists response, s1, s'. split; [exact Hfetch|].
  split; [exact Hrun|exact Hverdict].
Defined.

Lemma runFullScrape_write_failure_witness :
  served Outage.readOnly (Config.baseUrl Example.config)
  ∧ Env.writeFile Outage.readOnly (count_events is_write Scraper.initial)
                  "cities.json"
    = Some Outage.diskFull
  ∧ ∃ s',
      runFullScrape Example.config Outage.readOnly Scraper.initial
      = (Throw Outage.diskFull, s')
      ∧ Scraper.errors s' = [].
Proof.
  assert (served Outage.readOnly (Config.baseUrl Example.config)) as Hs.
  { intros n. eexists. reflexivity. }
  split; [exact Hs|]. split; [reflexivity|].
  destruct (runFullScrape_write_failure Example.config Outage.readOnly
              Scraper.initial Outage.diskFull Hs eq_refl)
    as (n & fileData & s' & Hrun & Herr & _).
  exists s'. split; [exact Hrun|exact Herr].
Defined.

(** ** Further properties: buildings *)

Lemma lower_idempotent c : Chars.lower (Chars.lower c) = Chars.lower c.
Proof. by destruct c as [[] [] [] [] [] [] [] []]. Qed.

Lemma ws_to_underscore_no_ws in_run s :
  Str.existsb Chars.is_ws (Str.ws_to_underscore in_run s) = false.
Proof.
  revert in_run. induction s as [|c s IH]; intros in_run; [done|].
  cbn [Str.ws_to_underscore]. destruct (Chars.is_ws c) eqn:Hc.
  - destruct in_run; [apply IH|]. cbn [Str.existsb]. by rewrite IH.
  - cbn [Str.existsb]. by rewrite Hc, IH.
Qed.

Lemma ws_to_underscore_lower in_run s :
  Str.toLowerCase (Str.ws_to_underscore in_run (Str.toLowerCase s))
  = Str.ws_to_underscore in_run (Str.toLowerCase s).
Proof.
  unfold Str.toLowerCase. revert in_run.
  induction s as [|c s IH]; intros in_run; [done|].
  cbn [Str.map Str.ws_to_underscore]. destruct (Chars.is_ws (Chars.lower c)).
  - destruct in_run; [apply IH|]. cbn [Str.map]. by rewrite IH.
  - cbn [Str.map]. by rewrite IH, lower_idempotent.
Qed.

Lemma cleanName_nonempty buildingName :
  Str.falsy buildingName = false → cleanName buildingName ≠ "".
Proof.
  unfold cleanName, Str.toLowerCase. destruct buildingName as [|c s]; [done|].
  intros _. cbn [Str.map Str.ws_to_underscore].
  by destruct (Chars.is_ws (Chars.lower c)).
Qed.

(** What one section leaves in the object: the entries that were there,
    or the entry of the section. *)
Lemma buildingStep_entry buildings section key count :
  buildingStep buildings section !! key = Some count →
  buildings !! key = Some count
  ∨ (Str.falsy (Str.trim (BuildingSection.heading section)) = false
     ∧ key = sectionKey section
     ∧ match BuildingSection.greenCell section with
       | Some cellText => extractNumber (Str.trim cellText) = Some count
       | None => count = num_of_Z 0
       end).
Proof.
  unfold buildingStep, sectionKey, assign.
  destruct (Str.falsy (Str.trim (BuildingSection.heading section))) eqn:Hf;
    cbn [negb andb]; [by left|].
  destruct (0 <? _); [|by left].
  destruct (BuildingSection.greenCell section) as [cellText|].
  - destruct (extractNumber (Str.trim cellText)) as [n|] eqn:Hn; [|by left].
    case_bool_decide; [by left|].
    intros Hl. apply lookup_insert_Some in Hl as [[<- <-]|[_ Hl]];
      [by right|by left].
  - case_bool_decide; [by left|].
    intros Hl. apply lookup_insert_Some in Hl as [[<- <-]|[_ Hl]];
      [by right|by left].
Qed.

Lemma extractBuildings_entry sections key count :
  extractBuildings sections !! key = Some count →
  ∃ section,
    section ∈ sections
    ∧ Str.falsy (Str.trim (BuildingSection.heading section)) = false
    ∧ key = sectionKey section
    ∧ match BuildingSection.greenCell section with
      | Some cellText => extractNumber (Str.trim cellText) = Some count
      | None => count = num_of_Z 0
      end.
Proof.
  unfold extractBuildings.
  induction sections as [|section sections IH] using rev_ind; [done|].
  rewrite fold_left_app. cbn [fold_left]. intros Hl.
  apply buildingStep_entry in Hl as [Hl|(Hf & Hk & Hc)].
  - destruct (IH Hl) as (section' & Hin & H).
    exists section'. split; [|done]. apply elem_of_app. by left.
  - exists section. split; [|done]. apply elem_of_app. right. by left.
Qed.

(** X15.  Every entry of the buildings of a city comes from a section of
    the page.  Its key is the heading of that section, trimmed, in lower case
    and with every run of white space made one underscore: it is not empty,
    has no white space and no capital letter, and is not [__proto__].  Its
    count is the number read from the green cell of the section, or 0 when
    the section has no such cell; it is an integer, an infinity (from a
    cell of some hundreds of digits) or [NaN]. *)
Theorem extractBuildings_entries (sections : list BuildingSection.t)
    (key : string) (count : jsnum) :
  extractBuildings sections !! key = Some count →
  key ≠ ""
  ∧ Str.existsb Chars.is_ws key = false
  ∧ Str.toLowerCase key = key
  ∧ key ≠ "__proto__"
  ∧ (count = NaN
     ∨ (∃ negative, count = Infinity negative)
     ∨ ∃ z, count = num_of_Z z)
  ∧ ∃ section,
      section ∈ sections
      ∧ key = sectionKey section
      ∧ match BuildingSection.greenCell section with
        | Some cellText => extractNumber (Str.trim cellText) = Some count
        | None => count = num_of_Z 0
        end.
Proof.
  intros Hl.
  assert (key ≠ "__proto__") as Hproto.
  { intros ->. unfold extractBuildings in Hl.
    by rewrite fold_buildingStep_proto in Hl. }
  destruct (extractBuildings_entry sections key count Hl)
    as (section & Hin & Hf & -> & Hc).
  split; [by apply cleanName_nonempty|].
  split; [apply ws_to_underscore_no_ws|].
  split; [apply ws_to_underscore_lower|]. split; [done|]. split.
  - destruct (BuildingSection.greenCell section) as [cellText|].
    + by eapply extractNumber_integer_or_NaN.
    + right. right. by exists 0%Z.
  - by exists section.
Qed.

Lemma extractBuildings_entries_witness :
  extractBuildings (Page.buildingSections Example.page) !! "power_plant"
  = Some (num_of_Z 0)
  ∧ ∃ section,
      section ∈ Page.buildingSections Example.page
      ∧ "power_plant" = sectionKey section
      ∧ BuildingSection.greenCell section = None.
Proof.
  assert (extractBuildings (Page.buildingSections Example.page)
          !! "power_plant" = Some (num_of_Z 0)) as Hl by (vm_compute; done).
  split; [exact Hl|].
  destruct (extractBuildings_entries _ _ _ Hl)
    as (_ & _ & _ & _ & _ & section & Hin & Hk & Hc).
  exists section. split; [exact Hin|]. split; [exact Hk|].
  destruct (BuildingSection.greenCell section) as [cellText|] eqn:Hcell;
    [|reflexivity].
  exfalso. apply elem_of_cons in Hin as [->|Hin]; [discriminate Hk|].
  apply elem_of_cons in Hin as [->|Hin]; [discriminate Hcell|].
  by apply elem_of_nil in Hin.
Defined.

(** ** Further properties: the address of a city page *)

Lemma decode_first_encode c s :
  Percent.decode_first (Uri.encodeURIComponent (String c s))
  = Some (c, Uri.encodeURIComponent s).
Proof.
  cbn [Uri.encodeURIComponent]. generalize (Uri.encodeURIComponent s).
  intros rest. by destruct c as [[] [] [] [] [] [] [] []].
Qed.

Lemma encodeURIComponent_inj s1 s2 :
  Uri.encodeURIComponent s1 = Uri.encodeURIComponent s2 → s1 = s2.
Proof.
  revert s2. induction s1 as [|c1 s1 IH]; intros [|c2 s2] He.
  - done.
  - apply (f_equal Percent.decode_first) in He.
    by rewrite decode_first_encode in He.
  - apply (f_equal Percent.decode_first) in He.
    by rewrite decode_first_encode in He.
  - apply (f_equal Percent.decode_first) in He.
    rewrite !decode_first_encode in He. injection He as -> He.
    f_equal. by apply IH.
Qed.

Lemma encodeURIComponent_safe s :
  Str.forallb Percent.safe (Uri.encodeURIComponent s) = true.
Proof.
  induction s as [|c s IH]; [done|].
  cbn [Uri.encodeURIComponent]. rewrite forallb_app_str, IH, andb_true_r.
  by destruct c as [[] [] [] [] [] [] [] []].
Qed.

Lemma app_inv_head_str s s1 s2 : s +:+ s1 = s +:+ s2 → s1 = s2.
Proof.
  induction s as [|c s IH]; [done|].
  rewrite !app_cons_str. intros [= H]. by apply IH.
Qed.

(** X16.  The address of a city page is the base address, [/city/] and one
    path segment made of letters, digits, [- _ . ! ~ * ' ( )] and [%] only;
    and no two names have the same address. *)
Theorem cityUrl_one_segment_per_name (this : Config.t) (cityName : string) :
  ∃ segment,
    cityUrl this cityName = Config.baseUrl this +:+ "/city/" +:+ segment
    ∧ Str.forallb Percent.safe segment = true
    ∧ ∀ other, cityUrl this other = cityUrl this cityName → other = cityName.
Proof.
  exists (Uri.encodeURIComponent cityName). split; [done|].
  split; [apply encodeURIComponent_safe|].
  intros other He. unfold cityUrl in He.
  by apply app_inv_head_str, app_inv_head_str, encodeURIComponent_inj in He.
Qed.

(** ** Further properties: the number and unit parser *)

Lemma plus_rests_prefix p s rest :
  rest ∈ plus_rests p s →
  ∃ pre, s = pre +:+ rest ∧ Str.existsb p pre = true.
Proof.
  induction s as [|c s IH]; simpl; [by intros ?%elem_of_nil|].
  destruct (p c) eqn:Hc; [|by intros ?%elem_of_nil].
  intros [Hin| ->%list_elem_of_singleton]%elem_of_app.
  - destruct (IH Hin) as (pre & -> & Hp). exists (String c pre).
    split; [by rewrite app_cons_str|]. simpl. by rewrite Hc.
  - exists (String c ""). split; [done|]. simpl. by rewrite Hc.
Qed.

Lemma run_opt_class q s caps rest caps' :
  (rest, caps') ∈ run (Opt (Class q)) s caps →
  caps' = caps ∧ ∃ pre, s = pre +:+ rest.
Proof.
  cbn [run]. intros [Hin|[= -> ->]%list_elem_of_singleton]%elem_of_app.
  - destruct s as [|c s]; [by apply elem_of_nil in Hin|].
    destruct (q c); [|by apply elem_of_nil in Hin].
    apply list_elem_of_singleton in Hin as [= -> ->].
    split; [done|]. by exists (String c "").
  - split; [done|]. by exists "".
Qed.

(** A match of a signed run of [p] with a suffix letter has a character
    of [p] in it. *)
Lemma run_signed_run p q s caps rest caps' :
  (rest, caps')
  ∈ run (Cat (Opt (Class (Chars.one "-"))) (Cat (ClassPlus p) (Opt (Class q))))
        s caps →
  ∃ pre, s = pre +:+ rest ∧ Str.existsb p pre = true.
Proof.
  cbn [run]. intros Hin. apply list_elem_of_In, in_flat_map in Hin
    as ([s1 caps1] & H1%list_elem_of_In & Hin).
  apply in_flat_map in Hin as ([s2 caps2] & H2%list_elem_of_In & Hin).
  apply list_elem_of_In in Hin. cbn [fst snd] in *.
  apply (run_opt_class (Chars.one "-") s caps s1 caps1) in H1
    as [-> [pre1 ->]].
  apply list_elem_of_fmap in H2 as (r2 & [= -> ->] & H2).
  apply plus_rests_prefix in H2 as (pre2 & -> & Hp).
  apply (run_opt_class q) in Hin as [_ [pre3 ->]].
  exists (pre1 +:+ pre2 +:+ pre3). rewrite !app_assoc_str. split; [done|].
  by rewrite !existsb_app_str, Hp, orb_true_r.
Qed.

Lemma exec_here_single_group s m :
  exec_here re_stat_single s = Some m →
  Str.existsb Chars.digit_comma_dot (group 1 m) = true.
Proof.
  unfold exec_here, re_stat_single.
  remember (Cat (Opt (Class (Chars.one "-")))
                (Cat (ClassPlus Chars.digit_comma_dot) (Opt (Class Chars.kMG))))
    as r eqn:Hr.
  cbn [run].
  destruct (run r s ∅) as [|[rest caps'] ms] eqn:Hrun; [done|].
  intros [= <-]. cbn [fmap list_fmap head fst snd]. unfold group.
  destruct (run_signed_run Chars.digit_comma_dot Chars.kMG s ∅ rest caps')
    as (pre & -> & Hp); [rewrite <- Hr, Hrun; by left|].
  unfold captures in *. rewrite lookup_insert_eq. cbn [default].
  by rewrite consumed_app.
Qed.

Lemma search_single_group s m :
  search re_stat_single s = Some m →
  Str.existsb Chars.digit_comma_dot (group 1 m) = true.
Proof.
  induction s as [|c s IH]; cbn [search].
  - destruct (exec_here re_stat_single "") eqn:He; [|done].
    intros [= <-]. by eapply exec_here_single_group.
  - destruct (exec_here re_stat_single (String c s)) eqn:He; [|exact IH].
    intros [= <-]. by eapply exec_here_single_group.
Qed.

Lemma exec_here_single_some c s :
  Chars.digit_comma_dot c = true →
  is_Some (exec_here re_stat_single (String c s)).
Proof.
  intros Hc. unfold exec_here, re_stat_single.
  apply fmap_is_Some, head_fmap_is_Some.
  cbn [run]. rewrite flat_map_app. cbn [flat_map fst snd].
  pose proof (plus_rests_some _ c s Hc) as Hne.
  rewrite app_nil_r.
  destruct (plus_rests Chars.digit_comma_dot (String c s)) as [|r rs]; [done|].
  cbn [fmap list_fmap flat_map fst snd]. cbn [run].
  intros [_ H]%app_eq_nil.
  apply app_eq_nil in H as [H _]. by apply app_eq_nil in H as [_ H].
Qed.

Lemma search_single_some s :
  Str.existsb Chars.digit_comma_dot s = true →
  is_Some (search re_stat_single s).
Proof.
  induction s as [|c s IH]; intros Hs; [done|].
  cbn [search]. destruct (exec_here re_stat_single (String c s)) eqn:He;
    [eauto|].
  simpl in Hs. destruct (Chars.digit_comma_dot c) eqn:Hc.
  - pose proof (exec_here_single_some c s Hc) as [? ?]. congruence.
  - by apply IH.
Qed.

(** The three patterns find nothing in a text without a character of
    their class. *)
Lemma search_none_of (r : regex) (p : ascii → bool) :
  (∀ s, Str.existsb p s = false → exec_here r s = None) →
  ∀ s, Str.existsb p s = false → search r s = None.
Proof.
  intros Hr s. induction s as [|c s IH]; intros Hs.
  - cbn [search]. by rewrite Hr.
  - cbn [search]. rewrite (Hr _ Hs).
    simpl in Hs. apply orb_false_elim in Hs as [_ Hs]. by apply IH.
Qed.

Lemma search_single_none s :
  Str.existsb Chars.digit_comma_dot s = false → search re_stat_single s = None.
Proof.
  apply search_none_of. clear s. intros s Hs.
  unfold exec_here, re_stat_single. destruct s as [|c s]; [done|].
  simpl in Hs. apply orb_false_elim in Hs as [Hc Hs].
  simpl. destruct (Chars.one "-" c); simpl; rewrite Hc;
    try rewrite (plus_rests_none _ s Hs); done.
Qed.

Lemma search_stat_fraction_none s :
  Str.existsb Chars.digit_comma_dot s = false
  → search re_stat_fraction s = None.
Proof.
  apply search_none_of. clear s. intros s Hs.
  unfold exec_here, re_stat_fraction. cbn [run].
  by rewrite (plus_rests_none _ s Hs).
Qed.




(** X21.  [extractStatValue] is [null] exactly on the texts without a digit,
    a comma or a period: whatever has one of them gives a value or a pair. *)
Theorem extractStatValue_null_iff (text : string) :
  extractStatValue text = None
  ↔ Str.existsb Chars.digit_comma_dot text = false.
Proof.
  unfold extractStatValue. split.
  - destruct (Str.existsb Chars.digit_comma_dot text) eqn:Hs; [|done].
    destruct text as [|c s]; [done|]. cbn [Str.falsy].
    destruct (search re_stat_fraction _); [done|].
    destruct (search_single_some _ Hs) as [m Hm]. rewrite Hm.
    pose proof (search_single_group _ _ Hm) as Hg.
    destruct (parseStatNumber (group 1 m)) eqn:Hp; [done|].
    apply parseStatNumber_null_iff in Hp. congruence.
  - intros Hs. destruct (Str.falsy text); [done|].
    by rewrite search_stat_fraction_none, search_single_none.
Qed.


(** X19.  [extractNumber] is [null] exactly on the texts without a digit
    or a comma; what it returns besides is an integer, an infinity (for a
    token of some hundreds of digits) or [NaN], never a fraction. *)
Theorem extractNumber_result (text : string) :
  (extractNumber text = None ↔ Str.existsb Chars.digit_comma text = false)
  ∧ ∀ v, extractNumber text = Some v →
         v = NaN ∨ (∃ negative, v = Infinity negative) ∨ ∃ z, v = num_of_Z z.
Proof.
  split; [apply extractNumber_null_iff|].
  intros v. apply extractNumber_integer_or_NaN.
Qed.

(** X20.  [parseStatNumber] is [null] exactly on the texts without a digit,
    a comma or a period. *)
Theorem parseStatNumber_null_exactly (text : string) :
  parseStatNumber text = None
  ↔ Str.existsb Chars.digit_comma_dot text = false.
Proof. apply parseStatNumber_null_iff. Qed.

(** X18.  [parseStatNumber] on written numerals: a decimal numeral with
    one of the suffixes [k], [M], [G] or none is read as the double nearest
    to the number it denotes, times the magnitude of the suffix; the product
    is the product of doubles, rounded again. *)
Theorem parseStatNumber_reads_decimal (d : Decimal.t) (sfx : Suffix) :
  Decimal.wf d = true →
  parseStatNumber (Decimal.render d +:+ suffixText sfx)
  = Some (scale sfx (Double.round (Decimal.value d))).
Proof. apply parseStatNumber_decimal. Qed.

Lemma extractNumber_token_witness :
  Str.forallb Chars.digit_comma "1,204" = true
  ∧ Str.falsy "1,204" = false
  ∧ starts Chars.digit_comma " citizens" = false
  ∧ extractNumber "-1,204 citizens" = Some (num_of_Z (-1204))
  ∧ extractNumber "9007199254740993" = Some (num_of_Z 9007199254740992).
Proof.
  split; [reflexivity|]. split; [reflexivity|]. split; [reflexivity|]. split.
  - apply (proj2 (extractNumber_token true "1,204" " citizens"
                    eq_refl eq_refl eq_refl)); [reflexivity|].
    vm_compute. discriminate.
  - exact (proj1 (extractNumber_token false "9007199254740993" ""
                    eq_refl eq_refl eq_refl)).
Defined.

Lemma parseStatNumber_reads_decimal_witness :
  let d := {| Decimal.negative := false; Decimal.integer := "373";
              Decimal.fraction := Some "69" |} in
  Decimal.wf d = true
  ∧ parseStatNumber "373.69k" = Some (num_of_Z 373690).
Proof.
  intros d. split; [reflexivity|].
  exact (parseStatNumber_reads_decimal d Kilo eq_refl).
Defined.

(** ** Further properties: the database of runs *)

Section DatabaseProperties.

Variable fails : nat → option Error.

Lemma executeEach_saved {A} (statement : A → Sql.insert) items db :
  (∀ j, j < length items → fails (Client.executed db + j) = None) →
  executeEach fails statement items db
  = (Ok tt,
     {| Client.rows := Client.rows db ++ (statement <$> items);
        Client.executed := Client.executed db + length items |}).
Proof.
  revert db. induction items as [|item items IH]; intros db Hok.
  - destruct db. simpl. by rewrite app_nil_r, Nat.add_0_r.
  - cbn [executeEach]. unfold execute.
    pose proof (Hok 0 ltac:(simpl; lia)) as H0. rewrite Nat.add_0_r in H0.
    rewrite H0, IH.
    + simpl. rewrite <- app_assoc. do 2 f_equal. lia.
    + intros j Hj. cbn [Client.executed].
      replace (S (Client.executed db) + j) with (Client.executed db + S j)
        by lia.
      apply Hok. simpl. lia.
Qed.

Lemma executeEach_failed {A} (statement : A → Sql.insert) items db k error :
  k < length items →
  (∀ j, j < k → fails (Client.executed db + j) = None) →
  fails (Client.executed db + k) = Some error →
  executeEach fails statement items db
  = (Throw error,
     {| Client.rows := Client.rows db ++ (statement <$> take k items);
        Client.executed := Client.executed db + k + 1 |}).
Proof.
  revert db k. induction items as [|item items IH]; intros db k Hk Hok Hfail;
    [simpl in Hk; lia|].
  cbn [executeEach]. unfold execute. destruct k as [|k].
  - rewrite Nat.add_0_r in Hfail. rewrite Hfail. simpl.
    rewrite app_nil_r. do 2 f_equal. lia.
  - pose proof (Hok 0 ltac:(lia)) as H0. rewrite Nat.add_0_r in H0.
    rewrite H0, (IH _ k).
    + simpl. rewrite <- app_assoc. do 2 f_equal. lia.
    + simpl in Hk. lia.
    + intros j Hj. cbn [Client.executed].
      replace (S (Client.executed db) + j) with (Client.executed db + S j)
        by lia.
      apply Hok. lia.
    + cbn [Client.executed]. by replace (S (Client.executed db) + k)
        with (Client.executed db + S k) by lia.
Qed.

(** X23.  [saveCities] inserts the cities one by one and does not undo what
    it did: when the statement for the city at index [k] is the first to
    fail, the call throws the error of that statement and the rows of the
    [k] cities before it stay in the table, in the order of the list. When
    no statement fails every city has its row. *)
Theorem saveCities_no_rollback (runId : Sql.value) (cities : list City.t)
    (db : Client.t) :
  (∀ k error,
      k < length cities →
      (∀ j, j < k → fails (Client.executed db + j) = None) →
      fails (Client.executed db + k) = Some error →
      saveCities fails runId cities db
      = (Throw error,
         {| Client.rows :=
              Client.rows db ++ (cityInsert runId <$> take k cities);
            Client.executed := Client.executed db + k + 1 |}))
  ∧ ((∀ j, j < length cities → fails (Client.executed db + j) = None) →
     saveCities fails runId cities db
     = (Ok tt,
        {| Client.rows := Client.rows db ++ (cityInsert runId <$> cities);
           Client.executed := Client.executed db + length cities |})).
Proof.
  split.
  - intros k error. apply executeEach_failed.
  - apply executeEach_saved.
Qed.

(** X24.  [saveCityDetails] gives every record its row, the records of
    failed fetches too; and the row of a failed fetch is the row of a city
    whose page had nothing on it: no region or season, year, day and
    citizens 0 and three empty objects. *)
Theorem saveCityDetails_failed_as_blank (runId : Sql.value)
    (cityDetails : list CityDetail) (db : Client.t) :
  (∀ j, j < length cityDetails → fails (Client.executed db + j) = None) →
  saveCityDetails fails runId cityDetails db
  = (Ok tt,
     {| Client.rows :=
          Client.rows db ++ (cityDetailsInsert runId <$> cityDetails);
        Client.executed := Client.executed db + length cityDetails |})
  ∧ ∀ name url error scrapedAt,
      cityDetailsInsert runId (Failed name url error scrapedAt)
      = cityDetailsInsert runId (Scraped (blankCity name))
      ∧ Sql.args (cityDetailsInsert runId (Failed name url error scrapedAt))
        = [runId; Sql.Text name; Sql.Null; Sql.Number (num_of_Z 0);
           Sql.Number (num_of_Z 0); Sql.Null; Sql.Number (num_of_Z 0);
           Sql.StatsJson ∅; Sql.StatsJson ∅; Sql.BuildingsJson ∅].
Proof.
  intros Hok. split; [by apply executeEach_saved|]. done.
Qed.

End DatabaseProperties.

Lemma or_zero_number x : or_zero x ≠ NaN.
Proof.
  unfold or_zero. destruct x as [[q| |negative]|]; try done.
  by destruct (Qeq_bool q 0).
Qed.

Lemma or_null_storable s : storable (or_null s) = true.
Proof.
  unfold or_null. destruct s as [text|]; [|done]. by destruct (Str.falsy text).
Qed.

Lemma number_or_zero_storable x : storable (Sql.Number (or_zero x)) = true.
Proof.
  pose proof (or_zero_number x) as H. simpl. by destruct (or_zero x).
Qed.

Lemma flag_storable b : storable (flag b) = true.
Proof. by destruct b. Qed.

(** X25.  No [NaN] reaches the database. Whatever the scraper read, the
    numbers bound to the statements for the global counters, a city, the
    details of a city and a war are numbers: a count that is [null] or [NaN]
    is stored as 0. *)
Theorem statements_hold_no_NaN (runId : Sql.value) :
  storable runId = true →
  (∀ globalStats,
      forallb storable (Sql.args (globalStatsInsert runId globalStats)) = true)
  ∧ (∀ city, forallb storable (Sql.args (cityInsert runId city)) = true)
  ∧ (∀ city, forallb storable (Sql.args (cityDetailsInsert runId city)) = true)
  ∧ (∀ war, forallb storable (Sql.args (warInsert runId war)) = true)
  ∧ or_zero None = num_of_Z 0 ∧ or_zero (Some NaN) = num_of_Z 0.
Proof.
  intros Hrun. repeat split; try intros ?; cbn [forallb Sql.args
    globalStatsInsert cityInsert cityDetailsInsert warInsert];
    by rewrite ?Hrun, ?number_or_zero_storable, ?flag_storable,
         ?or_null_storable.
Qed.

Lemma saveCities_no_rollback_witness :
  let city name :=
    cityOfRow BASE_URL (Example.cityRow name "87") name ("/city/" +:+ name) in
  let db := {| Client.rows := []; Client.executed := 0 |} in
  saveCities failsThird (Sql.Number (num_of_Z 1))
             [city "A"; city "B"; city "C"; city "D"] db
  = (Throw Outage.locked,
     {| Client.rows :=
          [cityInsert (Sql.Number (num_of_Z 1)) (city "A");
           cityInsert (Sql.Number (num_of_Z 1)) (city "B")];
        Client.executed := 3 |}).
Proof.
  intros city db.
  refine (proj1 (saveCities_no_rollback failsThird (Sql.Number (num_of_Z 1))
                   [city "A"; city "B"; city "C"; city "D"] db)
            2 Outage.locked _ _ eq_refl).
  - simpl. lia.
  - intros [|[|j]] Hj; [reflexivity|reflexivity|lia].
Defined.

Lemma saveCityDetails_failed_as_blank_witness :
  let db := {| Client.rows := []; Client.executed := 0 |} in
  let failed := Failed "B" "https://fragile.city/city/B" "timeout" 0 in
  (∀ j, j < 1 → failsThird (Client.executed db + j) = None)
  ∧ saveCityDetails failsThird (Sql.Number (num_of_Z 1)) [failed] db
    = (Ok tt,
       {| Client.rows :=
            [cityDetailsInsert (Sql.Number (num_of_Z 1))
               (Scraped (blankCity "B"))];
          Client.executed := 1 |}).
Proof.
  intros db failed.
  assert (∀ j, j < 1 → failsThird (Client.executed db + j) = None) as Hok.
  { intros [|j] Hj; [reflexivity|lia]. }
  split; [exact Hok|].
  exact (proj1 (saveCityDetails_failed_as_blank failsThird
                  (Sql.Number (num_of_Z 1)) [failed] db Hok)).
Defined.

Lemma statements_hold_no_NaN_witness :
  storable (Sql.Number (num_of_Z 1)) = true
  ∧ forallb storable
      (Sql.args
         (cityInsert (Sql.Number (num_of_Z 1))
            {| City.name := "A"; City.url := "https://fragile.city/city/A";
               City.pollution := Some NaN; City.citizens := Some NaN;
               City.emailVerified := false; City.isPatron := false;
               City.hasContributed := false |}))
    = true.
Proof.
  split; [reflexivity|].
  exact (proj1 (proj2 (statements_hold_no_NaN (Sql.Number (num_of_Z 1))
                         eq_refl)) _).
Defined.

(** ** Further properties: values and pairs in general *)

(** The first way in which an expression matches, part by part. *)
Lemma first_class p c s caps :
  p c = true → head (run (Class p) (String c s) caps) = Some (s, caps).
Proof. intros Hc. cbn [run]. by rewrite Hc. Qed.

Lemma first_plus p token rest caps :
  Str.forallb p token = true → Str.falsy token = false →
  starts p rest = false →
  head (run (ClassPlus p) (token +:+ rest) caps) = Some (rest, caps).
Proof.
  intros Ht Hne Hrest.
  destruct (plus_rests_app p token rest Ht Hne Hrest) as [others Hrests].
  cbn [run]. by rewrite Hrests.
Qed.

Lemma first_cat r1 r2 s caps m1 m :
  head (run r1 s caps) = Some m1 →
  head (run r2 (fst m1) (snd m1)) = Some m →
  head (run (Cat r1 r2) s caps) = Some m.
Proof.
  cbn [run]. destruct (run r1 s caps) as [|m1' ms]; [done|].
  intros [= ->]. cbn [flat_map].
  by destruct (run r2 (fst m1) (snd m1)).
Qed.

Lemma first_group n r s caps m :
  head (run r s caps) = Some m →
  head (run (Group n r) s caps)
  = Some (fst m, <[n := consumed s (fst m)]> (snd m)).
Proof.
  cbn [run]. destruct (run r s caps) as [|m' ms]; [done|]. by intros [= ->].
Qed.

Lemma first_opt_taken r s caps m :
  head (run r s caps) = Some m → head (run (Opt r) s caps) = Some m.
Proof. cbn [run]. by destruct (run r s caps). Qed.

Lemma first_opt_skipped r s caps :
  run r s caps = [] → head (run (Opt r) s caps) = Some (s, caps).
Proof. cbn [run]. by intros ->. Qed.

(** An optional suffix letter, at the end of the text or in front of
    [rest]. *)
Lemma first_suffix (sfx : Suffix) rest caps :
  starts Chars.kMG rest = false →
  head (run (Opt (Class Chars.kMG)) (suffixText sfx +:+ rest) caps)
  = Some (rest, caps).
Proof.
  intros Hrest. destruct sfx.
  - rewrite app_nil_l_str. apply first_opt_skipped.
    destruct rest as [|c rest]; [done|]. simpl in Hrest |- *. by rewrite Hrest.
  - by apply first_opt_taken.
  - by apply first_opt_taken.
  - by apply first_opt_taken.
Qed.

Lemma consumed_all s : consumed s "" = s.
Proof.
  pose proof (consumed_app s "") as H. by rewrite app_nil_r_str in H.
Qed.

(** What a match leaves is a suffix of the text. *)
Lemma run_suffix r :
  ∀ s caps rest caps',
    (rest, caps') ∈ run r s caps → ∃ pre, s = pre +:+ rest.
Proof.
  induction r as [p|p|r1 IH1 r2 IH2|r IH|n r IH]; intros s caps rest caps';
    cbn [run].
  - destruct s as [|c s]; [by intros ?%elem_of_nil|].
    destruct (p c); [|by intros ?%elem_of_nil].
    intros [= -> ->]%list_elem_of_singleton. by exists (String c "").
  - intros (rest' & [= -> ->] & Hin)%list_elem_of_fmap.
    apply plus_rests_prefix in Hin as (pre & -> & _). by exists pre.
  - intros Hin. apply list_elem_of_In, in_flat_map in Hin
      as ([s1 caps1] & H1%list_elem_of_In & H2%list_elem_of_In).
    apply IH1 in H1 as [pre1 ->]. apply IH2 in H2 as [pre2 H2].
    cbn [fst] in H2. rewrite H2. exists (pre1 +:+ pre2).
    by rewrite app_assoc_str.
  - intros [Hin|[= -> ->]%list_elem_of_singleton]%elem_of_app.
    + by eapply IH.
    + by exists "".
  - intros ([rest' caps1] & [= -> ->] & Hin)%list_elem_of_fmap.
    by eapply IH.
Qed.

Lemma flat_map_nil {A B} (f : A → list B) (l : list A) :
  (∀ x, x ∈ l → f x = []) → flat_map f l = [].
Proof.
  induction l as [|x l IH]; [done|]. intros H. cbn [flat_map].
  rewrite (H x) by by left. apply IH. intros y Hy. apply H. by right.
Qed.

(** A pattern with a [/] in it finds nothing in a text without one. *)
Lemma search_no_slash r1 r2 s :
  Str.existsb (Chars.one "/") s = false →
  search (Cat r1 (Cat (Class (Chars.one "/")) r2)) s = None.
Proof.
  revert s. apply search_none_of. intros s Hs. unfold exec_here.
  assert (run (Cat r1 (Cat (Class (Chars.one "/")) r2)) s ∅ = []) as ->;
    [|done].
  cbn [run]. apply flat_map_nil. intros [rest caps] Hin.
  apply run_suffix in Hin as [pre ->]. cbn [fst snd].
  rewrite existsb_app_str in Hs. apply orb_false_elim in Hs as [_ Hs].
  destruct rest as [|c rest]; [done|]. simpl in Hs.
  apply orb_false_elim in Hs as [-> _]. done.
Qed.

Lemma numeralChar_not_slash c :
  numeralChar c = true → Chars.one "/" c = false.
Proof. destruct c as [[] [] [] [] [] [] [] []]; vm_compute; congruence. Qed.

Lemma body_starts_digit d :
  Decimal.wf d = true → starts (Chars.one "-") (Decimal.body d) = false.
Proof.
  intros (Hne & Hi & _)%wf_parts. unfold Decimal.body.
  destruct (Decimal.integer d) as [|c i]; [done|]. rewrite app_cons_str.
  simpl in Hi |- *. apply andb_prop in Hi as [Hc _].
  by destruct (digit_not_sign c Hc) as [Hm _].
Qed.

(** The single pattern takes a written numeral and its suffix whole. *)
Lemma exec_here_single_decimal d sfx :
  Decimal.wf d = true →
  ∃ m,
    exec_here re_stat_single (Decimal.render d +:+ suffixText sfx) = Some m
    ∧ group 1 m = Decimal.render d +:+ suffixText sfx.
Proof.
  intros Hwf. destruct (body_class d Hwf) as (Hclass & Hne & _).
  pose proof (body_starts_digit d Hwf) as Hstart.
  set (text := Decimal.render d +:+ suffixText sfx).
  assert (head (run (Opt (Class (Chars.one "-"))) text ∅)
          = Some (Decimal.body d +:+ suffixText sfx, ∅)) as Hsign.
  { unfold text, Decimal.render. destruct (Decimal.negative d).
    - rewrite app_assoc_str, app_cons_str, app_nil_l_str.
      by apply first_opt_taken, first_class.
    - rewrite app_nil_l_str. apply first_opt_skipped.
      destruct (Decimal.body d) as [|c b]; [done|].
      rewrite app_cons_str. simpl in Hstart |- *. by rewrite Hstart. }
  assert (head (run (Cat (ClassPlus Chars.digit_comma_dot)
                         (Opt (Class Chars.kMG)))
                    (Decimal.body d +:+ suffixText sfx) ∅)
          = Some ("", ∅)) as Hbody.
  { eapply first_cat.
    - apply first_plus; [done|done|by destruct sfx].
    - cbn [fst snd]. rewrite <- (app_nil_r_str (suffixText sfx)).
      by apply first_suffix. }
  pose proof (first_group 1 _ text ∅ _
                (first_cat _ _ text ∅ _ _ Hsign Hbody)) as Hrun.
  cbn [fst snd] in Hrun. rewrite consumed_all in Hrun.
  unfold exec_here, re_stat_single. rewrite Hrun.
  eexists. split; [reflexivity|]. unfold group. cbn [snd].
  unfold captures. by rewrite lookup_insert_eq.
Qed.

(** The fraction pattern takes two unsigned numerals around a [/], the
    suffix of the second with it. *)
Lemma exec_here_stat_fraction_decimals d1 d2 sfx :
  Decimal.wf d1 = true → Decimal.wf d2 = true →
  ∃ m,
    exec_here re_stat_fraction
      (Decimal.body d1 +:+ "/" +:+ Decimal.body d2 +:+ suffixText sfx)
    = Some m
    ∧ group 1 m = Decimal.body d1
    ∧ group 2 m = Decimal.body d2 +:+ suffixText sfx.
Proof.
  intros Hwf1 Hwf2.
  destruct (body_class d1 Hwf1) as (Hclass1 & Hne1 & _).
  destruct (body_class d2 Hwf2) as (Hclass2 & Hne2 & _).
  set (rest := "/" +:+ Decimal.body d2 +:+ suffixText sfx).
  set (text := Decimal.body d1 +:+ rest).
  pose proof (first_group 1 _ text ∅ _
                (first_plus Chars.digit_comma_dot (Decimal.body d1) rest ∅
                   Hclass1 Hne1 eq_refl)) as H1.
  cbn [fst snd] in H1. unfold text in H1 at 2. rewrite consumed_app in H1.
  set (caps1 := <[1 := Decimal.body d1]> (∅ : captures)) in *.
  assert (head (run (Cat (ClassPlus Chars.digit_comma_dot)
                         (Opt (Class Chars.kMG)))
                    (Decimal.body d2 +:+ suffixText sfx) caps1)
          = Some ("", caps1)) as Hbody.
  { eapply first_cat.
    - apply first_plus; [done|done|by destruct sfx].
    - cbn [fst snd]. rewrite <- (app_nil_r_str (suffixText sfx)).
      by apply first_suffix. }
  pose proof (first_group 2 _ _ caps1 _ Hbody) as H2.
  cbn [fst snd] in H2. rewrite consumed_all in H2.
  assert (head (run (Cat (Class (Chars.one "/"))
                         (Group 2 (Cat (ClassPlus Chars.digit_comma_dot)
                                       (Opt (Class Chars.kMG)))))
                    rest caps1)
          = Some ("", <[2 := Decimal.body d2 +:+ suffixText sfx]> caps1))
    as Hslash.
  { unfold rest. rewrite app_cons_str, app_nil_l_str.
    eapply first_cat; [by apply first_class|]. exact H2. }
  pose proof (first_cat _ _ text ∅ _ _ H1 Hslash) as Hrun.
  unfold exec_here, re_stat_fraction. fold text. rewrite Hrun.
  eexists. split; [reflexivity|]. unfold group, caps1, captures. cbn [snd].
  by rewrite lookup_insert_ne, !lookup_insert_eq.
Qed.

Lemma render_no_slash d sfx :
  Decimal.wf d = true →
  Str.existsb (Chars.one "/") (Decimal.render d +:+ suffixText sfx) = false.
Proof.
  intros Hwf. destruct (body_class d Hwf) as (_ & _ & Hchars).
  unfold Decimal.render. rewrite !existsb_app_str.
  rewrite (forallb_not_existsb _ _ _ numeralChar_not_slash Hchars).
  by destruct (Decimal.negative d), sfx.
Qed.

Lemma render_truthy d s :
  Decimal.wf d = true → Str.falsy (Decimal.body d +:+ s) = false.
Proof.
  intros Hwf. destruct (body_class d Hwf) as (_ & Hne & _).
  by destruct (Decimal.body d).
Qed.

Lemma parseStatNumber_body d sfx :
  Decimal.wf d = true →
  parseStatNumber (Decimal.body d +:+ suffixText sfx)
  = Some (scale sfx (Double.round (Decimal.value (unsignedDecimal d)))).
Proof.
  intros Hwf.
  pose proof (parseStatNumber_decimal (unsignedDecimal d) sfx Hwf) as H.
  unfold Decimal.render in H. cbn [Decimal.negative unsignedDecimal] in H.
  by rewrite app_nil_l_str in H.
Qed.

(** The fraction pattern does not start at a minus sign. *)
Lemma search_stat_fraction_skips_sign s :
  search re_stat_fraction (String "-" s) = search re_stat_fraction s.
Proof. done. Qed.

(** X26.  [extractStatValue] on written numerals.  A numeral with one of
    the suffixes [k], [M], [G] or none is read as the double nearest to the
    number it denotes, scaled by the suffix in the arithmetic of doubles.
    Two numerals around a [/], the second with such a suffix, are read as
    the pair of the two numbers read in this way; the sign of the first is
    lost, since the pattern of the pair has no place for it. *)
Theorem extractStatValue_reads_decimals (d d' : Decimal.t) (sfx : Suffix) :
  Decimal.wf d = true → Decimal.wf d' = true →
  extractStatValue (Decimal.render d +:+ suffixText sfx)
  = Some (Scalar (scale sfx (Double.round (Decimal.value d))))
  ∧ extractStatValue
      (Decimal.render d +:+ "/" +:+ Decimal.body d' +:+ suffixText sfx)
    = Some (Range (Some (Double.round (Decimal.value (unsignedDecimal d))))
                  (Some (scale sfx
                           (Double.round
                              (Decimal.value (unsignedDecimal d')))))).
Proof.
  intros Hwf Hwf'. split.
  - unfold extractStatValue.
    assert (Str.falsy (Decimal.render d +:+ suffixText sfx) = false) as ->.
    { unfold Decimal.render. destruct (Decimal.negative d); [done|].
      rewrite app_nil_l_str. by apply render_truthy. }
    unfold re_stat_fraction at 1.
    rewrite search_no_slash by by apply render_no_slash.
    destruct (exec_here_single_decimal d sfx Hwf) as (m & Hm & Hg).
    rewrite (search_here _ _ _ Hm), Hg.
    by rewrite parseStatNumber_decimal.
  - unfold extractStatValue.
    destruct (exec_here_stat_fraction_decimals _ _ sfx Hwf Hwf')
      as (m & Hm & Hg1 & Hg2).
    assert (Str.falsy (Decimal.render d +:+ "/" +:+ Decimal.body d'
                       +:+ suffixText sfx) = false
            ∧ search re_stat_fraction
                (Decimal.render d +:+ "/" +:+ Decimal.body d'
                 +:+ suffixText sfx) = Some m) as [-> ->].
    { unfold Decimal.render. destruct (Decimal.negative d).
      - rewrite app_assoc_str, app_cons_str, app_nil_l_str.
        split; [done|]. rewrite search_stat_fraction_skips_sign.
        by apply search_here.
      - rewrite app_nil_l_str. split; [by apply render_truthy|].
        by apply search_here. }
    rewrite Hg1, Hg2, (parseStatNumber_body _ sfx Hwf').
    pose proof (parseStatNumber_body _ NoSuffix Hwf) as H1.
    cbn [suffixText] in H1. rewrite app_nil_r_str in H1. by rewrite H1.
Qed.




Lemma extractStatValue_reads_decimals_witness :
  let current := {| Decimal.negative := true; Decimal.integer := "5";
                    Decimal.fraction := None |} in
  let max := {| Decimal.negative := false; Decimal.integer := "300";
                Decimal.fraction := Some "37" |} in
  Decimal.wf current = true ∧ Decimal.wf max = true
  ∧ extractStatValue "-5k" = Some (Scalar (num_of_Z (-5000)))
  ∧ extractStatValue "-5/300.37k"
    = Some (Range (Some (num_of_Z 5)) (Some (num_of_Z 300370))).
Proof.
  intros current max. split; [reflexivity|]. split; [reflexivity|].
  exact (extractStatValue_reads_decimals current max Kilo eq_refl eq_refl).
Defined.


(** ** Further properties: the requests of a run *)

Section Requests.

Variable this : Config.t.
Variable env : Env.t.

(** A page that is always served is fetched at the first request. *)
Lemma fetchWithRetry_first_try url s :
  served env url →
  ∃ response,
    fetchWithRetry this env url 0 s
    = (Ok response, Scraper.push_event (Get url) s).
Proof.
  intros Hs.
  destruct (fetchWithRetry_run this env url 0 s) as (n & _ & Hrun & Hf & _);
    [lia|].
  destruct n as [|n].
  - destruct (Hs (count_events is_get s + 0)) as [response Hr].
    exists response. by rewrite Hrun, Hr, afterAttempts_0.
  - destruct (Hf 0 ltac:(lia)) as [e He].
    destruct (Hs (count_events is_get s + 0)) as [response Hr]. congruence.
Qed.

Lemma scrapeCityList_first_try s :
  served env (Config.baseUrl this) →
  ∃ cityData s',
    scrapeCityList this env s = (Ok cityData, s')
    ∧ Scraper.events s' = Scraper.events s ++ [Get (Config.baseUrl this)].
Proof.
  intros Hs. unfold scrapeCityList. munfold.
  destruct (fetchWithRetry_first_try (Config.baseUrl this) s Hs)
    as [response ->].
  destruct (extractCities_filter (Config.baseUrl this)
              (Page.cityRows (data response)) []
              (Scraper.push_event (Get (Config.baseUrl this)) s))
    as (s2 & -> & _ & Hv2).
  by eexists _, s2.
Qed.

Lemma scrapeWars_first_try s :
  served env (Config.baseUrl this) →
  ∃ wars s',
    scrapeWars this env s = (Ok wars, s')
    ∧ Scraper.events s' = Scraper.events s ++ [Get (Config.baseUrl this)].
Proof.
  intros Hs. unfold scrapeWars. munfold.
  destruct (fetchWithRetry_first_try (Config.baseUrl this) s Hs)
    as [response ->].
  destruct (extractWars_filter (Config.baseUrl this)
              (Page.warRows (data response)) []
              (Scraper.push_event (Get (Config.baseUrl this)) s))
    as (s2 & -> & _ & Hv2).
  by eexists _, s2.
Qed.

(** The requests of [scrapeCity] are requests for the page of the
    city. *)
Lemma scrapeCity_requests (cityName : string) s :
  ∃ n,
    List.filter is_get (Scraper.events (snd (scrapeCity this env cityName s)))
    = List.filter is_get (Scraper.events s)
      ++ replicate (n + 1) (Get (cityUrl this cityName)).
Proof.
  destruct (fetchWithRetry_run this env (cityUrl this cityName) 0 s)
    as (n & _ & Hrun & _); [lia|].
  exists n.
  destruct (Env.net env (count_events is_get s + n) (cityUrl this cityName))
    as [response|e] eqn:Hnet.
  - destruct (scrapeCity_fetched this env _ _ _ _ Hrun) as (s' & Hs' & _).
    unfold scrapeCity in Hs' |- *. revert Hs'. munfold. rewrite Hrun.
    match goal with |- context [validateCityDetails ?c ?st] =>
      destruct (validateCityDetails_run c st) as (valid & s1 & -> & _ & Hev & _)
    end.
    intros _. cbn [snd]. rewrite Hev. simpl.
    by rewrite List.filter_app, retryTrace_requests.
  - rewrite (scrapeCity_failed this env _ _ _ _ Hrun). simpl.
    by rewrite List.filter_app, retryTrace_requests.
Qed.

(** X28.  A run downloads the index page twice, once for the list of cities
    and once for the wars, and then only pages of cities. This is stated for
    an index page that is served at every request, a writable disk and a
    concurrency of at least one. *)
Theorem runFullScrape_fetches_index_twice (s : Scraper.t) :
  1 ≤ Config.concurrency this →
  served env (Config.baseUrl this) →
  writable env →
  ∃ pages,
    List.filter is_get (Scraper.events (snd (runFullScrape this env s)))
    = List.filter is_get (Scraper.events s)
      ++ Get (Config.baseUrl this) :: Get (Config.baseUrl this) :: pages
    ∧ Forall (fun ev => ∃ cityName, ev = Get (cityUrl this cityName)) pages.
Proof.
  intros Hc Hs Hw. unfold runFullScrape. munfold. cbn [fst snd].
  destruct (scrapeCityList_first_try (Scraper.reset s) Hs)
    as (cityData & s1 & -> & Hv1).
  rewrite saveToFile_writable by done.
  set (s1' := Scraper.push_event _ s1).
  destruct (scrapeWars_first_try s1' Hs) as (wars & s2 & -> & Hv2).
  rewrite saveToFile_writable by done.
  set (s2' := Scraper.push_event _ s2).
  set (requested := List.filter is_get (Scraper.events s)
                    ++ [Get (Config.baseUrl this); Get (Config.baseUrl this)]).
  assert (List.filter is_get (Scraper.events s2') = requested) as Hreq.
  { unfold s2'. simpl. rewrite List.filter_app, app_nil_r, Hv2.
    unfold s1'. simpl. rewrite !List.filter_app. simpl.
    rewrite app_nil_r, Hv1, List.filter_app. simpl.
    unfold requested. by rewrite <- app_assoc. }
  pose proof (processBatch_invariant this
                (fun city => detail ← scrapeCity this env (City.name city);
                             ret (Some detail))
                (fun st => ∃ pages,
                     List.filter is_get (Scraper.events st)
                     = requested ++ pages
                     ∧ Forall (fun ev => ∃ cityName,
                                   ev = Get (cityUrl this cityName)) pages))
    as Hinv.
  specialize (Hinv
    ltac:(intros city st (pages & Hst & Hpages); munfold;
          destruct (scrapeCity_requests (City.name city) st) as [n Hn];
          destruct (scrapeCity this env (City.name city) st)
            as [[detail|e] st'];
          cbn [snd] in Hn |- *;
          (exists (pages ++ replicate (n + 1)
                              (Get (cityUrl this (City.name city))));
           split; [by rewrite Hn, Hst, app_assoc|];
           apply Forall_app; split; [done|];
           apply Forall_replicate; by eexists))
    ltac:(intros ms st (pages & Hst & Hpages); exists pages;
          split; [|done]; unfold sleep, modify; simpl;
          by rewrite List.filter_app, app_nil_r)
    (CityList.cities cityData) (Config.concurrency this) s2'
    ltac:(exists []; split; [by rewrite app_nil_r|done])).
  fold (scrapeAllCities this env (CityList.cities cityData)) in Hinv.
  destruct (scrapeAllCities_run this env (CityList.cities cityData) s2' Hc)
    as (details & s3 & Hrun & _).
  rewrite Hrun in Hinv |- *. cbn [snd] in Hinv.
  destruct Hinv as (pages & Hst & Hpages).
  cbn [BatchResult.results BatchResult.errors].
  rewrite saveToFile_writable by done.
  set (s3' := Scraper.push_event _ s3).
  match goal with |- context [saveToDatabase this env ?m s3'] =>
    destruct (saveToDatabase_cases this env m s3') as (s4 & Hdb & _) end.
  assert (List.filter is_get (Scraper.events s4)
          = List.filter is_get (Scraper.events s3')) as Hget.
  { revert Hdb. unfold saveToDatabase, when. destruct (Config.database this).
    - destruct (Env.database env _); intros [= <-]; simpl;
        by rewrite List.filter_app, app_nil_r.
    - unfold ret. by intros [= <-]. }
  rewrite Hdb. cbn [snd]. exists pages. split; [|done].
  rewrite Hget. unfold s3'. simpl.
  rewrite List.filter_app, app_nil_r, Hst. unfold requested.
  by rewrite <- app_assoc.
Qed.

End Requests.

Lemma runFullScrape_fetches_index_twice_witness :
  1 ≤ Config.concurrency Example.config
  ∧ served Example.env (Config.baseUrl Example.config)
  ∧ writable Example.env
  ∧ ∃ pages,
      List.filter is_get
        (Scraper.events
           (snd (runFullScrape Example.config Example.env Scraper.initial)))
      = Get BASE_URL :: Get BASE_URL :: pages.
Proof.
  assert (1 ≤ Config.concurrency Example.config) as Hc by (vm_compute; lia).
  assert (served Example.env (Config.baseUrl Example.config)) as Hs.
  { intros n. eexists. reflexivity. }
  assert (writable Example.env) as Hw by (intros n filename; reflexivity).
  split; [exact Hc|]. split; [exact Hs|]. split; [exact Hw|].
  destruct (runFullScrape_fetches_index_twice Example.config Example.env
              Scraper.initial Hc Hs Hw) as (pages & Hev & _).
  exists pages. exact Hev.
Defined.
